(** * gmocoin-exec-alert: a shallow embedding of the alerting core

    The development follows the layout of the Python package
    [gmocoin_exec_alert]:

    - [Dedup]      : [dedup.py], the TTL and capacity bounded recency cache;
    - [Float], [DedupFloat] : the arithmetic of [float], and [dedup.py]
      with it;
    - [Json], [Keys] : the event objects and [_dedup_key_for_event],
      [_summary_for_event] of [main.py];
    - [PagerDuty]  : [pagerduty.py], the Events API client;
    - [Recv]       : [_recv_loop] of [main.py];
    - [Gmo]        : the token operations of [gmo.py];
    - [Supervisor] : [_run_once] and [_runner] of [main.py];
    - [Samples]    : concrete configurations, events and frames.

    The definitions come first, the facts about them after.

    Conventions.  Python [int] is [Z].  A reading of [time.time()] is a
    rational number [Q] of seconds handed to the operation that reads the
    clock, so that a clock is a list of readings.  [Dedup] subtracts
    readings without rounding; [DedupFloat] is the same cache with the
    arithmetic of [float], rounding and conversion included, and the facts
    about the length of the window are stated on it.  A Python exception is a
    value of [exn]; a call that may raise returns [exn + A].  An
    [OrderedDict] is an association list whose head is the oldest position
    of the recency order. *)

From Stdlib Require Import String Ascii Bool ZArith QArith Qround Qabs Qpower.
From Stdlib Require Import Lia Lqa List.
From Stdlib Require Import DecimalString OrderedTypeEx.
From Stdlib Require Import Permutation Sorted.
Import ListNotations.

Set Warnings "-register-all".

Open Scope string_scope.
Open Scope list_scope.
Open Scope Z_scope.

(** ** Exceptions and results *)

Inductive exn : Type :=
| ValueError (msg : string)
| RuntimeError (msg : string)
| TypeError (msg : string)
| KeyError (msg : string)
| AttributeError (msg : string)
| TransportError (msg : string)
| OverflowError (msg : string).

Definition result (A : Type) : Type := (exn + A)%type.

Definition is_ok {A : Type} (r : result A) : bool :=
  match r with inr _ => true | inl _ => false end.

(** ** dedup.py *)

Module Dedup.

(** One item of [self._seen]: the key and its first-seen clock reading. *)
Definition entry : Type := (string * Q)%type.

(** [OrderedDict[str, float]]: head = first position of the order. *)
Definition odict : Type := list entry.

Definition keys (d : odict) : list string := map fst d.

(** [d.get(key)] *)
Fixpoint od_get (key : string) (d : odict) : option Q :=
  match d with
  | [] => None
  | (k, ts) :: tl => if String.eqb k key then Some ts else od_get key tl
  end.

Fixpoint od_remove (key : string) (d : odict) : odict :=
  match d with
  | [] => []
  | (k, ts) :: tl =>
      if String.eqb k key then od_remove key tl else (k, ts) :: od_remove key tl
  end.

(** [d[key] = v]: a resident key keeps its position, a new key goes to
    the end. *)
Fixpoint od_set (key : string) (v : Q) (d : odict) : odict :=
  match d with
  | [] => [(key, v)]
  | (k, ts) :: tl =>
      if String.eqb k key then (k, v) :: tl else (k, ts) :: od_set key v tl
  end.

(** [d.move_to_end(key)].  Python raises [KeyError] for a key that is not
    resident; [seen_recently] calls it on a resident key only, and the
    model leaves the dictionary as it is otherwise. *)
Definition od_move_to_end (key : string) (d : odict) : odict :=
  match od_get key d with
  | Some ts => od_remove key d ++ [(key, ts)]
  | None => d
  end.

(** [d.popitem(last=False)], the dictionary that is left. *)
Definition od_popfirst (d : odict) : odict := tl d.

Record DedupCache : Type := mkCache {
  ttl_sec : Z;
  max_keys : Z;
  seen : odict
}.

(** [DedupCache.__init__] *)
Definition new (ttl max : Z) : result DedupCache :=
  if ttl <=? 0 then inl (ValueError "ttl_sec must be > 0")
  else if max <=? 0 then inl (ValueError "max_keys must be > 0")
  else inr (mkCache ttl max []).

(** [_enforce_max]: [while len(self._seen) > self._max_keys: popitem(last=False)].
    On an empty dictionary with a negative bound Python's [popitem]
    raises; [new] excludes that bound. *)
Fixpoint enforce_max_list (max : Z) (d : odict) : odict :=
  match d with
  | [] => []
  | _ :: tl =>
      if Z.of_nat (length d) >? max then enforce_max_list max tl else d
  end.

(** [_prune]: pop the head while its stamp is not after the cutoff
    ([if ts > cutoff: break]). *)
Fixpoint prune_list (cutoff : Q) (d : odict) : odict :=
  match d with
  | [] => []
  | (k, ts) :: tl =>
      if Qle_bool ts cutoff then prune_list cutoff tl else d
  end.

Definition cutoff_of (c : DedupCache) (now : Q) : Q :=
  (now - inject_Z (ttl_sec c))%Q.

Definition _prune (c : DedupCache) (now : Q) : DedupCache :=
  mkCache (ttl_sec c) (max_keys c) (prune_list (cutoff_of c now) (seen c)).

Definition _enforce_max (c : DedupCache) : DedupCache :=
  mkCache (ttl_sec c) (max_keys c) (enforce_max_list (max_keys c) (seen c)).

(** [seen_recently], with the clock reading [now] of its first line. *)
Definition seen_recently (c : DedupCache) (key : string) (now : Q)
  : bool * DedupCache :=
  let c1 := _prune c now in
  match od_get key (seen c1) with
  | None =>
      let c2 := mkCache (ttl_sec c1) (max_keys c1) (od_set key now (seen c1)) in
      (false, _enforce_max c2)
  | Some ts =>
      let c2 := mkCache (ttl_sec c1) (max_keys c1) (od_move_to_end key (seen c1)) in
      (Qle_bool (now - ts)%Q (inject_Z (ttl_sec c1)), c2)
  end.

(** The entries that the [_enforce_max] of a call pops (none on a hit). *)
Definition evicted_by_max (c : DedupCache) (key : string) (now : Q) : list string :=
  let c1 := _prune c now in
  match od_get key (seen c1) with
  | None =>
      let d := od_set key now (seen c1) in
      keys (firstn ((length d - length (enforce_max_list (max_keys c1) d))%nat) d)
  | Some _ => []
  end.

(** A sequence of calls, each with its clock reading. *)
Definition call : Type := (string * Q)%type.

Fixpoint run (c : DedupCache) (calls : list call) : list bool * DedupCache :=
  match calls with
  | [] => ([], c)
  | (key, now) :: rest =>
      let '(b, c1) := seen_recently c key now in
      let '(bs, c2) := run c1 rest in
      (b :: bs, c2)
  end.

(** The keys that the capacity bound evicts during a sequence of calls. *)
Fixpoint evictions (c : DedupCache) (calls : list call) : list string :=
  match calls with
  | [] => []
  | (key, now) :: rest =>
      evicted_by_max c key now ++ evictions (snd (seen_recently c key now)) rest
  end.

(** [len(self._seen)] *)
Definition size (c : DedupCache) : Z := Z.of_nat (length (seen c)).

(** [k] can be resident only among entries stamped at or before [t]: the
    dictionary splits into a front whose stamps are all at or before [t] and
    a rest that does not hold [k]. *)
Definition behind_stamp (k : string) (t : Q) (d : odict) : Prop :=
  exists front rest,
    d = front ++ rest /\
    Forall (fun e => (snd e <= t)%Q) front /\
    ~ In k (keys rest).

End Dedup.

(** ** Python values that come out of [json.loads] *)

Module Json.

(** A [float] is carried by the 64 bits of its IEEE-754 double; the
    program only ever prints it. *)
Inductive json : Type :=
| JNull
| JBool (b : bool)
| JInt (n : Z)
| JFloat (bits : Z)
| JStr (s : string)
| JArr (xs : list json)
| JObj (items : list (string * json)).

(** [dict[str, Any]]: the items in insertion order; a dictionary never
    holds a key twice ([wf_dict]). *)
Definition dict : Type := list (string * json).

Definition dict_keys (d : dict) : list string := map fst d.

Definition wf_dict (d : dict) : Prop := NoDup (dict_keys d).

Fixpoint lookup (key : string) (d : dict) : option json :=
  match d with
  | [] => None
  | (k, v) :: tl => if String.eqb k key then Some v else lookup key tl
  end.

(** [d.get(key, default)]; [d.get(key)] is [get key JNull d]. *)
Definition get (key : string) (default : json) (d : dict) : json :=
  match lookup key d with
  | Some v => v
  | None => default
  end.

(** [str(n)] for an [int]. *)
Definition str_int (n : Z) : string := NilZero.string_of_int (Z.to_int n).

(** [sep.join(parts)] *)
Fixpoint join (sep : string) (parts : list string) : string :=
  match parts with
  | [] => ""
  | [p] => p
  | p :: rest => (p ++ sep ++ join sep rest)%string
  end.

(** [sorted] on items whose first components are pairwise different:
    order of the keys, [str] compared code unit by code unit. *)
Fixpoint insert_item {A : Type} (x : string * A) (l : list (string * A))
  : list (string * A) :=
  match l with
  | [] => [x]
  | y :: tl => if String.leb (fst x) (fst y) then x :: l else y :: insert_item x tl
  end.

Fixpoint sort_items {A : Type} (l : list (string * A)) : list (string * A) :=
  match l with
  | [] => []
  | x :: tl => insert_item x (sort_items tl)
  end.

(** The functions of the Python runtime and of its [json] module that the
    program calls and that are not part of this repository. *)
Class Runtime : Type := {
  (** [json.loads(raw)]; [None] when it raises *)
  json_loads : string -> option json;
  (** the builtin [hash] on a [str] *)
  hash : string -> Z;
  (** [repr(x)] of a [float] *)
  float_repr : Z -> string;
  (** how [json.dumps] prints a [float] *)
  float_json : Z -> string;
  (** [repr(s)] of a [str] *)
  str_repr : string -> string;
  (** how [json.dumps] prints a [str], quotes included *)
  encode_basestring_ascii : string -> string
}.

Section WithRuntime.
Context {rt : Runtime}.

(** [repr(v)] *)
Fixpoint py_repr (v : json) : string :=
  match v with
  | JNull => "None"
  | JBool true => "True"
  | JBool false => "False"
  | JInt n => str_int n
  | JFloat bits => float_repr bits
  | JStr s => str_repr s
  | JArr xs => ("[" ++ join ", " (map py_repr xs) ++ "]")%string
  | JObj items =>
      ("{" ++ join ", "
         (map (fun kv => let '(k, x) := kv in
                         (str_repr k ++ ": " ++ py_repr x)%string) items)
       ++ "}")%string
  end.

(** [str(v)], also what an f-string substitutes. *)
Definition py_str (v : json) : string :=
  match v with
  | JStr s => s
  | _ => py_repr v
  end.

Definition dumps_item (kv : string * string) : string :=
  (encode_basestring_ascii (fst kv) ++ ":" ++ snd kv)%string.

(** [json.dumps(v, sort_keys=True, separators=(',', ':'))].  The
    members of an object are printed first and then put in the order
    of their keys, which gives the text that printing the sorted
    members gives. *)
Fixpoint dumps (v : json) : string :=
  match v with
  | JNull => "null"
  | JBool true => "true"
  | JBool false => "false"
  | JInt n => str_int n
  | JFloat bits => float_json bits
  | JStr s => encode_basestring_ascii s
  | JArr xs => ("[" ++ join "," (map dumps xs) ++ "]")%string
  | JObj items =>
      ("{" ++ join ","
         (map dumps_item
            (sort_items (map (fun kv => let '(k, x) := kv in (k, dumps x)) items)))
       ++ "}")%string
  end.

End WithRuntime.

End Json.

(** ** main.py: keys and summaries *)

Module Keys.
Import Json.

Section WithRuntime.
Context {rt : Runtime}.

Definition _dedup_key_for_event (event : dict) : string :=
  let ch := py_str (get "channel" (JStr "") event) in
  if String.eqb ch "executionEvents" then
    ("gmocoin:" ++ ch ++ ":" ++ py_str (get "orderId" JNull event) ++ ":"
       ++ py_str (get "executionId" JNull event))%string
  else if String.eqb ch "orderEvents" then
    ("gmocoin:" ++ ch ++ ":" ++ py_str (get "orderId" JNull event) ++ ":"
       ++ py_str (get "orderStatus" JNull event) ++ ":"
       ++ py_str (get "msgType" JNull event) ++ ":"
       ++ py_str (get "orderTimestamp" JNull event))%string
  else
    ("gmocoin:" ++ ch ++ ":" ++ str_int (hash (dumps (JObj event))))%string.

(** [ch == "executionEvents"] for a value [ch]. *)
Definition is_str (v : json) (s : string) : bool :=
  match v with
  | JStr x => String.eqb x s
  | _ => false
  end.

Definition _summary_for_event (event : dict) : string :=
  let ch := get "channel" JNull event in
  let symbol := get "symbol" (JStr "?") event in
  let side := get "side" (JStr "?") event in
  if is_str ch "executionEvents" then
    ("GMO Coin execution " ++ py_str symbol ++ " " ++ py_str side ++ " "
       ++ "orderId=" ++ py_str (get "orderId" JNull event)
       ++ " executionId=" ++ py_str (get "executionId" JNull event) ++ " "
       ++ "price=" ++ py_str (get "executionPrice" JNull event)
       ++ " size=" ++ py_str (get "executionSize" JNull event))%string
  else if is_str ch "orderEvents" then
    ("GMO Coin order " ++ py_str symbol ++ " " ++ py_str side ++ " "
       ++ "orderId=" ++ py_str (get "orderId" JNull event)
       ++ " status=" ++ py_str (get "orderStatus" JNull event) ++ " "
       ++ "price=" ++ py_str (get "orderPrice" JNull event)
       ++ " size=" ++ py_str (get "orderSize" JNull event))%string
  else
    ("GMO Coin " ++ py_str ch ++ " event")%string.

End WithRuntime.

End Keys.

(** ** pagerduty.py *)

Module PagerDuty.
Import Json.

Record PagerDutyClient : Type := mkClient {
  routing_key : string;
  events_api_url : string;
  source : string;
  severity : string;
  dry_run : bool;
  timeout_sec : Z
}.

(** One [self._client.post(url, json=body)]. *)
Record request : Type := mkRequest {
  req_url : string;
  req_body : dict
}.

(** What the call comes back with: a response, or an exception of the
    HTTP library. *)
Inductive reply : Type :=
| Response (status_code : Z) (text : string)
| Failed (e : exn).

(** The paging backend as the client sees it. *)
Definition backend : Type := request -> reply.

(** The outbound calls of an operation, and how it ends. *)
Definition outcome : Type := (list request * result unit)%type.

(** [if name: payload[key] = name] *)
Definition add_if_truthy (key : string) (v : option string) (payload : dict) : dict :=
  match v with
  | Some s => if String.eqb s "" then payload else payload ++ [(key, JStr s)]
  | None => payload
  end.

Definition trigger (self : PagerDutyClient) (be : backend)
    (dedup_key summary : string) (custom_details : dict)
    (component group class_ : option string) : outcome :=
  if dry_run self then ([], inr tt)
  else
    let payload :=
      [ ("summary", JStr summary);
        ("source", JStr (source self));
        ("severity", JStr (severity self));
        ("custom_details", JObj custom_details) ] in
    let payload := add_if_truthy "component" component payload in
    let payload := add_if_truthy "group" group payload in
    let payload := add_if_truthy "class" class_ payload in
    let body :=
      [ ("routing_key", JStr (routing_key self));
        ("event_action", JStr "trigger");
        ("dedup_key", JStr dedup_key);
        ("payload", JObj payload) ] in
    let req := mkRequest (events_api_url self) body in
    match be req with
    | Failed e => ([req], inl e)
    | Response status text =>
        if negb (status =? 202) then
          ([req], inl (RuntimeError
             ("PagerDuty error: " ++ str_int status ++ " " ++ text
                ++ " (dedup_key=" ++ dedup_key ++ ")")%string))
        else ([req], inr tt)
    end.

Definition resolve (self : PagerDutyClient) (be : backend) (dedup_key : string)
  : outcome :=
  if dry_run self then ([], inr tt)
  else
    let body :=
      [ ("routing_key", JStr (routing_key self));
        ("event_action", JStr "resolve");
        ("dedup_key", JStr dedup_key) ] in
    let req := mkRequest (events_api_url self) body in
    match be req with
    | Failed e => ([req], inl e)
    | Response status text =>
        if negb (status =? 202) then
          ([req], inl (RuntimeError
             ("PagerDuty resolve error: " ++ str_int status ++ " " ++ text
                ++ " (dedup_key=" ++ dedup_key ++ ")")%string))
        else ([req], inr tt)
    end.

End PagerDuty.

(** ** main.py: [_recv_loop] *)

Module Recv.
Import Json Keys.

Inductive level : Type := WARNING | INFO | ERROR.

(** What the loop does to the outside while it handles one message. *)
Inductive action : Type :=
| Log (lv : level) (msg : string)
| TriggerCall (dedup_key summary : string) (custom_details : dict)
| Post (req : PagerDuty.request).

(** One text frame of [async for raw in ws], with what the loop would
    observe while it handles it: the stop flag, the clock and the paging
    backend. *)
Record frame : Type := mkFrame {
  stop_is_set : bool;
  raw : string;
  clock : Q;
  pd_backend : PagerDuty.backend
}.

(** [ch not in channels] hashes [ch]: a list or a dict is unhashable. *)
Definition in_channels (ch : json) (channels : list string) : result bool :=
  match ch with
  | JStr s => inr (existsb (String.eqb s) channels)
  | JArr _ | JObj _ => inl (TypeError "unhashable type")
  | _ => inr false
  end.

Inductive step : Type :=
| Return
| Continue (dedup : Dedup.DedupCache) (acts : list action)
| Raise (e : exn).

Section WithRuntime.
Context {rt : Runtime}.

(** The body of the loop for one frame. *)
Definition recv_step (pd : PagerDuty.PagerDutyClient) (channels : list string)
    (dedup : Dedup.DedupCache) (f : frame) : step :=
  if stop_is_set f then Return
  else
    match json_loads (raw f) with
    | None =>
        Continue dedup
          [Log WARNING ("non-json ws message: " ++ str_repr (raw f))%string]
    | Some (JObj event) =>
        match in_channels (get "channel" JNull event) channels with
        | inl e => Raise e
        | inr false => Continue dedup []
        | inr true =>
            let key := _dedup_key_for_event event in
            let '(hit, dedup1) := Dedup.seen_recently dedup key (clock f) in
            if hit then Continue dedup1 []
            else
              let summary := _summary_for_event event in
              let '(posts, r) :=
                PagerDuty.trigger pd (pd_backend f) key summary event
                  None None None in
              Continue dedup1
                (TriggerCall key summary event :: map Post posts
                 ++ [match r with
                     | inr _ => Log INFO ("pagerduty triggered: " ++ summary)%string
                     | inl _ =>
                         Log ERROR
                           ("pagerduty trigger failed (continuing): " ++ summary)%string
                     end])
        end
    | Some v =>
        Continue dedup
          [Log WARNING ("unexpected ws message type: " ++ py_repr v)%string]
    end.

(** How [_recv_loop] ends. *)
Inductive loop_end : Type :=
| EndOfStream
| StopSeen
| Raised (e : exn).

(** [_recv_loop]: the frames of the stream, then how the iterator ends
    ([None]: closed normally).  The result lists the actions frame by
    frame, for the frames that the loop took from the stream. *)
Fixpoint _recv_loop (pd : PagerDuty.PagerDutyClient) (channels : list string)
    (dedup : Dedup.DedupCache) (frames : list frame) (closing : option exn)
  : loop_end * Dedup.DedupCache * list (list action) :=
  match frames with
  | [] =>
      (match closing with None => EndOfStream | Some e => Raised e end, dedup, [])
  | f :: rest =>
      match recv_step pd channels dedup f with
      | Return => (StopSeen, dedup, [[]])
      | Raise e => (Raised e, dedup, [[]])
      | Continue dedup1 acts =>
          let '(e, dedup2, log) := _recv_loop pd channels dedup1 rest closing in
          (e, dedup2, acts :: log)
      end
  end.


(** The call of [dedup.seen_recently] that handling a frame makes once the
    stop flag is found clear: its key and its clock reading. *)
Definition dedup_call (channels : list string) (f : frame) : option Dedup.call :=
  match json_loads (raw f) with
  | Some (JObj event) =>
      match in_channels (get "channel" JNull event) channels with
      | inr true => Some (_dedup_key_for_event event, clock f)
      | _ => None
      end
  | _ => None
  end.

(** A frame that the loop handles and goes on from: the stop flag is
    clear and the channel test does not raise. *)
Definition passes (channels : list string) (f : frame) : bool :=
  negb (stop_is_set f) &&
  match json_loads (raw f) with
  | Some (JObj event) => is_ok (in_channels (get "channel" JNull event) channels)
  | _ => true
  end.

Definition dedup_calls (channels : list string) (frames : list frame)
  : list Dedup.call :=
  flat_map (fun f => match dedup_call channels f with
                     | Some cl => [cl]
                     | None => []
                     end) frames.

End WithRuntime.

(** The keys of the [trigger] calls among some actions. *)
Definition trigger_keys (acts : list action) : list string :=
  flat_map (fun a => match a with TriggerCall k _ _ => [k] | _ => [] end) acts.

Definition posts (acts : list action) : list PagerDuty.request :=
  flat_map (fun a => match a with Post r => [r] | _ => [] end) acts.

End Recv.

(** ** gmo.py: the token operations *)

Module Gmo.
Import Json.

(** [_request_signed(method, path, body)], which signs and sends the
    request, is the exchange as the client sees it. *)
Definition exchange : Type := string -> string -> dict -> result json.

Definition create_ws_token (rs : exchange) : result string :=
  match rs "POST" "/v1/ws-auth" [] with
  | inl e => inl e
  | inr (JObj resp) =>
      match get "data" JNull resp with
      | JStr data =>
          if String.eqb data "" then inl (RuntimeError "Unexpected ws-auth response")
          else inr data
      | _ => inl (RuntimeError "Unexpected ws-auth response")
      end
  | inr _ => inl (AttributeError "object has no attribute 'get'")
  end.

Definition extend_ws_token (rs : exchange) (token : string) : result unit :=
  match rs "PUT" "/v1/ws-auth" [("token", JStr token)] with
  | inl e => inl e
  | inr _ => inr tt
  end.

Definition delete_ws_token (rs : exchange) (token : string) : result unit :=
  match rs "DELETE" "/v1/ws-auth" [("token", JStr token)] with
  | inl e => inl e
  | inr _ => inr tt
  end.

End Gmo.

(** ** main.py: [_run_once] and [_runner] *)

Module Supervisor.
Import Json.

(** The fields of [Config] that the supervisor reads. *)
Record Config : Type := mkConfig {
  gmocoin_private_ws_base : string;
  alert_channels : list string;
  reconnect_backoff_base_sec : Z;
  reconnect_backoff_max_sec : Z;
  dedup_ttl_sec : Z;
  dedup_max_keys : Z;
  process_monitor_enabled : bool
}.

(** The calls that leave the process during one cycle. *)
Inductive io : Type :=
| CreateWsToken
| WsConnect (url : string)
| WsSend (msg : dict)
| RunTasks
| WsClose
| DeleteWsToken (token : string)
| PdAclose
| GmoAclose.

(** The outside during one cycle: the exchange, the transport, the
    sibling tasks seen through the [t.result()] of the completed ones, and
    the two [aclose]. *)
Record world : Type := mkWorld {
  request_signed : Gmo.exchange;
  connect_r : result unit;
  send_r : dict -> result unit;
  tasks_r : result unit;
  pd_aclose_r : result unit;
  gmo_aclose_r : result unit
}.

(** A computation that leaves a trace of calls and may raise. *)
Definition M (A : Type) : Type := (list io * result A)%type.

Definition ret {A : Type} (a : A) : M A := ([], inr a).

Definition bind {A B : Type} (m : M A) (f : A -> M B) : M B :=
  match m with
  | (t, inl e) => (t, inl e)
  | (t, inr a) => let '(t', r) := f a in (t ++ t', r)
  end.

Definition perform {A : Type} (ev : io) (r : result A) : M A := ([ev], r).

Notation "x <- m ;; k" := (bind m (fun x => k))
  (at level 61, m at next level, right associativity).
Notation "m ;;; k" := (bind m (fun _ => k))
  (at level 61, right associativity).

(** [try: m except Exception: pass] *)
Definition swallow (m : M unit) : M unit := (fst m, inr tt).

(** [try: body finally: fin]: an exception of [fin] replaces the outcome
    of [body]. *)
Definition try_finally {A : Type} (body : M A) (fin : M unit) : M A :=
  let '(t, r) := body in
  let '(t', rf) := fin in
  (t ++ t', match rf with inl e => inl e | inr _ => r end).

(** [for ch in cfg.alert_channels: await ws.send(json.dumps({...}))] *)
Fixpoint subscribe (w : world) (channels : list string) : M unit :=
  match channels with
  | [] => ret tt
  | ch :: rest =>
      let msg := [("command", JStr "subscribe"); ("channel", JStr ch)] in
      perform (WsSend msg) (send_r w msg) ;;; subscribe w rest
  end.

(** [async with websockets.connect(ws_url, ping_interval=None) as ws: ...]:
    the connection is closed when the block is left, however it is left. *)
Definition with_connection (cfg : Config) (w : world) (url : string) : M unit :=
  match connect_r w with
  | inl e => perform (WsConnect url) (inl e)
  | inr _ =>
      try_finally
        (perform (WsConnect url) (inr tt) ;;;
         subscribe w (alert_channels cfg) ;;;
         perform RunTasks (tasks_r w))
        (perform WsClose (inr tt))
  end.

(** The [try] block of [_run_once]; the first component is the variable
    [token] when the block is left. *)
Definition run_body (cfg : Config) (w : world) : option string * M unit :=
  match Gmo.create_ws_token (request_signed w) with
  | inl e => (None, perform CreateWsToken (inl e))
  | inr token =>
      (Some token,
       perform CreateWsToken (inr tt) ;;;
       with_connection cfg w (gmocoin_private_ws_base cfg ++ token)%string)
  end.

(** The [finally] block of [_run_once]. *)
Definition run_finally (w : world) (token : option string) : M unit :=
  (match token with
   | Some tk =>
       if String.eqb tk "" then ret tt
       else swallow (perform (DeleteWsToken tk) (Gmo.delete_ws_token (request_signed w) tk))
   | None => ret tt
   end) ;;;
  perform PdAclose (pd_aclose_r w) ;;;
  perform GmoAclose (gmo_aclose_r w).

(** [_run_once].  Before its [try] it builds the clients, the cache and,
    when enabled, the process monitor, from [cfg.process_monitor_severity],
    a field that [Config] does not have. *)
Definition _run_once (cfg : Config) (w : world) : M unit :=
  match Dedup.new (dedup_ttl_sec cfg) (dedup_max_keys cfg) with
  | inl e => ([], inl e)
  | inr _ =>
      if process_monitor_enabled cfg then
        ([], inl (AttributeError "'Config' object has no attribute 'process_monitor_severity'"))
      else
        let '(token, body) := run_body cfg w in
        try_finally body (run_finally w token)
  end.

(** One turn of the [while not stop.is_set()] of [_runner]: the flag at
    the head of the loop and the outside during the cycle. *)
Record cycle : Type := mkCycle {
  stop_at_head : bool;
  outside : world
}.

(** The loop of [_runner] from a value of [backoff]: the timeouts it
    sleeps with, in order, and [backoff] when the cycles are used up or
    the flag is seen. *)
Fixpoint runner_loop (cfg : Config) (backoff : Z) (cycles : list cycle)
  : list Z * Z :=
  match cycles with
  | [] => ([], backoff)
  | c :: rest =>
      if stop_at_head c then ([], backoff)
      else
        match snd (_run_once cfg (outside c)) with
        | inr _ => runner_loop cfg (reconnect_backoff_base_sec cfg) rest
        | inl _ =>
            let '(ds, b) :=
              runner_loop cfg
                (Z.min (backoff * 2) (reconnect_backoff_max_sec cfg)) rest in
            (backoff :: ds, b)
        end
  end.

Definition _runner (cfg : Config) (cycles : list cycle) : list Z * Z :=
  runner_loop cfg (reconnect_backoff_base_sec cfg) cycles.

(** A cycle that the loop runs and that ends with an exception. *)
Definition fails (cfg : Config) (c : cycle) : bool :=
  negb (stop_at_head c) && negb (is_ok (snd (_run_once cfg (outside c)))).

(** A cycle that the loop runs and that returns normally. *)
Definition succeeds (cfg : Config) (c : cycle) : bool :=
  negb (stop_at_head c) && is_ok (snd (_run_once cfg (outside c))).

Definition is_revoke (ev : io) : bool :=
  match ev with DeleteWsToken _ => true | _ => false end.

Definition is_connect (ev : io) : bool :=
  match ev with WsConnect _ => true | _ => false end.

(** The same outside, except for what the exchange answers to the revoke
    request. *)
Definition with_revoke_answer (w : world) (r : result json) : world :=
  mkWorld
    (fun method path body =>
       if String.eqb method "DELETE" then r else request_signed w method path body)
    (connect_r w) (send_r w) (tasks_r w) (pd_aclose_r w) (gmo_aclose_r w).

End Supervisor.

(** ** Sample configurations and outsides, for evaluation *)

Module Samples.
Import Json Supervisor.

Definition cfg : Config :=
  mkConfig "wss://api.coin.z.com/ws/private/v1/" ["executionEvents"] 1 30 300 5000 false.

(** An exchange that hands out the token [tok] and accepts every request. *)
Definition exchange_ok : Gmo.exchange :=
  fun method _ _ =>
    if String.eqb method "POST" then inr (JObj [("status", JInt 0); ("data", JStr "tok")])
    else inr (JObj [("status", JInt 0)]).

(** The stream opens, and the receive task ends with the stream. *)
Definition world_closed : world :=
  mkWorld exchange_ok (inr tt) (fun _ => inr tt)
    (inl (TransportError "connection closed")) (inr tt) (inr tt).

(** The transport refuses the connection. *)
Definition world_refused : world :=
  mkWorld exchange_ok (inl (TransportError "connection refused")) (fun _ => inr tt)
    (inr tt) (inr tt) (inr tt).

(** The completed task returned without an exception. *)
Definition world_quiet : world :=
  mkWorld exchange_ok (inr tt) (fun _ => inr tt) (inr tt) (inr tt) (inr tt).

Definition dquote : string := String (ascii_of_nat 34) EmptyString.

Definition quoted (s : string) : string := (dquote ++ s ++ dquote)%string.

(** The execution event of the scenario, and the text of its frame. *)
Definition execution_event : dict :=
  [ ("channel", JStr "executionEvents"); ("orderId", JStr "O1");
    ("executionId", JStr "E1"); ("symbol", JStr "BTC"); ("side", JStr "BUY");
    ("executionPrice", JStr "100"); ("executionSize", JStr "1") ].

Definition execution_text : string :=
  ("{" ++ Json.join ","
     (map (fun kv : string * string => (quoted (fst kv) ++ ":" ++ quoted (snd kv))%string)
        [ ("channel", "executionEvents"); ("orderId", "O1"); ("executionId", "E1");
          ("symbol", "BTC"); ("side", "BUY"); ("executionPrice", "100");
          ("executionSize", "1") ])
   ++ "}")%string.

(** A second execution, of another order. *)
Definition execution_event2 : dict :=
  [ ("channel", JStr "executionEvents"); ("orderId", JStr "O2");
    ("executionId", JStr "E2") ].

Definition execution_text2 : string :=
  ("{" ++ Json.join ","
     (map (fun kv : string * string => (quoted (fst kv) ++ ":" ++ quoted (snd kv))%string)
        [ ("channel", "executionEvents"); ("orderId", "O2"); ("executionId", "E2") ])
   ++ "}")%string.

(** An event of another channel, for the fallback branch of the key. *)
Definition position_event : dict :=
  [ ("channel", JStr "positionEvents"); ("positionId", JInt 7) ].

(** A stand-in for the Python runtime that knows the texts above: enough
    to evaluate the program on them. *)
Definition runtime : Runtime :=
  {| json_loads := fun s =>
       if String.eqb s execution_text then Some (JObj execution_event)
       else if String.eqb s execution_text2 then Some (JObj execution_event2)
       else if String.eqb s "[1]" then Some (JArr [JInt 1])
       else None;
     hash := fun s => Z.of_nat (String.length s);
     float_repr := fun _ => "0.0";
     float_json := fun _ => "0.0";
     str_repr := fun s => ("'" ++ s ++ "'")%string;
     encode_basestring_ascii := quoted |}.

Definition pd_live : PagerDuty.PagerDutyClient :=
  PagerDuty.mkClient "R" "https://events.pagerduty.com/v2/enqueue"
    "gmocoin-exec-alert" "critical" false 10.

Definition backend_ok : PagerDuty.backend := fun _ => PagerDuty.Response 202 "ok".

(** The frame of the first execution, handled at clock reading [t]. *)
Definition frame1 (t : Q) : Recv.frame := Recv.mkFrame false execution_text t backend_ok.

(** The frame of the second execution. *)
Definition frame2 (t : Q) : Recv.frame := Recv.mkFrame false execution_text2 t backend_ok.

End Samples.

(** ** main.py: [_extend_token_loop] *)

Module Renewal.

Inductive action : Type :=
| Wait (timeout : Z)
| ExtendCall (token : string)
| Info (msg : string)
| Exception (msg : string).

(** One turn of the loop: the stop flag at its head, whether the flag is
    set before the wait times out, and the exchange as it answers then. *)
Record tick : Type := mkTick {
  stop_at_head : bool;
  stop_during_wait : bool;
  exchange_now : Gmo.exchange
}.

(** How far the loop got: it returned, or it is still running when the
    ticks are used up. *)
Inductive ending : Type :=
| Returned
| Running.

Fixpoint _extend_token_loop (token : string) (every_sec : Z) (ticks : list tick)
  : list action * ending :=
  match ticks with
  | [] => ([], Running)
  | t :: rest =>
      if stop_at_head t then ([], Returned)
      else if stop_during_wait t then ([Wait every_sec], Returned)
      else
        let '(acts, e) := _extend_token_loop token every_sec rest in
        (Wait every_sec :: ExtendCall token
           :: match Gmo.extend_ws_token (exchange_now t) token with
              | inr _ => Info "extended ws token"
              | inl _ => Exception "failed to extend ws token (continuing)"
              end
           :: acts,
         e)
  end.

Definition extend_calls (acts : list action) : list string :=
  flat_map (fun a => match a with ExtendCall tk => [tk] | _ => [] end) acts.

(** The turns that reach the renewal: before the first turn that sees the
    stop flag. *)
Fixpoint turns_before_stop (ticks : list tick) : list tick :=
  match ticks with
  | [] => []
  | t :: rest =>
      if stop_at_head t || stop_during_wait t then [] else t :: turns_before_stop rest
  end.

End Renewal.

(** ** process_monitor.py: [monitor_loop] and its two notifications *)

Module Monitor.
Import Json.

Record ProcessInfo : Type := mkProcessInfo {
  pid : Z;
  command : string;
  start_time : string
}.

(** The fields that [__init__] sets from its arguments; the pattern is
    carried by its text. *)
Record ProcessMonitor : Type := mkMonitor {
  pattern : string;
  check_interval_sec : Z;
  idle_threshold_sec : Z
}.

(** [self._dedup_key] *)
Definition _dedup_key : string := "ml-job-monitoring".

(** The two fields that the loop updates: [_last_seen_time] (seconds on
    the clock of [datetime.now()]) and [_has_notified]. *)
Record state : Type := mkState {
  last_seen_time : option Q;
  has_notified : bool
}.

(** The state that [__init__] leaves. *)
Definition initial : state := mkState None false.

Inductive action : Type :=
| Info (msg : string)
| Debug (msg : string)
| Exception (msg : string)
| TriggerCall (dedup_key summary : string) (custom_details : dict)
| ResolveCall (dedup_key : string)
| Post (req : PagerDuty.request).

(** One turn of the loop: the stop flag at its head and during the wait,
    what [_find_matching_processes] returns, the two readings of
    [datetime.now()] (the second as [isoformat] text), and the paging
    backend. *)
Record tick : Type := mkTick {
  stop_at_head : bool;
  stop_during_wait : bool;
  processes : list ProcessInfo;
  now : Q;
  completion_time : string;
  pd_backend : PagerDuty.backend
}.

Inductive ending : Type :=
| Returned
| Running
| Raised (e : exn).

(** [str(e)] for the exceptions of the model: the message. *)
Definition exn_msg (e : exn) : string :=
  match e with
  | ValueError m | RuntimeError m | TypeError m | KeyError m
  | AttributeError m | TransportError m | OverflowError m => m
  end.

Section WithRuntime.
Context {rt : Runtime}.

Definition completion_summary (self : ProcessMonitor) : string :=
  ("ML Job Completed: No '" ++ pattern self ++ "' processes detected for "
     ++ str_int (idle_threshold_sec self) ++ " seconds")%string.

(** [_send_completion_notification]: the actions, and the exception that
    it raises again when [pd.trigger] raised. *)
Definition _send_completion_notification (self : ProcessMonitor)
    (pd : PagerDuty.PagerDutyClient) (t : tick) : list action * result unit :=
  let summary := completion_summary self in
  let custom_details :=
    [ ("event_type", JStr "ml_job_completion");
      ("pattern", JStr (pattern self));
      ("idle_threshold_sec", JInt (idle_threshold_sec self));
      ("completion_time", JStr (completion_time t)) ] in
  let '(posts, r) :=
    PagerDuty.trigger pd (pd_backend t) _dedup_key summary custom_details
      None None None in
  (TriggerCall _dedup_key summary custom_details :: map Post posts
   ++ [match r with
       | inr _ => Info ("PagerDuty notification sent: " ++ summary)%string
       | inl e => Exception ("Failed to send PagerDuty notification: " ++ exn_msg e)%string
       end],
   r).

(** [_resolve_incident]: an exception of [pd.resolve] is logged and not
    raised again. *)
Definition _resolve_incident (pd : PagerDuty.PagerDutyClient) (t : tick)
  : list action :=
  let '(posts, r) := PagerDuty.resolve pd (pd_backend t) _dedup_key in
  ResolveCall _dedup_key :: map Post posts
  ++ [match r with
      | inr _ => Info "PagerDuty incident resolved: ML job processes have restarted"
      | inl e => Exception ("Failed to resolve PagerDuty incident: " ++ exn_msg e)%string
      end].

Definition found_message (ps : list ProcessInfo) : string :=
  ("Found " ++ str_int (Z.of_nat (length ps)) ++ " matching process(es): "
     ++ py_repr (JArr (map (fun p => JStr (command p)) ps)))%string.

(** The body of the loop after the wait timed out: the new state, the
    actions, and the exception that leaves the loop, if any. *)
Definition monitor_step (self : ProcessMonitor) (pd : PagerDuty.PagerDutyClient)
    (st : state) (t : tick) : state * list action * result unit :=
  match processes t with
  | _ :: _ =>
      let '(st1, acts) :=
        match last_seen_time st with
        | None =>
            if has_notified st then
              (mkState (last_seen_time st) false,
               Info "Detected matching process(es). Monitoring for completion..."
                 :: _resolve_incident pd t)
            else
              (st, [Info "Detected matching process(es). Monitoring for completion..."])
        | Some _ => (st, [])
        end in
      (mkState (Some (now t)) (has_notified st1),
       acts ++ [Debug (found_message (processes t))],
       inr tt)
  | [] =>
      match last_seen_time st with
      | Some seen =>
          if Qle_bool (inject_Z (idle_threshold_sec self)) (now t - seen)%Q
             && negb (has_notified st)
          then
            let '(acts, r) := _send_completion_notification self pd t in
            match r with
            | inl e => (st, acts, inl e)
            | inr _ => (mkState None true, acts, inr tt)
            end
          else (st, [], inr tt)
      | None => (st, [], inr tt)
      end
  end.

(** The [while not stop.is_set()] of [monitor_loop], from a state. *)
Fixpoint monitor_turns (self : ProcessMonitor) (pd : PagerDuty.PagerDutyClient)
    (st : state) (ticks : list tick) : state * list action * ending :=
  match ticks with
  | [] => (st, [], Running)
  | t :: rest =>
      if stop_at_head t then (st, [], Returned)
      else if stop_during_wait t then (st, [], Returned)
      else
        match monitor_step self pd st t with
        | (st1, acts, inl e) => (st1, acts, Raised e)
        | (st1, acts, inr _) =>
            let '(st2, acts2, e) := monitor_turns self pd st1 rest in
            (st2, acts ++ acts2, e)
        end
  end.

(** [monitor_loop], on a monitor as [__init__] leaves it. *)
Definition monitor_loop (self : ProcessMonitor) (pd : PagerDuty.PagerDutyClient)
    (ticks : list tick) : state * list action * ending :=
  let '(st, acts, e) := monitor_turns self pd initial ticks in
  (st,
   Info ("Starting process monitor (pattern=" ++ pattern self
           ++ ", check_interval=" ++ str_int (check_interval_sec self)
           ++ "s, idle_threshold=" ++ str_int (idle_threshold_sec self) ++ "s)")%string
     :: acts,
   e).

End WithRuntime.

(** The calls to the paging client among some actions: [true] for a
    [trigger], [false] for a [resolve]. *)
Definition pd_calls (acts : list action) : list bool :=
  flat_map (fun a => match a with
                     | TriggerCall _ _ _ => [true]
                     | ResolveCall _ => [false]
                     | _ => []
                     end) acts.

(** The keys of those calls. *)
Definition pd_keys (acts : list action) : list string :=
  flat_map (fun a => match a with
                     | TriggerCall k _ _ => [k]
                     | ResolveCall k => [k]
                     | _ => []
                     end) acts.

(** [true; false; true; ...] from [b], [n] long. *)
Fixpoint alternating (b : bool) (n : nat) : list bool :=
  match n with
  | O => []
  | S n => b :: alternating (negb b) n
  end.

End Monitor.

(** ** Text operations of [str] that the program uses on ASCII separators *)

Module Text.

(** [s.rstrip(c)] for a one-character [c]. *)
Fixpoint rstrip_char (c : ascii) (s : string) : string :=
  match s with
  | EmptyString => EmptyString
  | String a rest =>
      match rstrip_char c rest with
      | EmptyString => if Ascii.eqb a c then EmptyString else String a EmptyString
      | r => String a r
      end
  end.

(** [s.split(c)] for a one-character [c]: always at least one piece. *)
Fixpoint split_char (c : ascii) (s : string) : list string :=
  match s with
  | EmptyString => [EmptyString]
  | String a rest =>
      if Ascii.eqb a c then EmptyString :: split_char c rest
      else
        match split_char c rest with
        | [] => [String a EmptyString]
        | p :: ps => String a p :: ps
        end
  end.

(** The last character, if any. *)
Fixpoint last_char (s : string) : option ascii :=
  match s with
  | EmptyString => None
  | String a EmptyString => Some a
  | String _ rest => last_char rest
  end.

Definition slash : ascii := "/"%char.
Definition comma : ascii := ","%char.
Definition colon : ascii := ":"%char.

(** [c in s] *)
Fixpoint has_char (c : ascii) (s : string) : bool :=
  match s with
  | EmptyString => false
  | String a rest => Ascii.eqb a c || has_char c rest
  end.

End Text.

(** ** gmo.py: [GmoCoinPrivateClient.__init__] and [_request_signed] *)

Module GmoHttp.
Import Json.

Record GmoCoinPrivateClient : Type := mkClient {
  api_key : string;
  api_secret : string;
  base_url : string;
  timeout_sec : Z
}.

(** [__init__]: the base URL loses its trailing slashes. *)
Definition new (api_key api_secret base_url : string) (timeout_sec : Z)
  : GmoCoinPrivateClient :=
  mkClient api_key api_secret (Text.rstrip_char Text.slash base_url) timeout_sec.

(** One [self._client.request(method, url, headers=..., content=...)]. *)
Record request : Type := mkRequest {
  req_method : string;
  req_url : string;
  req_headers : list (string * string);
  req_content : string
}.

(** The response as the client reads it; [resp.text] is the content. *)
Record response : Type := mkResponse {
  status_code : Z;
  content : string
}.

(** The HTTP client: it answers, or raises. *)
Definition transport : Type := request -> result response.

(** What the client takes from [hmac], [hashlib] and [str]. *)
Class Signer : Type := {
  (** [hmac.new(key, msg, hashlib.sha256).hexdigest()] *)
  hmac_sha256_hex : string -> string -> string;
  (** [s.upper()] *)
  str_upper : string -> string
}.

(** [int(x)] for a clock reading in milliseconds: towards zero. *)
Definition timestamp_ms (now : Q) : Z :=
  Z.quot (Qnum (now * 1000)%Q) (Z.pos (Qden (now * 1000)%Q)).

(** [x in (None, 0)] for a value out of [json.loads]: [None], and what
    compares equal to [0]. *)
Definition is_none_or_zero (v : json) : bool :=
  match v with
  | JNull => true
  | JInt n => n =? 0
  | JBool b => negb b
  | JFloat bits => (bits =? 0) || (bits =? 2 ^ 63)
  | _ => false
  end.

Section WithRuntime.
Context {rt : Runtime} {sg : Signer}.

(** [json.dumps(v, separators=(",", ":"))]: members in insertion order. *)
Fixpoint dumps_compact (v : json) : string :=
  match v with
  | JNull => "null"
  | JBool true => "true"
  | JBool false => "false"
  | JInt n => str_int n
  | JFloat bits => float_json bits
  | JStr s => encode_basestring_ascii s
  | JArr xs => ("[" ++ join "," (map dumps_compact xs) ++ "]")%string
  | JObj items =>
      ("{" ++ join ","
         (map (fun kv => let '(k, x) := kv in
                         (encode_basestring_ascii k ++ ":" ++ dumps_compact x)%string)
            items)
       ++ "}")%string
  end.

Definition body_text (body : option dict) : string :=
  match body with
  | None => ""
  | Some d => dumps_compact (JObj d)
  end.

(** The text that is signed. *)
Definition sign_text (now : Q) (method path : string) (body : option dict)
    (include_body_in_sign : bool) : string :=
  (str_int (timestamp_ms now) ++ str_upper method ++ path
     ++ (if include_body_in_sign then body_text body else ""))%string.

(** The request that [_request_signed] sends. *)
Definition signed_request (self : GmoCoinPrivateClient) (now : Q)
    (method path : string) (body : option dict) (include_body_in_sign : bool)
  : request :=
  mkRequest method (base_url self ++ path)%string
    [ ("API-KEY", api_key self);
      ("API-TIMESTAMP", str_int (timestamp_ms now));
      ("API-SIGN",
       hmac_sha256_hex (api_secret self)
         (sign_text now method path body include_body_in_sign));
      ("Content-Type", "application/json") ]
    (body_text body).

(** What [_request_signed] makes of the answer; [JNull] is Python's
    [None], returned for an empty body. *)
Definition read_response (method path : string) (r : result response)
  : result json :=
  match r with
  | inl e => inl e
  | inr resp =>
      if negb (status_code resp / 100 =? 2) then
        inl (RuntimeError
               ("GMO Coin API error: " ++ method ++ " " ++ path ++ " -> "
                  ++ str_int (status_code resp) ++ " " ++ content resp)%string)
      else if String.eqb (content resp) "" then inr JNull
      else
        match json_loads (content resp) with
        | None => inl (RuntimeError ("Non-JSON GMO Coin response: " ++ content resp)%string)
        | Some (JObj d) =>
            if negb (is_none_or_zero (get "status" JNull d)) then
              inl (RuntimeError
                     ("GMO Coin API status error: " ++ method ++ " " ++ path ++ " -> "
                        ++ py_repr (JObj d))%string)
            else inr (JObj d)
        | Some data => inr data
        end
  end.

Definition _request_signed (self : GmoCoinPrivateClient) (tr : transport) (now : Q)
    (method path : string) (body : option dict) (include_body_in_sign : bool)
  : result json :=
  read_response method path
    (tr (signed_request self now method path body include_body_in_sign)).

(** The exchange that the three token operations see: each calls
    [_request_signed] with its body, and only [create_ws_token], the
    [POST], has the body signed. *)
Definition exchange_of (self : GmoCoinPrivateClient) (tr : transport) (now : Q)
  : Gmo.exchange :=
  fun method path body =>
    _request_signed self tr now method path (Some body) (String.eqb method "POST").

End WithRuntime.

End GmoHttp.

(** ** config.py *)

Module Settings.
Import Json.

(** What the loader takes from [str] and [int]. *)
Class StrOps : Type := {
  (** [s.strip()] *)
  str_strip : string -> string;
  (** [s.lower()] *)
  str_lower : string -> string;
  (** [int(s)]; [None] when it raises [ValueError] *)
  py_int : string -> option Z
}.

(** [os.environ] after [load_dotenv(override=False)]. *)
Definition environ : Type := string -> option string.

(** [os.getenv(name, default)] *)
Definition getenv (env : environ) (name default : string) : string :=
  match env name with
  | Some v => v
  | None => default
  end.

(** [os.environ[name] = value] *)
Definition setenv (env : environ) (name value : string) : environ :=
  fun n => if String.eqb n name then Some value else env n.

Definition bindr {A B : Type} (r : result A) (f : A -> result B) : result B :=
  match r with
  | inl e => inl e
  | inr a => f a
  end.

Notation "x <- r ;; k" := (bindr r (fun x => k))
  (at level 61, r at next level, right associativity).

Record Config : Type := mkConfig {
  gmocoin_api_key : string;
  gmocoin_api_secret : string;
  gmocoin_private_api_base : string;
  gmocoin_private_ws_base : string;
  pagerduty_routing_key : string;
  pagerduty_events_api_url : string;
  pagerduty_source : string;
  pagerduty_severity : string;
  pagerduty_dry_run : bool;
  alert_channels : list string;
  http_timeout_sec : Z;
  ws_auth_extend_interval_sec : Z;
  reconnect_backoff_base_sec : Z;
  reconnect_backoff_max_sec : Z;
  dedup_ttl_sec : Z;
  dedup_max_keys : Z;
  log_level : string;
  process_monitor_enabled : bool;
  process_monitor_pattern : string;
  process_monitor_check_interval_sec : Z;
  process_monitor_idle_threshold_sec : Z
}.

Section WithRuntime.
Context {rt : Runtime} {so : StrOps}.

Definition _getenv_required (env : environ) (name : string) : result string :=
  match env name with
  | None => inl (RuntimeError ("Missing required env var: " ++ name)%string)
  | Some val =>
      if String.eqb (str_strip val) "" then
        inl (RuntimeError ("Missing required env var: " ++ name)%string)
      else inr val
  end.

Definition _getenv_int (env : environ) (name : string) (default : Z) : result Z :=
  let raw := str_strip (getenv env name (str_int default)) in
  match py_int raw with
  | Some n => inr n
  | None =>
      inl (RuntimeError ("Invalid int env var " ++ name ++ "=" ++ str_repr raw)%string)
  end.

Definition _getenv_bool (env : environ) (name : string) (default : bool) : result bool :=
  let raw := str_lower (str_strip (getenv env name (if default then "true" else "false"))) in
  if existsb (String.eqb raw) ["1"; "true"; "yes"; "y"; "on"] then inr true
  else if existsb (String.eqb raw) ["0"; "false"; "no"; "n"; "off"] then inr false
  else inl (RuntimeError ("Invalid bool env var " ++ name ++ "=" ++ str_repr raw)%string).

(** [tuple(x.strip() for x in raw.split(",") if x.strip())] *)
Definition parse_channels (raw : string) : list string :=
  map str_strip
    (filter (fun x => negb (String.eqb (str_strip x) "")) (Text.split_char Text.comma raw)).

Definition load_config (env : environ) : result Config :=
  let channels := parse_channels (getenv env "ALERT_CHANNELS" "executionEvents") in
  match channels with
  | [] => inl (RuntimeError "ALERT_CHANNELS is empty")
  | _ :: _ =>
      api_key <- _getenv_required env "GMOCOIN_API_KEY" ;;
      api_secret <- _getenv_required env "GMOCOIN_API_SECRET" ;;
      routing_key <- _getenv_required env "PAGERDUTY_ROUTING_KEY" ;;
      dry_run <- _getenv_bool env "PAGERDUTY_DRY_RUN" false ;;
      http_timeout <- _getenv_int env "HTTP_TIMEOUT_SEC" 10 ;;
      extend_interval <- _getenv_int env "WS_AUTH_EXTEND_INTERVAL_SEC" 3000 ;;
      backoff_base <- _getenv_int env "RECONNECT_BACKOFF_BASE_SEC" 1 ;;
      backoff_max <- _getenv_int env "RECONNECT_BACKOFF_MAX_SEC" 30 ;;
      ttl <- _getenv_int env "DEDUP_TTL_SEC" 300 ;;
      max_keys <- _getenv_int env "DEDUP_MAX_KEYS" 5000 ;;
      monitor_enabled <- _getenv_bool env "PROCESS_MONITOR_ENABLED" false ;;
      check_interval <- _getenv_int env "PROCESS_MONITOR_CHECK_INTERVAL_SEC" 5 ;;
      idle_threshold <- _getenv_int env "PROCESS_MONITOR_IDLE_THRESHOLD_SEC" 60 ;;
      inr (mkConfig
             api_key api_secret
             (Text.rstrip_char Text.slash
                (getenv env "GMOCOIN_PRIVATE_API_BASE" "https://api.coin.z.com/private"))
             (Text.rstrip_char Text.slash
                (getenv env "GMOCOIN_PRIVATE_WS_BASE" "wss://api.coin.z.com/ws/private/v1/")
              ++ "/")%string
             routing_key
             (Text.rstrip_char Text.slash
                (getenv env "PAGERDUTY_EVENTS_API_URL"
                   "https://events.pagerduty.com/v2/enqueue"))
             (getenv env "PAGERDUTY_SOURCE" "gmocoin-exec-alert")
             (getenv env "PAGERDUTY_SEVERITY" "critical")
             dry_run channels http_timeout extend_interval backoff_base backoff_max
             ttl max_keys
             (getenv env "LOG_LEVEL" "INFO")
             monitor_enabled
             (getenv env "PROCESS_MONITOR_PATTERN" "uv run atc")
             check_interval idle_threshold)
  end.

End WithRuntime.

(** The fields that [_run_once] and [_runner] read. *)
Definition for_supervisor (cfg : Config) : Supervisor.Config :=
  Supervisor.mkConfig
    (gmocoin_private_ws_base cfg) (alert_channels cfg)
    (reconnect_backoff_base_sec cfg) (reconnect_backoff_max_sec cfg)
    (dedup_ttl_sec cfg) (dedup_max_keys cfg) (process_monitor_enabled cfg).

End Settings.

(** ** Readings of one cycle, to state what [_run_once] does *)

Module Anatomy.
Import Json Supervisor.

(** The message that subscribes to a channel. *)
Definition subscribe_msg (ch : string) : dict :=
  [("command", JStr "subscribe"); ("channel", JStr ch)].

(** The number of [ws.send] calls: up to and including the first that
    raises. *)
Fixpoint sends_performed (w : world) (channels : list string) : nat :=
  match channels with
  | [] => O
  | ch :: rest =>
      match send_r w (subscribe_msg ch) with
      | inl _ => 1%nat
      | inr _ => S (sends_performed w rest)
      end
  end.

(** The exception of the first [ws.send] that raises. *)
Fixpoint first_send_error (w : world) (channels : list string) : option exn :=
  match channels with
  | [] => None
  | ch :: rest =>
      match send_r w (subscribe_msg ch) with
      | inl e => Some e
      | inr _ => first_send_error w rest
      end
  end.

(** What is raised before the [try], if anything: by the constructor of the
    cache, or by the construction of the process monitor. *)
Definition preflight_error (cfg : Config) : option exn :=
  match Dedup.new (dedup_ttl_sec cfg) (dedup_max_keys cfg) with
  | inl e => Some e
  | inr _ =>
      if process_monitor_enabled cfg then
        Some (AttributeError "'Config' object has no attribute 'process_monitor_severity'")
      else None
  end.

(** How the [try] block ends: with the first exception among token
    creation, connect, the sends and the completed task. *)
Definition body_outcome (cfg : Config) (w : world) : result unit :=
  match Gmo.create_ws_token (request_signed w) with
  | inl e => inl e
  | inr _ =>
      match connect_r w with
      | inl e => inl e
      | inr _ =>
          match first_send_error w (alert_channels cfg) with
          | Some e => inl e
          | None => tasks_r w
          end
      end
  end.

(** How the [finally] block changes that: an exception of an [aclose]
    takes its place. *)
Definition after_closes (w : world) (r : result unit) : result unit :=
  match pd_aclose_r w with
  | inl e => inl e
  | inr _ =>
      match gmo_aclose_r w with
      | inl e => inl e
      | inr _ => r
      end
  end.

(** The calls of the two [aclose]: the second only when the first
    returned. *)
Definition closes (w : world) : list io :=
  PdAclose :: (if is_ok (pd_aclose_r w) then [GmoAclose] else []).

End Anatomy.

(** ** More samples *)

Module Cases.
Import Json.

(** A stand-in for [hmac] and [upper]. *)
Definition signer : GmoHttp.Signer :=
  {| GmoHttp.hmac_sha256_hex := fun _ msg => ("hmac(" ++ msg ++ ")")%string;
     GmoHttp.str_upper := fun s => s |}.

Definition token_text : string := "{token}".

(** [Samples.runtime], which also parses the answer of the exchange. *)
Definition runtime : Runtime :=
  {| json_loads := fun s =>
       if String.eqb s token_text
       then Some (JObj [("status", JInt 0); ("data", JStr "tok")])
       else @json_loads Samples.runtime s;
     hash := @hash Samples.runtime;
     float_repr := @float_repr Samples.runtime;
     float_json := @float_json Samples.runtime;
     str_repr := @str_repr Samples.runtime;
     encode_basestring_ascii := @encode_basestring_ascii Samples.runtime |}.

(** [Samples.runtime] in another interpreter process: the same but for the
    salt of [hash] on [str], which each process draws at its start. *)
Definition runtime_reseeded : Runtime :=
  {| json_loads := @json_loads Samples.runtime;
     hash := fun s => - Z.of_nat (String.length s) - 1;
     float_repr := @float_repr Samples.runtime;
     float_json := @float_json Samples.runtime;
     str_repr := @str_repr Samples.runtime;
     encode_basestring_ascii := @encode_basestring_ascii Samples.runtime |}.

(** An exchange that answers the [POST] with the token and the rest with
    an empty body. *)
Definition transport_ok : GmoHttp.transport :=
  fun req =>
    if String.eqb (GmoHttp.req_method req) "POST"
    then inr (GmoHttp.mkResponse 200 token_text)
    else inr (GmoHttp.mkResponse 204 "").

Definition gmo_client : GmoHttp.GmoCoinPrivateClient :=
  GmoHttp.new "key" "secret" "https://api.coin.z.com/private/" 10.

(** A stand-in for [strip] (spaces only), [lower] (nothing to lower) and
    [int] (decimal digits). *)
Fixpoint lstrip_spaces (s : string) : string :=
  match s with
  | String " " rest => lstrip_spaces rest
  | _ => s
  end.

Definition str_ops : Settings.StrOps :=
  {| Settings.str_strip := fun s => Text.rstrip_char " "%char (lstrip_spaces s);
     Settings.str_lower := fun s => s;
     Settings.py_int := fun s =>
       match NilZero.int_of_string s with
       | Some d => Some (Z.of_int d)
       | None => None
       end |}.

(** An environment with the three required variables and two channels. *)
Definition env : Settings.environ :=
  fun name =>
    if String.eqb name "GMOCOIN_API_KEY" then Some "key"
    else if String.eqb name "GMOCOIN_API_SECRET" then Some "secret"
    else if String.eqb name "PAGERDUTY_ROUTING_KEY" then Some "R"
    else if String.eqb name "ALERT_CHANNELS" then Some "executionEvents, ,orderEvents"
    else if String.eqb name "GMOCOIN_PRIVATE_WS_BASE" then Some "wss://example.test/ws//"
    else None.

(** The same with a time-to-live of zero. *)
Definition env_ttl0 : Settings.environ := Settings.setenv env "DEDUP_TTL_SEC" "0".

(** [Samples.cfg] with a base of the backoff of zero. *)
Definition cfg_base0 : Supervisor.Config :=
  Supervisor.mkConfig "wss://api.coin.z.com/ws/private/v1/" ["executionEvents"]
    0 30 300 5000 false.

(** [Samples.cfg] with the process monitor enabled. *)
Definition cfg_monitor : Supervisor.Config :=
  Supervisor.mkConfig "wss://api.coin.z.com/ws/private/v1/" ["executionEvents"]
    1 30 300 5000 true.

Definition monitor : Monitor.ProcessMonitor := Monitor.mkMonitor "uv run atc" 5 60.

Definition job : Monitor.ProcessInfo := Monitor.mkProcessInfo 4242 "uv run atc train" "10:00".

(** A turn of the monitor with the processes found at a clock reading. *)
Definition turn (ps : list Monitor.ProcessInfo) (t : Q) : Monitor.tick :=
  Monitor.mkTick false false ps t "2026-01-01T00:00:00" Samples.backend_ok.

Definition renewal_turn (stop : bool) (rs : Gmo.exchange) : Renewal.tick :=
  Renewal.mkTick false stop rs.

(** An exchange that refuses everything. *)
Definition exchange_down : Gmo.exchange :=
  fun _ _ _ => inl (RuntimeError "GMO Coin API error").

End Cases.

(** ** The arithmetic of [float] in dedup.py *)

(** [time.time()] returns a [float], and [seen_recently] and [_prune]
    subtract in it.  A finite [float] is a rational number, so a clock
    reading stays a [Q]; what the arithmetic of the interpreter adds is the
    rounding of each difference and the conversion of the [int] operand.
    Comparisons are exact: of two floats, and of a float with an [int]. *)
Module Float.

Class Arith : Type := {
  (** [a - b] of two floats *)
  fsub : Q -> Q -> Q;
  (** the conversion of the [int] operand of [now - self._ttl_sec];
      [None] when it raises [OverflowError] *)
  float_of_int : Z -> option Q
}.

(** Arithmetic without rounding. *)
Definition exact : Arith :=
  {| fsub := Qminus; float_of_int := fun n => Some (inject_Z n) |}.

(** The [k] with [2^k <= q < 2^(k+1)], for [q > 0]. *)
Definition ilog2 (q : Q) : Z :=
  let k0 := Z.log2 (Qnum q) - Z.log2 (Z.pos (Qden q)) in
  if Qle_bool (2 ^ k0) q then k0 else k0 - 1.

(** The nearest integer, a tie going to the even one. *)
Definition rne (q : Q) : Z :=
  let f := Qfloor q in
  match (q - inject_Z f ?= 1 # 2)%Q with
  | Lt => f
  | Gt => f + 1
  | Eq => if Z.even f then f else f + 1
  end.

(** Rounding to binary64, to nearest, ties to even: 53 bits of
    significand, the smallest exponent of a unit in the last place
    [-1074].  Where binary64 overflows to an infinity the value stays the
    rounded rational, at or beyond [2^1024], which compares with every
    finite float as the infinity does. *)
Definition round (q : Q) : Q :=
  if Qeq_bool q 0 then 0%Q
  else
    let e := Z.max (ilog2 (Qabs q) - 52) (-1074) in
    Qred (inject_Z (rne (q * 2 ^ (- e))) * 2 ^ e).

(** The arithmetic of CPython on binary64. *)
Definition binary64 : Arith :=
  {| fsub := fun a b => round (a - b);
     float_of_int := fun n =>
       let f := round (inject_Z n) in
       if Qle_bool (2 ^ 1024) (Qabs f) then None else Some f |}.

(** The float that the literal [n/d] denotes. *)
Definition lit (n : Z) (d : positive) : Q := round (n # d).

(** A non-negative multiple of [2^-j] below [2^(53-j)].  With [j = 22]
    these are the doubles below [2^31] that have no bit below [2^-22],
    among them every double from [2^30] on: the readings of [time.time()]
    from 2004 to 2038. *)
Definition on_grid (j : Z) (r : Q) : Prop :=
  exists m : Z, (0 <= m < 2 ^ 53)%Z /\ (r == inject_Z m * 2 ^ (- j))%Q.

End Float.

(** ** dedup.py with the arithmetic of [float]

    The dictionary and the constructor are those of [Dedup]; the clock
    readings are floats, [_prune] and [seen_recently] subtract with
    [Float.fsub], and the conversion of [self._ttl_sec] may raise.  An
    exception leaves the cache as it was. *)
Module DedupFloat.
Import Dedup Float.

Section WithArith.
Context {fa : Arith}.

(** [cutoff = now - self._ttl_sec] *)
Definition cutoff_of (c : DedupCache) (now : Q) : result Q :=
  match float_of_int (ttl_sec c) with
  | Some f => inr (fsub now f)
  | None => inl (OverflowError "int too large to convert to float")
  end.

Definition _prune (c : DedupCache) (now : Q) : result unit * DedupCache :=
  match cutoff_of c now with
  | inl e => (inl e, c)
  | inr cutoff =>
      (inr tt, mkCache (ttl_sec c) (max_keys c) (prune_list cutoff (seen c)))
  end.

(** [seen_recently], with the clock reading [now] of its first line. *)
Definition seen_recently (c : DedupCache) (key : string) (now : Q)
  : result bool * DedupCache :=
  match _prune c now with
  | (inl e, c1) => (inl e, c1)
  | (inr _, c1) =>
      match od_get key (seen c1) with
      | None =>
          let c2 := mkCache (ttl_sec c1) (max_keys c1) (od_set key now (seen c1)) in
          (inr false, _enforce_max c2)
      | Some ts =>
          let c2 :=
            mkCache (ttl_sec c1) (max_keys c1) (od_move_to_end key (seen c1)) in
          (inr (Qle_bool (fsub now ts) (inject_Z (ttl_sec c1))), c2)
      end
  end.

(** The entries that the [_enforce_max] of a call pops (none on a hit). *)
Definition evicted_by_max (c : DedupCache) (key : string) (now : Q) : list string :=
  let c1 := snd (_prune c now) in
  match fst (_prune c now), od_get key (seen c1) with
  | inr _, None =>
      let d := od_set key now (seen c1) in
      keys (firstn ((length d - length (enforce_max_list (max_keys c1) d))%nat) d)
  | _, _ => []
  end.

(** A sequence of calls, each with its clock reading; a caller that
    catches the exception of one goes on with the next. *)
Fixpoint run (c : DedupCache) (calls : list call)
  : list (result bool) * DedupCache :=
  match calls with
  | [] => ([], c)
  | (key, now) :: rest =>
      let '(b, c1) := seen_recently c key now in
      let '(bs, c2) := run c1 rest in
      (b :: bs, c2)
  end.

(** The keys that the capacity bound evicts during a sequence of calls. *)
Fixpoint evictions (c : DedupCache) (calls : list call) : list string :=
  match calls with
  | [] => []
  | (key, now) :: rest =>
      evicted_by_max c key now ++ evictions (snd (seen_recently c key now)) rest
  end.

End WithArith.

End DedupFloat.

(** * Facts about the cache *)

Section DedupFacts.
Import Dedup.

Lemma od_get_none_notin key d : od_get key d = None <-> ~ In key (keys d).
Proof.
  induction d as [|[k ts] d IH]; simpl.
  - tauto.
  - destruct (String.eqb_spec k key) as [->|Hne].
    + split; [discriminate | intros H; exfalso; apply H; now left].
    + rewrite IH. split; intros H; [intros [E|E]; [congruence | tauto] | tauto].
Qed.

Lemma od_get_some_in key d ts : od_get key d = Some ts -> In (key, ts) d.
Proof.
  induction d as [|[k t] d IH]; simpl; [discriminate|].
  destruct (String.eqb_spec k key) as [->|Hne].
  - intros [= ->]. now left.
  - intros H. right. now apply IH.
Qed.

Lemma od_set_fresh key v d :
  od_get key d = None -> od_set key v d = d ++ [(key, v)].
Proof.
  induction d as [|[k t] d IH]; simpl; [reflexivity|].
  destruct (String.eqb k key); [discriminate|].
  intros H. now rewrite IH.
Qed.

Lemma od_remove_keys key d :
  ~ In key (keys (od_remove key d)) /\
  (forall k, In k (keys (od_remove key d)) -> In k (keys d)) /\
  (NoDup (keys d) -> NoDup (keys (od_remove key d))).
Proof.
  induction d as [|[k t] d (IH1 & IH2 & IH3)]; simpl.
  - repeat split; auto.
  - destruct (String.eqb_spec k key) as [->|Hne]; simpl.
    + repeat split; auto. intros H. inversion H; auto.
    + repeat split.
      * intros [E|E]; [congruence | tauto].
      * intros k' [E|E]; [now left | right; auto].
      * intros H. inversion H as [|? ? Hn Hd]; subst. constructor; auto.
Qed.

Lemma od_remove_length key d :
  (length (od_remove key d) <= length d)%nat /\
  (In key (keys d) -> (length (od_remove key d) < length d)%nat).
Proof.
  induction d as [|[k t] d [IH1 IH2]]; simpl.
  - split; [lia | tauto].
  - destruct (String.eqb_spec k key) as [->|Hne]; simpl.
    + split; intros; lia.
    + split; [lia|]. intros [E|E]; [congruence|]. apply IH2 in E. lia.
Qed.

(** [_prune] pops a prefix whose stamps are all at or before the cutoff,
    and stops at an entry stamped after it. *)
Lemma prune_list_split cutoff d :
  exists pre,
    d = pre ++ prune_list cutoff d /\
    Forall (fun e => (snd e <= cutoff)%Q) pre.
Proof.
  induction d as [|[k ts] d (pre & Hd & Hpre)]; simpl.
  - exists []. split; [reflexivity | constructor].
  - destruct (Qle_bool ts cutoff) eqn:E.
    + exists ((k, ts) :: pre). split.
      * simpl. now rewrite <- Hd.
      * constructor; [now apply Qle_bool_iff | assumption].
    + exists []. split; [reflexivity | constructor].
Qed.

Lemma prune_list_head cutoff d k ts tl :
  prune_list cutoff d = (k, ts) :: tl -> (cutoff < ts)%Q.
Proof.
  induction d as [|[k' ts'] d IH]; simpl; [discriminate|].
  destruct (Qle_bool ts' cutoff) eqn:E; [exact IH|].
  intros [= -> -> ->]. apply Qnot_le_lt. intros H.
  apply Qle_bool_iff in H. congruence.
Qed.

Lemma prune_list_length cutoff d :
  (length (prune_list cutoff d) <= length d)%nat.
Proof.
  destruct (prune_list_split cutoff d) as (pre & Hd & _).
  rewrite Hd at 2. rewrite length_app. lia.
Qed.

Lemma enforce_max_list_skipn max d :
  0 <= max ->
  enforce_max_list max d = skipn (length d - Z.to_nat max) d.
Proof.
  intros Hmax. induction d as [|e d IH]; [reflexivity|].
  cbn [enforce_max_list].
  destruct (Z.gtb_spec (Z.of_nat (length (e :: d))) max) as [Hgt|Hle].
  - rewrite IH. cbn [length] in *.
    replace (S (length d) - Z.to_nat max)%nat
      with (S (length d - Z.to_nat max)) by lia.
    reflexivity.
  - cbn [length] in *.
    replace (S (length d) - Z.to_nat max)%nat with 0%nat by lia.
    reflexivity.
Qed.

Lemma enforce_max_list_length max d :
  0 <= max -> Z.of_nat (length (enforce_max_list max d)) <= max.
Proof.
  intros Hmax. rewrite enforce_max_list_skipn by assumption.
  rewrite length_skipn. lia.
Qed.

Lemma enforce_max_list_fits max d :
  Z.of_nat (length d) <= max -> enforce_max_list max d = d.
Proof.
  destruct d as [|e d]; [reflexivity|]. cbn [enforce_max_list]. intros H.
  destruct (Z.gtb_spec (Z.of_nat (length (e :: d))) max); [lia | reflexivity].
Qed.

Lemma suffix_nodup (pre d : odict) : NoDup (keys (pre ++ d)) -> NoDup (keys d).
Proof.
  unfold keys. rewrite map_app. induction pre as [|e pre IH]; simpl; [auto|].
  intros H. inversion H; auto.
Qed.

(** The fields that a call never changes. *)
Lemma seen_recently_params c key now :
  ttl_sec (snd (seen_recently c key now)) = ttl_sec c /\
  max_keys (snd (seen_recently c key now)) = max_keys c.
Proof.
  unfold seen_recently. cbn.
  destruct (od_get key _); cbn; auto.
Qed.

Lemma seen_recently_size c key now :
  0 <= max_keys c ->
  size c <= max_keys c ->
  size (snd (seen_recently c key now)) <= max_keys c.
Proof.
  intros Hmax Hsize. unfold seen_recently, size in *. cbn.
  pose proof (prune_list_length (cutoff_of c now) (seen c)) as Hp.
  destruct (od_get key _) as [ts|] eqn:Hget; cbn.
  - unfold od_move_to_end. rewrite Hget. rewrite length_app. cbn.
    apply od_get_some_in in Hget.
    assert (Hin : In key (keys (prune_list (cutoff_of c now) (seen c)))).
    { unfold keys. change key with (fst (key, ts)). now apply in_map. }
    apply od_remove_length in Hin. lia.
  - now apply enforce_max_list_length.
Qed.

Lemma seen_recently_nodup c key now :
  NoDup (keys (seen c)) -> NoDup (keys (seen (snd (seen_recently c key now)))).
Proof.
  intros Hnd. unfold seen_recently. cbn.
  destruct (prune_list_split (cutoff_of c now) (seen c)) as (pre & Hd & _).
  assert (Hp : NoDup (keys (prune_list (cutoff_of c now) (seen c)))).
  { rewrite Hd in Hnd. now apply suffix_nodup in Hnd. }
  destruct (od_get key _) as [ts|] eqn:Hget; cbn.
  - unfold od_move_to_end. rewrite Hget.
    destruct (od_remove_keys key (prune_list (cutoff_of c now) (seen c)))
      as (H1 & _ & H3).
    unfold keys in *. rewrite map_app. cbn.
    apply NoDup_app_remove_l with (l := []). cbn.
    apply Permutation_NoDup with (l := key :: map fst (od_remove key (prune_list (cutoff_of c now) (seen c)))).
    + apply Permutation_cons_append.
    + constructor; auto.
  - rewrite od_set_fresh by assumption.
    assert (Hall : NoDup (keys (prune_list (cutoff_of c now) (seen c) ++ [(key, now)]))).
    { unfold keys in *. rewrite map_app. cbn.
      apply Permutation_NoDup with (l := key :: map fst (prune_list (cutoff_of c now) (seen c))).
      - apply Permutation_cons_append.
      - constructor; [now apply od_get_none_notin | assumption]. }
    destruct (Z_le_gt_dec 0 (max_keys c)) as [Hmax|Hmax].
    + rewrite enforce_max_list_skipn by assumption.
      eapply suffix_nodup with (pre := firstn _ _).
      rewrite firstn_skipn. exact Hall.
    + clear - Hall Hmax. induction (prune_list _ _ ++ _) as [|e l IH]; [constructor|].
      cbn [enforce_max_list].
      destruct (Z.gtb_spec (Z.of_nat (length (e :: l))) (max_keys c)); [|lia].
      apply IH. unfold keys in *. cbn in Hall. now inversion Hall.
Qed.

Lemma run_snoc c calls key now :
  run c (calls ++ [(key, now)]) =
  (fst (run c calls) ++ [fst (seen_recently (snd (run c calls)) key now)],
   snd (seen_recently (snd (run c calls)) key now)).
Proof.
  revert c. induction calls as [|[k t] calls IH]; intros c; cbn.
  - destruct (seen_recently c key now). reflexivity.
  - destruct (seen_recently c k t) as [b c1]. rewrite IH.
    destruct (run c1 calls). reflexivity.
Qed.

Lemma run_params c calls :
  ttl_sec (snd (run c calls)) = ttl_sec c /\
  max_keys (snd (run c calls)) = max_keys c.
Proof.
  revert c. induction calls as [|[k t] calls IH]; intros c; cbn; [auto|].
  pose proof (seen_recently_params c k t) as [H1 H2].
  destruct (seen_recently c k t) as [b c1]. cbn in *.
  specialize (IH c1). destruct (run c1 calls). cbn in *.
  split; intuition congruence.
Qed.

(** The list of entries is a dictionary: no key occurs twice, so its
    length is [len(self._seen)]. *)
Lemma run_nodup c calls :
  NoDup (keys (seen c)) -> NoDup (keys (seen (snd (run c calls)))).
Proof.
  revert c. induction calls as [|[k t] calls IH]; intros c Hnd; cbn; [auto|].
  pose proof (seen_recently_nodup c k t Hnd) as H.
  destruct (seen_recently c k t) as [b c1]. cbn in *.
  specialize (IH c1 H). now destruct (run c1 calls).
Qed.

Lemma run_firstn_size c calls :
  0 <= max_keys c ->
  size c <= max_keys c ->
  size (snd (run c calls)) <= max_keys c.
Proof.
  revert c. induction calls as [|[k t] calls IH]; intros c Hmax Hsize; cbn; [auto|].
  pose proof (seen_recently_size c k t Hmax Hsize) as H.
  pose proof (seen_recently_params c k t) as [_ Hm].
  destruct (seen_recently c k t) as [b c1]. cbn in *.
  specialize (IH c1). rewrite Hm in IH.
  destruct (run c1 calls). cbn in *. apply IH; assumption.
Qed.

Lemma new_inr ttl max c :
  new ttl max = inr c -> 0 < ttl /\ 0 < max /\ c = mkCache ttl max [].
Proof.
  unfold new.
  destruct (Z.leb_spec ttl 0); [discriminate|].
  destruct (Z.leb_spec max 0); [discriminate|].
  intros [= <-]. auto.
Qed.

(** C3.  Capacity invariant: a cache built by the constructor (which accepts
    only [max_keys > 0]) is empty; a call of [seen_recently] on a cache that
    holds at most [max_keys] entries leaves at most [max_keys] entries; so
    after every call of every sequence of calls, that is after each prefix
    of the sequence, the cache holds at most [max_keys] entries. *)
Theorem capacity_invariant (ttl max : Z) (c0 : DedupCache) :
  new ttl max = inr c0 ->
  size c0 <= max /\
  (forall c key now,
      max_keys c = max -> size c <= max ->
      size (snd (seen_recently c key now)) <= max) /\
  (forall calls n, size (snd (run c0 (firstn n calls))) <= max).
Proof.
  intros Hnew. apply new_inr in Hnew as (Httl & Hmax & ->).
  split; [|split].
  - unfold size. cbn. lia.
  - intros c key now <- Hsize. apply seen_recently_size; [lia | assumption].
  - intros calls n.
    change max with (max_keys (mkCache ttl max [])) at 2.
    apply run_firstn_size; cbn; unfold size; cbn; lia.
Qed.

Lemma capacity_invariant_witness :
  size (snd (run (mkCache 300 2 [])
               (firstn 3 [("a", 0%Q); ("b", 1%Q); ("c", 2%Q); ("a", 3%Q)]))) <= 2.
Proof.
  exact (proj2 (proj2 (capacity_invariant 300 2 (mkCache 300 2 []) eq_refl)) _ 3%nat).
Defined.

Lemma od_get_app_fresh key v d :
  od_get key d = None -> od_get key (d ++ [(key, v)]) = Some v.
Proof.
  induction d as [|[k t] d IH]; cbn.
  - now rewrite String.eqb_refl.
  - destruct (String.eqb k key); [discriminate | exact IH].
Qed.

Lemma od_get_skipn_none key n d :
  od_get key d = None -> od_get key (skipn n d) = None.
Proof.
  rewrite !od_get_none_notin. intros H Hin. apply H.
  unfold keys in *. apply in_map_iff in Hin as (e & He & Hin).
  apply in_map_iff. exists e. split; [assumption|].
  rewrite <- (firstn_skipn n d). apply in_or_app. now right.
Qed.

Lemma evicted_keep_split max d :
  0 <= max ->
  d = firstn (length d - Z.to_nat max) d ++ enforce_max_list max d.
Proof.
  intros H. rewrite enforce_max_list_skipn by assumption.
  symmetry. apply firstn_skipn.
Qed.

(** A miss puts the key last, pops from the front down to the bound, keeps
    the new key and answers [false]. *)
Lemma seen_recently_miss (c : DedupCache) (key : string) (now : Q) :
  0 < max_keys c ->
  od_get key (seen (_prune c now)) = None ->
  let d := seen (_prune c now) ++ [(key, now)] in
  let n := (length d - Z.to_nat (max_keys c))%nat in
  seen_recently c key now = (false, mkCache (ttl_sec c) (max_keys c) (skipn n d)) /\
  od_get key (skipn n d) = Some now.
Proof.
  intros Hmax Hmiss d n.
  assert (Hset : od_set key now (seen (_prune c now)) = d).
  { now apply od_set_fresh. }
  assert (Hn : (n <= length (seen (_prune c now)))%nat).
  { subst n d. rewrite length_app. cbn. lia. }
  split.
  - unfold seen_recently. rewrite Hmiss. unfold _enforce_max.
    cbn [seen max_keys ttl_sec _prune].
    cbn [_prune seen] in Hset. rewrite Hset.
    rewrite enforce_max_list_skipn by lia. reflexivity.
  - subst d. rewrite skipn_app.
    replace (n - length (seen (_prune c now)))%nat with 0%nat by lia.
    cbn [skipn]. apply od_get_app_fresh. now apply od_get_skipn_none.
Qed.

Lemma prune_list_skipn cutoff d : exists m, prune_list cutoff d = skipn m d.
Proof.
  induction d as [|[k ts] d [m IH]]; cbn.
  - now exists 0%nat.
  - destruct (Qle_bool ts cutoff); [now exists (S m) | now exists 0%nat].
Qed.

Lemma od_get_app k d1 d2 :
  od_get k (d1 ++ d2) =
  match od_get k d1 with Some v => Some v | None => od_get k d2 end.
Proof.
  induction d1 as [|[k' t'] d1 IH]; cbn; [reflexivity|].
  now destruct (String.eqb k' k).
Qed.

Lemma prune_keeps k t cutoff d :
  od_get k d = Some t -> (cutoff < t)%Q ->
  od_get k (prune_list cutoff d) = Some t.
Proof.
  intros Hget Hlt. induction d as [|[k' ts'] d IH]; cbn in *; [discriminate|].
  destruct (Qle_bool ts' cutoff) eqn:E.
  - destruct (String.eqb_spec k' k) as [->|Hne].
    + injection Hget as ->. apply Qle_bool_iff in E. lra.
    + now apply IH.
  - cbn. exact Hget.
Qed.

Lemma od_get_remove_other k key d :
  key <> k -> od_get k (od_remove key d) = od_get k d.
Proof.
  intros Hne. induction d as [|[k' t'] d IH]; cbn; [reflexivity|].
  destruct (String.eqb_spec k' key) as [->|Hk].
  - destruct (String.eqb_spec key k); [contradiction | exact IH].
  - cbn. now rewrite IH.
Qed.

Lemma od_get_remove_same key d : od_get key (od_remove key d) = None.
Proof. apply od_get_none_notin. apply od_remove_keys. Qed.

Lemma od_remove_app key d1 d2 :
  od_remove key (d1 ++ d2) = od_remove key d1 ++ od_remove key d2.
Proof.
  induction d1 as [|[k t] d1 IH]; cbn; [reflexivity|].
  destruct (String.eqb k key); cbn; now rewrite IH.
Qed.

Lemma od_remove_incl key d e : In e (od_remove key d) -> In e d.
Proof.
  induction d as [|[k t] d IH]; cbn; [tauto|].
  destruct (String.eqb k key); cbn; intuition.
Qed.

Lemma enforce_max_list_incl max d e : In e (enforce_max_list max d) -> In e d.
Proof.
  induction d as [|x d IH]; [tauto|]. cbn [enforce_max_list].
  destruct (_ >? _); [intros H; right; now apply IH | tauto].
Qed.

Lemma prune_list_incl cutoff d e : In e (prune_list cutoff d) -> In e d.
Proof.
  destruct (prune_list_skipn cutoff d) as [m ->]. intros H.
  rewrite <- (firstn_skipn m d). apply in_or_app. now right.
Qed.

(** A call adds at most the entry of its own key and clock reading. *)
Lemma seen_recently_entries c key now e :
  In e (seen (snd (seen_recently c key now))) -> In e (seen c) \/ e = (key, now).
Proof.
  unfold seen_recently. cbn.
  destruct (od_get key _) as [ts|] eqn:Hget; cbn.
  - unfold od_move_to_end. rewrite Hget. intros H.
    apply in_app_or in H as [H|[<-|[]]]; left.
    + eapply prune_list_incl, od_remove_incl, H.
    + eapply prune_list_incl, od_get_some_in, Hget.
  - rewrite od_set_fresh by assumption. intros H.
    apply enforce_max_list_incl in H. apply in_app_or in H as [H|[<-|[]]].
    + left. eapply prune_list_incl, H.
    + now right.
Qed.

Lemma run_stamps_le c calls t :
  Forall (fun e => (snd e <= t)%Q) (seen c) ->
  Forall (fun cl : call => (snd cl <= t)%Q) calls ->
  Forall (fun e => (snd e <= t)%Q) (seen (snd (run c calls))).
Proof.
  revert c. induction calls as [|[k now] calls IH]; intros c Hc Hcalls; cbn; [auto|].
  inversion Hcalls as [|? ? Hnow Hrest]; subst. cbn in Hnow.
  assert (H1 : Forall (fun e => (snd e <= t)%Q) (seen (snd (seen_recently c k now)))).
  { apply Forall_forall. intros e He.
    apply seen_recently_entries in He as [He| ->]; [|exact Hnow].
    rewrite Forall_forall in Hc. now apply Hc. }
  destruct (seen_recently c k now) as [b c1]. cbn in *.
  specialize (IH c1 H1 Hrest). now destruct (run c1 calls).
Qed.

(** A resident key stays resident, with its stamp, through a call that
    neither prunes it nor evicts it. *)
Lemma seen_recently_keeps c key now k t :
  0 <= max_keys c ->
  od_get k (seen c) = Some t ->
  (now < t + inject_Z (ttl_sec c))%Q ->
  ~ In k (evicted_by_max c key now) ->
  od_get k (seen (snd (seen_recently c key now))) = Some t.
Proof.
  intros Hmax Hk Hnow Hev.
  assert (Hpd : od_get k (prune_list (cutoff_of c now) (seen c)) = Some t).
  { apply prune_keeps; [assumption|]. unfold cutoff_of. lra. }
  unfold seen_recently, evicted_by_max in *. cbn in *.
  destruct (od_get key _) as [ts|] eqn:Hget; cbn.
  - unfold od_move_to_end. rewrite Hget.
    destruct (String.eqb_spec key k) as [->|Hne].
    + rewrite Hpd in Hget. injection Hget as ->.
      apply od_get_app_fresh, od_get_remove_same.
    + rewrite od_get_app, od_get_remove_other, Hpd by assumption. reflexivity.
  - rewrite od_set_fresh in * by assumption.
    set (d := prune_list (cutoff_of c now) (seen c) ++ [(key, now)]) in *.
    rewrite enforce_max_list_skipn in * by assumption.
    rewrite length_skipn in Hev.
    set (n := (length d - Z.to_nat (max_keys c))%nat) in *.
    replace (length d - (length d - n))%nat with n in Hev by (subst n; lia).
    assert (Hd : od_get k d = Some t).
    { subst d. rewrite od_get_app, Hpd. reflexivity. }
    rewrite <- (firstn_skipn n d), od_get_app in Hd.
    apply od_get_none_notin in Hev. now rewrite Hev in Hd.
Qed.

Lemma run_keeps c mid k t :
  0 <= max_keys c ->
  od_get k (seen c) = Some t ->
  Forall (fun cl : call => (snd cl < t + inject_Z (ttl_sec c))%Q) mid ->
  ~ In k (evictions c mid) ->
  od_get k (seen (snd (run c mid))) = Some t.
Proof.
  revert c. induction mid as [|[key now] mid IH]; intros c Hmax Hk Hmid Hev; cbn; [auto|].
  inversion Hmid as [|? ? Hnow Hrest]; subst. cbn in Hnow, Hev.
  assert (H1 : od_get k (seen (snd (seen_recently c key now))) = Some t).
  { apply seen_recently_keeps; auto. intros H. apply Hev, in_or_app. now left. }
  assert (H2 : ~ In k (evictions (snd (seen_recently c key now)) mid)).
  { intros H. apply Hev, in_or_app. now right. }
  pose proof (seen_recently_params c key now) as [Ht Hm].
  destruct (seen_recently c key now) as [b c1]. cbn in *.
  specialize (IH c1). rewrite Ht, Hm in IH. specialize (IH Hmax H1 Hrest H2).
  now destruct (run c1 mid).
Qed.

Lemma behind_skipn k t d n : behind_stamp k t d -> behind_stamp k t (skipn n d).
Proof.
  intros (front & rest & -> & Hf & Hr).
  exists (skipn n front), (skipn (n - length front) rest).
  split; [apply skipn_app|]. split.
  - apply Forall_forall. intros e He. rewrite Forall_forall in Hf. apply Hf.
    rewrite <- (firstn_skipn n front). apply in_or_app. now right.
  - intros H. apply Hr. unfold keys in *.
    rewrite <- (firstn_skipn (n - length front) rest), map_app.
    apply in_or_app. now right.
Qed.

Lemma behind_append k t d key v :
  key <> k -> behind_stamp k t d -> behind_stamp k t (d ++ [(key, v)]).
Proof.
  intros Hne (front & rest & -> & Hf & Hr).
  exists front, (rest ++ [(key, v)]). split; [now rewrite app_assoc|].
  split; [assumption|]. unfold keys in *. rewrite map_app. cbn.
  intros H. apply in_app_or in H as [H|[H|[]]]; [now apply Hr | congruence].
Qed.

Lemma behind_remove k t d key :
  behind_stamp k t d -> behind_stamp k t (od_remove key d).
Proof.
  intros (front & rest & -> & Hf & Hr).
  exists (od_remove key front), (od_remove key rest).
  split; [apply od_remove_app|]. split.
  - apply Forall_forall. intros e He. rewrite Forall_forall in Hf.
    now apply Hf, (od_remove_incl key).
  - intros H. apply Hr. now apply (od_remove_keys key rest).
Qed.

Lemma seen_recently_behind c key now k t :
  0 <= max_keys c -> key <> k ->
  behind_stamp k t (seen c) ->
  behind_stamp k t (seen (snd (seen_recently c key now))).
Proof.
  intros Hmax Hne Hb. unfold seen_recently. cbn.
  destruct (prune_list_skipn (cutoff_of c now) (seen c)) as [m Hm].
  assert (Hp : behind_stamp k t (prune_list (cutoff_of c now) (seen c))).
  { rewrite Hm. now apply behind_skipn. }
  destruct (od_get key _) as [ts|] eqn:Hget; cbn.
  - unfold od_move_to_end. rewrite Hget.
    apply behind_append; [assumption|]. now apply behind_remove.
  - rewrite od_set_fresh by assumption.
    rewrite enforce_max_list_skipn by assumption.
    apply behind_skipn. now apply behind_append.
Qed.

Lemma run_behind c mid k t :
  0 <= max_keys c ->
  Forall (fun cl : call => fst cl <> k) mid ->
  behind_stamp k t (seen c) ->
  behind_stamp k t (seen (snd (run c mid))).
Proof.
  revert c. induction mid as [|[key now] mid IH]; intros c Hmax Hmid Hb; cbn; [auto|].
  inversion Hmid as [|? ? Hne Hrest]; subst. cbn in Hne.
  pose proof (seen_recently_behind c key now k t Hmax Hne Hb) as H1.
  pose proof (seen_recently_params c key now) as [_ Hm].
  destruct (seen_recently c key now) as [b c1]. cbn in *.
  specialize (IH c1). rewrite Hm in IH. specialize (IH Hmax Hrest H1).
  now destruct (run c1 mid).
Qed.

(** Once the cutoff has reached [t], pruning removes every entry that
    could hold [k]. *)
Lemma behind_pruned k t cutoff d :
  behind_stamp k t d -> (t <= cutoff)%Q -> od_get k (prune_list cutoff d) = None.
Proof.
  intros (front & rest & -> & Hf & Hr) Hle.
  induction front as [|[k' ts'] front IH]; cbn.
  - destruct (prune_list_skipn cutoff rest) as [m ->].
    apply od_get_skipn_none. now apply od_get_none_notin.
  - inversion Hf as [|? ? Hts Hf']; subst. cbn in Hts.
    assert (E : Qle_bool ts' cutoff = true) by (apply Qle_bool_iff; lra).
    rewrite E. now apply IH.
Qed.

Lemma nodup_keys_functional d k a b :
  NoDup (keys d) -> In (k, a) d -> In (k, b) d -> a = b.
Proof.
  induction d as [|[k' t'] d IH]; cbn; [tauto|].
  intros Hnd Ha Hb. inversion Hnd as [|? ? Hn Hd]; subst.
  assert (Hin : forall x, In (k', x) d -> In k' (map fst d)).
  { intros x Hx. change k' with (fst (k', x)). now apply in_map. }
  destruct Ha as [Ha|Ha], Hb as [Hb|Hb].
  - congruence.
  - injection Ha as -> ->. exfalso. eapply Hn, Hin, Hb.
  - injection Hb as -> ->. exfalso. eapply Hn, Hin, Ha.
  - now apply IH.
Qed.

(** A hit answers by the stamp that the key was inserted with. *)
Lemma seen_recently_hit_answer c k t now :
  NoDup (keys (seen c)) ->
  od_get k (seen c) = Some t ->
  fst (seen_recently c k now) =
  match od_get k (seen (_prune c now)) with
  | Some _ => Qle_bool (now - t)%Q (inject_Z (ttl_sec c))
  | None => false
  end.
Proof.
  intros Hnd Hk. unfold seen_recently. cbn.
  destruct (od_get k (prune_list (cutoff_of c now) (seen c))) as [ts|] eqn:Hget;
    cbn; [|reflexivity].
  replace ts with t; [reflexivity|].
  apply (nodup_keys_functional (seen c) k); auto using od_get_some_in.
  eapply prune_list_incl, od_get_some_in, Hget.
Qed.

(** A resident key whose window is open is a hit that answers [true]. *)
Lemma seen_recently_fresh_hit c k t now :
  od_get k (seen c) = Some t ->
  (now < t + inject_Z (ttl_sec c))%Q ->
  fst (seen_recently c k now) = true.
Proof.
  intros Hk Hnow. unfold seen_recently. cbn.
  rewrite (prune_keeps k t) by (auto; unfold cutoff_of; lra).
  cbn. apply Qle_bool_iff. lra.
Qed.




(** What the calls before and after an insertion leave unchanged, for a
    cache built by the constructor. *)
Lemma run_from_new ttl max c0 calls :
  new ttl max = inr c0 ->
  0 < ttl /\ 0 < max /\
  ttl_sec (snd (run c0 calls)) = ttl /\
  max_keys (snd (run c0 calls)) = max /\
  NoDup (keys (seen (snd (run c0 calls)))) /\
  (forall t, Forall (fun cl : call => (snd cl <= t)%Q) calls ->
             Forall (fun e => (snd e <= t)%Q) (seen (snd (run c0 calls)))).
Proof.
  intros Hnew. apply new_inr in Hnew as (Httl & Hmax & ->).
  pose proof (run_params (mkCache ttl max []) calls) as [H1 H2].
  repeat split; auto.
  - apply run_nodup. constructor.
  - intros t Hc. apply run_stamps_le; [constructor | assumption].
Qed.

(** The window without rounding.  Let a cache built by the constructor serve the
    calls [pre], and let the next call, at clock reading [t], not find [k],
    so that [k] is inserted with the stamp [t].  Let calls [mid] follow, then
    a call on [k] at [t'].

    - While the calls of [mid] come before [t + ttl] and the capacity bound
      does not evict [k], [k] stays resident with the stamp [t], whatever
      hits it gets; the call at [t' < t + ttl] returns [true], and the call
      at [t' > t + ttl] returns [false].
    - When the clock did not run backwards up to [t] and [mid] holds no call
      on [k], the call at [t' >= t + ttl] returns [false].
    - A hit moves the key to the last position and keeps its stamp. *)
Lemma window_without_rounding (ttl max : Z) (c0 : DedupCache) (pre mid : list call)
    (k : string) (t t' : Q) :
  new ttl max = inr c0 ->
  let c := snd (run c0 pre) in
  od_get k (seen (_prune c t)) = None ->
  let c1 := snd (seen_recently c k t) in
  let c2 := snd (run c1 mid) in
  od_get k (seen c1) = Some t /\
  (Forall (fun cl : call => (snd cl < t + inject_Z ttl)%Q) mid ->
   ~ In k (evictions c1 mid) ->
   od_get k (seen c2) = Some t /\
   ((t' < t + inject_Z ttl)%Q -> fst (seen_recently c2 k t') = true) /\
   ((t + inject_Z ttl < t')%Q -> fst (seen_recently c2 k t') = false)) /\
  (Forall (fun cl : call => (snd cl <= t)%Q) pre ->
   Forall (fun cl : call => fst cl <> k) mid ->
   (t + inject_Z ttl <= t')%Q ->
   fst (seen_recently c2 k t') = false) /\
  (forall c' ts now,
      od_get k (seen (_prune c' now)) = Some ts ->
      seen (snd (seen_recently c' k now))
      = od_remove k (seen (_prune c' now)) ++ [(k, ts)]).
Proof.
  intros Hnew c Hmiss c1 c2.
  destruct (run_from_new ttl max c0 pre Hnew) as (Httl & Hmax & Ht & Hm & Hnd & Hst).
  fold c in Ht, Hm, Hnd, Hst.
  assert (Hmaxc : 0 < max_keys c) by lia.
  pose proof (seen_recently_miss c k t Hmaxc Hmiss) as Hx. cbv zeta in Hx.
  destruct Hx as (Hsr & Hres).
  assert (Hc1 : od_get k (seen c1) = Some t).
  { subst c1. rewrite Hsr. exact Hres. }
  pose proof (seen_recently_params c k t) as [Ht1 Hm1]. fold c1 in Ht1, Hm1.
  pose proof (run_params c1 mid) as [Ht2 Hm2]. fold c2 in Ht2, Hm2.
  assert (Hnd2 : NoDup (keys (seen c2))).
  { subst c2 c1. now apply run_nodup, seen_recently_nodup. }
  split; [exact Hc1|]. split; [|split].
  - intros Hmid Hev.
    assert (Hc2 : od_get k (seen c2) = Some t).
    { subst c2. apply run_keeps; auto; [lia|]. now rewrite Ht1, Ht. }
    split; [exact Hc2|].
    rewrite (seen_recently_hit_answer c2 k t t' Hnd2 Hc2).
    rewrite Ht2, Ht1, Ht. split; intros Hlt.
    + cbn [_prune seen]. rewrite (prune_keeps k t) by
        (auto; unfold cutoff_of; rewrite Ht2, Ht1, Ht; lra).
      apply Qle_bool_iff. lra.
    + destruct (od_get k (seen (_prune c2 t'))); [|reflexivity].
      destruct (Qle_bool (t' - t) (inject_Z ttl)) eqn:E; [|reflexivity].
      apply Qle_bool_iff in E. lra.
  - intros Hpre Hmid Hle.
    assert (Hb1 : behind_stamp k t (seen c1)).
    { exists (seen c1), []. split; [now rewrite app_nil_r|]. split; [|tauto].
      apply Forall_forall. intros e He. subst c1.
      apply seen_recently_entries in He as [He| ->]; [|cbn; lra].
      specialize (Hst t Hpre). rewrite Forall_forall in Hst. now apply Hst. }
    assert (Hb2 : behind_stamp k t (seen c2)).
    { subst c2. apply run_behind; auto. lia. }
    unfold seen_recently. cbn.
    rewrite (behind_pruned k t) by
      (auto; unfold cutoff_of; rewrite Ht2, Ht1, Ht; lra).
    reflexivity.
  - intros c' ts now Hget. unfold seen_recently. cbn in *. rewrite Hget. cbn.
    unfold od_move_to_end. now rewrite Hget.
Qed.

(** C2 as stated fails.  With [max_keys = 1], [a] is inserted at 0 and
    evicted by the insertion of [b] at 1, so the call on [a] at 2, well
    before [0 + 300], returns [false]; without rounding and in binary64
    alike.  And in binary64 the window is the one of the rounded
    difference: with [ttl_sec = 1], [a] inserted at 0.1 and accessed at 0.6
    still returns [True] at 1.1, more than one second after 0.1, because
    [1.1 - 0.1] rounds to 1. *)
Lemma ttl_window_counterexample :
  new 300 1 = inr (mkCache 300 1 []) /\
  fst (run (mkCache 300 1 []) [("a", 0%Q); ("b", 1%Q); ("a", 2%Q)])
  = [false; false; false] /\
  (2 < 0 + inject_Z 300)%Q /\
  fst (@DedupFloat.run Float.binary64 (mkCache 300 1 [])
         [("a", 0%Q); ("b", 1%Q); ("a", 2%Q)])
  = [inr false; inr false; inr false] /\
  fst (@DedupFloat.run Float.binary64 (mkCache 1 5 [])
         [ ("a", Float.lit 1 10); ("b", Float.lit 1 2); ("a", Float.lit 6 10);
           ("a", Float.lit 11 10) ])
  = [inr false; inr false; inr true; inr true] /\
  (Float.lit 1 10 + inject_Z 1 < Float.lit 11 10)%Q.
Proof. repeat split; vm_compute; reflexivity. Qed.

End DedupFacts.

(** * Facts about the paging client *)

Section PagerDutyFacts.
Import Json PagerDuty.

(** The request that [trigger] posts outside dry-run mode. *)
Lemma trigger_live self be key summary details component group class_ :
  dry_run self = false ->
  exists req,
    req_url req = events_api_url self /\
    Json.get "dedup_key" JNull (req_body req) = JStr key /\
    Json.get "event_action" JNull (req_body req) = JStr "trigger" /\
    trigger self be key summary details component group class_
    = ([req],
       match be req with
       | Failed e => inl e
       | Response status text =>
           if status =? 202 then inr tt
           else inl (RuntimeError
                  ("PagerDuty error: " ++ str_int status ++ " " ++ text
                     ++ " (dedup_key=" ++ key ++ ")")%string)
       end).
Proof.
  intros Hdry. unfold trigger. rewrite Hdry.
  set (req := mkRequest _ _). exists req. repeat split.
  destruct (be req) as [status text|e]; [|reflexivity].
  now destruct (status =? 202).
Qed.

Lemma resolve_live self be key :
  dry_run self = false ->
  exists req,
    req_url req = events_api_url self /\
    Json.get "dedup_key" JNull (req_body req) = JStr key /\
    Json.get "event_action" JNull (req_body req) = JStr "resolve" /\
    resolve self be key
    = ([req],
       match be req with
       | Failed e => inl e
       | Response status text =>
           if status =? 202 then inr tt
           else inl (RuntimeError
                  ("PagerDuty resolve error: " ++ str_int status ++ " " ++ text
                     ++ " (dedup_key=" ++ key ++ ")")%string)
       end).
Proof.
  intros Hdry. unfold resolve. rewrite Hdry.
  set (req := mkRequest _ _). exists req. repeat split.
  destruct (be req) as [status text|e]; [|reflexivity].
  now destruct (status =? 202).
Qed.

(** C9.  In dry-run mode [trigger] and [resolve] return normally and make
    no outbound call, whatever their arguments and whatever the backend
    would answer. *)
Theorem dry_run_is_a_no_op (self : PagerDutyClient) (be : backend)
    (key summary : string) (details : dict) (component group class_ : option string) :
  dry_run self = true ->
  trigger self be key summary details component group class_ = ([], inr tt) /\
  resolve self be key = ([], inr tt).
Proof.
  intros Hdry. unfold trigger, resolve. now rewrite Hdry.
Qed.

Lemma dry_run_is_a_no_op_witness :
  trigger (mkClient "R" "https://events.pagerduty.com/v2/enqueue" "src" "critical" true 10)
    (fun _ => Response 500 "down") "k" "s" [("a", JInt 1)] (Some "c") None None
  = ([], inr tt).
Proof.
  exact (proj1 (dry_run_is_a_no_op
                  (mkClient "R" "https://events.pagerduty.com/v2/enqueue" "src" "critical" true 10)
                  (fun _ => Response 500 "down") "k" "s" [("a", JInt 1)] (Some "c") None None
                  eq_refl)).
Defined.

(** C10.  Outside dry-run mode [trigger] and [resolve] post one request
    each, and return normally exactly when the backend answers it with
    status 202; every other answer, a status such as 200 or 204 among them,
    makes the call raise. *)
Theorem success_iff_status_202 (self : PagerDutyClient) (be : backend)
    (key summary : string) (details : dict) (component group class_ : option string) :
  dry_run self = false ->
  (exists req,
      fst (trigger self be key summary details component group class_) = [req] /\
      (is_ok (snd (trigger self be key summary details component group class_)) = true
       <-> exists text, be req = Response 202 text)) /\
  (exists req,
      fst (resolve self be key) = [req] /\
      (is_ok (snd (resolve self be key)) = true
       <-> exists text, be req = Response 202 text)).
Proof.
  intros Hdry. split.
  - destruct (trigger_live self be key summary details component group class_ Hdry)
      as (req & _ & _ & _ & ->).
    exists req. split; [reflexivity|]. cbn.
    destruct (be req) as [status text|e]; cbn.
    + destruct (Z.eqb_spec status 202) as [->|Hne]; cbn.
      * split; [intros _; now exists text | reflexivity].
      * split; [discriminate | intros [x [= E]]; contradiction].
    + split; [discriminate | intros [x [=]]].
  - destruct (resolve_live self be key Hdry) as (req & _ & _ & _ & ->).
    exists req. split; [reflexivity|]. cbn.
    destruct (be req) as [status text|e]; cbn.
    + destruct (Z.eqb_spec status 202) as [->|Hne]; cbn.
      * split; [intros _; now exists text | reflexivity].
      * split; [discriminate | intros [x [= E]]; contradiction].
    + split; [discriminate | intros [x [=]]].
Qed.

Lemma success_iff_status_202_witness :
  exists req,
    fst (resolve (mkClient "R" "https://events.pagerduty.com/v2/enqueue" "src" "critical" false 10)
           (fun _ => Response 200 "ok") "k") = [req] /\
    (is_ok (snd (resolve (mkClient "R" "https://events.pagerduty.com/v2/enqueue" "src" "critical" false 10)
                   (fun _ => Response 200 "ok") "k")) = true
     <-> exists text, (fun _ : request => Response 200 "ok") req = Response 202 text).
Proof.
  exact (proj2 (success_iff_status_202
                  (mkClient "R" "https://events.pagerduty.com/v2/enqueue" "src" "critical" false 10)
                  (fun _ => Response 200 "ok") "k" "s" [] None None None eq_refl)).
Defined.

End PagerDutyFacts.

(** * Facts about the supervisor *)

Section SupervisorFacts.
Import Json Supervisor.

Lemma in_firstn {A : Type} (x : A) n l : In x (firstn n l) -> In x l.
Proof.
  intros H. rewrite <- (firstn_skipn n l). apply in_or_app. now left.
Qed.

Lemma runner_loop_fail cfg b c rest :
  fails cfg c = true ->
  runner_loop cfg b (c :: rest) =
  (b :: fst (runner_loop cfg (Z.min (b * 2) (reconnect_backoff_max_sec cfg)) rest),
   snd (runner_loop cfg (Z.min (b * 2) (reconnect_backoff_max_sec cfg)) rest)).
Proof.
  unfold fails. intros H. apply andb_prop in H as [Hs Hr].
  cbn [runner_loop]. destruct (stop_at_head c); [discriminate|].
  destruct (snd (_run_once cfg (outside c))); [|discriminate].
  now destruct (runner_loop _ _ rest).
Qed.

Lemma runner_loop_success cfg b c rest :
  succeeds cfg c = true ->
  runner_loop cfg b (c :: rest) = _runner cfg rest.
Proof.
  unfold succeeds, _runner. intros H. apply andb_prop in H as [Hs Hr].
  cbn [runner_loop]. destruct (stop_at_head c); [discriminate|].
  now destruct (snd (_run_once cfg (outside c))).
Qed.

(** Once [backoff] has reached the cap it stays there. *)
Lemma runner_loop_at_cap cfg cycles :
  0 <= reconnect_backoff_max_sec cfg ->
  forallb (fails cfg) cycles = true ->
  fst (runner_loop cfg (reconnect_backoff_max_sec cfg) cycles)
  = repeat (reconnect_backoff_max_sec cfg) (length cycles).
Proof.
  intros Hmax. induction cycles as [|c cycles IH]; cbn [forallb]; [reflexivity|].
  intros H. apply andb_prop in H as [Hc Hrest].
  rewrite runner_loop_fail by assumption. cbn [fst length repeat].
  replace (Z.min _ _) with (reconnect_backoff_max_sec cfg) by lia.
  now rewrite IH.
Qed.

(** Under failures each timeout is the minimum of twice the one before and
    the cap. *)
Lemma runner_loop_doubles cfg b cycles i d1 d2 :
  forallb (fails cfg) cycles = true ->
  nth_error (fst (runner_loop cfg b cycles)) i = Some d1 ->
  nth_error (fst (runner_loop cfg b cycles)) (S i) = Some d2 ->
  d2 = Z.min (d1 * 2) (reconnect_backoff_max_sec cfg).
Proof.
  revert b i. induction cycles as [|c cycles IH]; intros b i; cbn [forallb].
  - cbn. destruct i; discriminate.
  - intros H. apply andb_prop in H as [Hc Hrest].
    rewrite runner_loop_fail by assumption. cbn [fst].
    destruct i as [|i]; cbn [nth_error].
    + intros [= <-]. destruct cycles as [|c' cycles]; [discriminate|].
      cbn [forallb] in Hrest. apply andb_prop in Hrest as [Hc' _].
      rewrite runner_loop_fail by assumption. cbn. now intros [= <-].
    + now apply IH.
Qed.

Lemma runner_loop_app_fail cfg b pre rest :
  forallb (fails cfg) pre = true ->
  exists b',
    runner_loop cfg b (pre ++ rest) =
    (fst (runner_loop cfg b pre) ++ fst (runner_loop cfg b' rest),
     snd (runner_loop cfg b' rest)).
Proof.
  revert b. induction pre as [|c pre IH]; intros b; cbn [forallb app].
  - intros _. exists b. cbn. now destruct (runner_loop cfg b rest).
  - intros H. apply andb_prop in H as [Hc Hrest].
    rewrite !runner_loop_fail by assumption.
    destruct (IH (Z.min (b * 2) (reconnect_backoff_max_sec cfg)) Hrest) as [b' ->].
    exists b'. reflexivity.
Qed.

Lemma fst_bind {A B : Type} (m : M A) (f : A -> M B) :
  fst (bind m f) =
  fst m ++ match snd m with inr a => fst (f a) | inl _ => [] end.
Proof.
  destruct m as [t [e|a]]; cbn; [now rewrite app_nil_r|].
  now destruct (f a).
Qed.

Lemma snd_bind {A B : Type} (m : M A) (f : A -> M B) :
  snd (bind m f) = match snd m with inr a => snd (f a) | inl e => inl e end.
Proof.
  destruct m as [t [e|a]]; cbn; [reflexivity|]. now destruct (f a).
Qed.

Lemma fst_try_finally {A : Type} (body : M A) (fin : M unit) :
  fst (try_finally body fin) = fst body ++ fst fin.
Proof. destruct body, fin. reflexivity. Qed.

Lemma snd_try_finally {A : Type} (body : M A) (fin : M unit) :
  snd (try_finally body fin) =
  match snd fin with inl e => inl e | inr _ => snd body end.
Proof. destruct body, fin. reflexivity. Qed.

(** The token that [create_ws_token] returns is never empty, so the
    [if token:] of the [finally] block holds whenever it was assigned. *)
Lemma create_ws_token_nonempty rs token :
  Gmo.create_ws_token rs = inr token -> String.eqb token "" = false.
Proof.
  unfold Gmo.create_ws_token.
  destruct (rs _ _ _) as [e|[| | | | | |resp]]; try discriminate.
  destruct (get "data" JNull resp); try discriminate.
  destruct (String.eqb s "") eqn:E; [discriminate|]. now intros [= <-].
Qed.

Lemma subscribe_trace w channels ev :
  In ev (fst (subscribe w channels)) -> exists msg, ev = WsSend msg.
Proof.
  induction channels as [|ch channels IH]; cbn [subscribe]; [intros []|].
  rewrite fst_bind. cbn [perform fst snd]. intros [<-|H]; [eauto|].
  destruct (send_r w _); [destruct H | now apply IH].
Qed.

Lemma with_connection_trace cfg w url ev :
  In ev (fst (with_connection cfg w url)) ->
  ev = WsConnect url \/ (exists msg, ev = WsSend msg) \/ ev = RunTasks \/ ev = WsClose.
Proof.
  unfold with_connection. destruct (connect_r w) as [e|[]].
  - cbn. intuition.
  - rewrite fst_try_finally, !fst_bind. cbn [perform fst snd]. intros H.
    apply in_app_or in H as [H|H]; [|cbn in H; intuition].
    cbn [app] in H. destruct H as [<-|H]; [now left|].
    apply in_app_or in H as [H|H]; [right; left; eapply subscribe_trace, H|].
    destruct (snd (subscribe w (alert_channels cfg))); cbn in H; intuition.
Qed.

Lemma filter_none {A : Type} (f : A -> bool) l :
  (forall x, In x l -> f x = false) -> filter f l = [].
Proof.
  induction l as [|x l IH]; cbn; [reflexivity|]. intros H.
  rewrite (H x) by now left. apply IH. intros y Hy. apply H. now right.
Qed.

Lemma with_connection_no_revoke cfg w url :
  filter is_revoke (fst (with_connection cfg w url)) = [].
Proof.
  apply filter_none. intros ev H.
  apply with_connection_trace in H as [->|[[msg ->]|[->| ->]]]; reflexivity.
Qed.

(** The two [aclose] calls of the [finally] block. *)
Lemma run_finally_shape w token :
  exists closes,
    (forall ev, In ev closes -> is_revoke ev = false /\ is_connect ev = false) /\
    fst (run_finally w token) =
    (match token with
     | Some tk => if String.eqb tk "" then [] else [DeleteWsToken tk]
     | None => []
     end) ++ closes /\
    snd (run_finally w token) =
    match pd_aclose_r w with inl e => inl e | inr _ => gmo_aclose_r w end.
Proof.
  unfold run_finally. rewrite fst_bind, snd_bind.
  exists (fst (perform PdAclose (pd_aclose_r w) ;;; perform GmoAclose (gmo_aclose_r w))).
  assert (Hsnd : forall m : M unit,
             snd (match token with
                  | Some tk => if String.eqb tk "" then ret tt
                               else swallow m
                  | None => ret tt end) = inr tt).
  { intros m. destruct token as [tk|]; [destruct (String.eqb tk "")|]; reflexivity. }
  split; [|split].
  - intros ev. rewrite fst_bind. cbn [perform fst snd].
    destruct (pd_aclose_r w) as [e|[]]; cbn; intuition; subst; reflexivity.
  - destruct token as [tk|]; [destruct (String.eqb tk "")|]; reflexivity.
  - destruct token as [tk|]; [destruct (String.eqb tk "")|]; cbn;
      destruct (pd_aclose_r w) as [e|[]]; reflexivity.
Qed.

Lemma subscribe_revoke_answer w r channels :
  subscribe (with_revoke_answer w r) channels = subscribe w channels.
Proof.
  induction channels as [|ch channels IH]; cbn [subscribe]; [reflexivity|].
  now rewrite IH.
Qed.

(** What the exchange answers to the revoke request changes neither the
    calls of a cycle nor how the cycle ends. *)
Lemma run_once_revoke_answer cfg w r :
  _run_once cfg (with_revoke_answer w r) = _run_once cfg w.
Proof.
  unfold _run_once. destruct (Dedup.new _ _); [reflexivity|].
  destruct (process_monitor_enabled cfg); [reflexivity|].
  unfold run_body.
  change (Gmo.create_ws_token (request_signed (with_revoke_answer w r)))
    with (Gmo.create_ws_token (request_signed w)).
  assert (Hfin : forall token,
             run_finally (with_revoke_answer w r) token = run_finally w token).
  { intros [tk|]; unfold run_finally; [destruct (String.eqb tk "")|]; reflexivity. }
  destruct (Gmo.create_ws_token (request_signed w)) as [e|token].
  - now rewrite Hfin.
  - rewrite Hfin. unfold with_connection. cbn [connect_r tasks_r with_revoke_answer].
    now rewrite subscribe_revoke_answer.
Qed.

(** C6.  When a cycle opened the stream, its teardown attempts the revoke
    call exactly once, with the token of the cycle; and how the cycle ends
    does not depend on what the revoke call comes back with, a failure
    included. *)
Theorem teardown_revokes_once (cfg : Config) (w : world) (url : string) :
  connect_r w = inr tt ->
  In (WsConnect url) (fst (_run_once cfg w)) ->
  (exists token,
      Gmo.create_ws_token (request_signed w) = inr token /\
      filter is_revoke (fst (_run_once cfg w)) = [DeleteWsToken token]) /\
  (forall r,
      snd (_run_once cfg (with_revoke_answer w r)) = snd (_run_once cfg w) /\
      fst (_run_once cfg (with_revoke_answer w r)) = fst (_run_once cfg w)).
Proof.
  intros Hconn Hin. split; [|intros r; now rewrite run_once_revoke_answer].
  unfold _run_once in *.
  destruct (Dedup.new _ _); [destruct Hin|].
  destruct (process_monitor_enabled cfg); [destruct Hin|].
  unfold run_body in *.
  destruct (Gmo.create_ws_token (request_signed w)) as [e|token] eqn:Hc.
  - exfalso. rewrite fst_try_finally in Hin.
    destruct (run_finally_shape w None) as (closes & Hcl & Hfst & _).
    rewrite Hfst in Hin. cbn in Hin. destruct Hin as [Hin|Hin]; [discriminate|].
    apply Hcl in Hin as [_ Hin]. discriminate.
  - exists token. split; [reflexivity|].
    rewrite fst_try_finally, fst_bind. cbn [perform fst snd].
    destruct (run_finally_shape w (Some token)) as (closes & Hcl & -> & _).
    rewrite (create_ws_token_nonempty _ _ Hc).
    rewrite !filter_app. cbn [filter is_revoke app].
    rewrite with_connection_no_revoke.
    rewrite (filter_none is_revoke closes) by (intros ev Hev; now apply Hcl).
    reflexivity.
Qed.

Lemma teardown_revokes_once_witness :
  filter is_revoke (fst (_run_once Samples.cfg Samples.world_closed))
  = [DeleteWsToken "tok"] /\
  snd (_run_once Samples.cfg
         (with_revoke_answer Samples.world_closed (inl (RuntimeError "GMO Coin API error"))))
  = snd (_run_once Samples.cfg Samples.world_closed).
Proof.
  destruct (teardown_revokes_once Samples.cfg Samples.world_closed
              "wss://api.coin.z.com/ws/private/v1/tok" eq_refl)
    as [(token & Htok & Hrev) Hans].
  - vm_compute. auto.
  - split; [|apply Hans]. rewrite Hrev. vm_compute in Htok. now injection Htok as <-.
Defined.

(** C5.  With [base = 1] and [max = 30]: under repeated consecutive
    failures the timeouts that the loop sleeps with are 1, 2, 4, 8, 16, 30,
    30, ...; each is the minimum of twice the one before and 30, so they
    never decrease and never exceed 30; and after a cycle that returns
    normally the loop goes on as from its start, with [backoff] back at
    [base]. *)
Theorem backoff_sequence (cfg : Config) :
  reconnect_backoff_base_sec cfg = 1 ->
  reconnect_backoff_max_sec cfg = 30 ->
  (forall cycles,
      forallb (fails cfg) cycles = true ->
      fst (_runner cfg cycles)
      = firstn (length cycles) ([1; 2; 4; 8; 16] ++ repeat 30 (length cycles - 5)) /\
      (forall i d1 d2,
          nth_error (fst (_runner cfg cycles)) i = Some d1 ->
          nth_error (fst (_runner cfg cycles)) (S i) = Some d2 ->
          d2 = Z.min (d1 * 2) 30 /\ d1 <= d2 /\ d2 <= 30)) /\
  (forall pre c rest,
      forallb (fails cfg) pre = true ->
      succeeds cfg c = true ->
      _runner cfg (pre ++ c :: rest)
      = (fst (_runner cfg pre) ++ fst (_runner cfg rest), snd (_runner cfg rest))).
Proof.
  intros Hbase Hmax.
  assert (Hseq : forall cycles,
             forallb (fails cfg) cycles = true ->
             fst (_runner cfg cycles)
             = firstn (length cycles) ([1; 2; 4; 8; 16] ++ repeat 30 (length cycles - 5))).
  { intros cycles Hall. unfold _runner. rewrite Hbase.
    do 5 (destruct cycles as [|? cycles]; [reflexivity|];
          cbn [forallb] in Hall; apply andb_prop in Hall as [? Hall];
          rewrite runner_loop_fail by assumption; rewrite Hmax; cbn [fst]).
    change (Z.min (Z.min (Z.min (Z.min (Z.min (1 * 2) 30 * 2) 30 * 2) 30 * 2) 30 * 2) 30)
      with 30.
    pose proof (runner_loop_at_cap cfg cycles) as Hcap. rewrite Hmax in Hcap.
    rewrite Hcap by (auto; lia).
    cbn [length Nat.sub firstn app]. rewrite Nat.sub_0_r.
    now rewrite firstn_all2 by (rewrite repeat_length; lia). }
  split.
  - intros cycles Hall. split; [now apply Hseq|].
    intros i d1 d2 H1 H2.
    assert (Hd : d2 = Z.min (d1 * 2) 30).
    { rewrite <- Hmax. unfold _runner in *. eapply runner_loop_doubles; eauto. }
    assert (Hin : 1 <= d1 <= 30).
    { apply nth_error_In in H1. rewrite Hseq in H1 by assumption.
      apply in_firstn, in_app_or in H1 as [H1|H1].
      - cbn in H1. intuition lia.
      - apply repeat_spec in H1. lia. }
    lia.
  - intros pre c rest Hpre Hc. unfold _runner.
    destruct (runner_loop_app_fail cfg (reconnect_backoff_base_sec cfg) pre (c :: rest) Hpre)
      as [b' ->].
    now rewrite runner_loop_success by assumption.
Qed.

Lemma backoff_sequence_witness :
  fst (_runner Samples.cfg (repeat (mkCycle false Samples.world_refused) 7))
  = [1; 2; 4; 8; 16; 30; 30].
Proof.
  exact (proj1 (proj1 (backoff_sequence Samples.cfg eq_refl eq_refl)
                  (repeat (mkCycle false Samples.world_refused) 7) eq_refl)).
Defined.

End SupervisorFacts.

(** * Facts about events and their keys *)

Section KeyFacts.
Import Json Keys.
Context {rt : Runtime}.

Lemma leb_trans (a b c : string) :
  String.leb a b = true -> String.leb b c = true -> String.leb a c = true.
Proof.
  unfold String.leb. intros Hab Hbc.
  destruct (String.compare a b) eqn:Eab; [| |discriminate];
    destruct (String.compare b c) eqn:Ebc; try discriminate.
  - apply String.compare_eq_iff in Eab as ->. now rewrite Ebc.
  - apply String.compare_eq_iff in Eab as ->. now rewrite Ebc.
  - apply String.compare_eq_iff in Ebc as <-. now rewrite Eab.
  - apply String_as_OT.cmp_lt in Eab, Ebc.
    pose proof (String_as_OT.lt_trans _ _ _ Eab Ebc) as H.
    apply String_as_OT.cmp_lt in H. unfold String_as_OT.cmp in H. now rewrite H.
Qed.

Lemma leb_false_flip (a b : string) :
  String.leb a b = false -> String.leb b a = true.
Proof.
  intros H. destruct (String.leb_total a b) as [E|E]; congruence.
Qed.

Lemma leb_strict (a b : string) :
  a <> b -> String.leb a b = true -> String.leb b a = false.
Proof.
  intros Hne H. destruct (String.leb b a) eqn:E; [|reflexivity].
  exfalso. apply Hne. now apply String.leb_antisym.
Qed.

(** Inserting two members with different keys gives the same list in
    either order. *)
Lemma insert_item_comm {A : Type} (x y : string * A) l :
  fst x <> fst y ->
  insert_item x (insert_item y l) = insert_item y (insert_item x l).
Proof.
  intros Hne.
  induction l as [|h l IH]; cbn [insert_item].
  - destruct (String.leb (fst x) (fst y)) eqn:E1.
    + now rewrite (leb_strict _ _ Hne E1).
    + now rewrite (leb_false_flip _ _ E1).
  - destruct (String.leb (fst y) (fst h)) eqn:Eyh,
             (String.leb (fst x) (fst h)) eqn:Exh; cbn [insert_item].
    + rewrite Eyh, Exh.
      destruct (String.leb (fst x) (fst y)) eqn:E1.
      * now rewrite (leb_strict _ _ Hne E1).
      * now rewrite (leb_false_flip _ _ E1).
    + rewrite Eyh, Exh.
      destruct (String.leb (fst x) (fst y)) eqn:E1; [|reflexivity].
      rewrite (leb_trans _ _ _ E1 Eyh) in Exh. discriminate.
    + rewrite Eyh, Exh.
      destruct (String.leb (fst y) (fst x)) eqn:E1; [|reflexivity].
      rewrite (leb_trans _ _ _ E1 Exh) in Eyh. discriminate.
    + rewrite Eyh, Exh. now rewrite IH.
Qed.

(** Sorting forgets the order of insertion. *)
Lemma sort_items_perm {A : Type} (l1 l2 : list (string * A)) :
  Permutation l1 l2 -> NoDup (map fst l1) -> sort_items l1 = sort_items l2.
Proof.
  induction 1 as [|x l l' Hp IH|x y l|l l' l'' Hp1 IH1 Hp2 IH2]; intros Hnd.
  - reflexivity.
  - cbn. inversion Hnd; subst. now rewrite IH.
  - cbn. apply insert_item_comm. inversion Hnd as [|? ? Hn _]; subst.
    intros E. apply Hn. left. now symmetry.
  - rewrite IH1 by assumption. apply IH2.
    eapply Permutation_NoDup; [|exact Hnd]. now apply Permutation_map.
Qed.

Lemma lookup_in key (d : dict) v : lookup key d = Some v -> In (key, v) d.
Proof.
  induction d as [|[k x] d IH]; cbn; [discriminate|].
  destruct (String.eqb_spec k key) as [->|Hne]; [intros [= ->]; now left|].
  intros H. right. now apply IH.
Qed.

Lemma lookup_none key (d : dict) : lookup key d = None -> ~ In key (dict_keys d).
Proof.
  induction d as [|[k x] d IH]; cbn; [tauto|].
  destruct (String.eqb_spec k key) as [->|Hne]; [discriminate|].
  intros H [E|E]; [congruence | now apply IH].
Qed.

(** [d.get] does not see the order of insertion. *)
Lemma lookup_perm (d1 d2 : dict) key :
  Permutation d1 d2 -> wf_dict d1 -> lookup key d1 = lookup key d2.
Proof.
  unfold wf_dict, dict_keys.
  induction 1 as [|[k x] l l' Hp IH|[k1 x1] [k2 x2] l|l l' l'' Hp1 IH1 Hp2 IH2]; intros Hnd.
  - reflexivity.
  - cbn. inversion Hnd; subst. now rewrite IH.
  - cbn. inversion Hnd as [|? ? Hn _]; subst. cbn in Hn.
    destruct (String.eqb_spec k1 key) as [->|H1], (String.eqb_spec k2 key) as [->|H2];
      try reflexivity.
    exfalso. apply Hn. now left.
  - rewrite IH1 by assumption. apply IH2.
    eapply Permutation_NoDup; [|exact Hnd]. now apply Permutation_map.
Qed.

Lemma get_perm (d1 d2 : dict) key default :
  Permutation d1 d2 -> wf_dict d1 -> get key default d1 = get key default d2.
Proof.
  intros Hp Hwf. unfold get. now rewrite (lookup_perm d1 d2 key Hp Hwf).
Qed.

(** [json.dumps(..., sort_keys=True)] of an object does not see the order
    of insertion of its members. *)
Lemma dumps_perm (d1 d2 : dict) :
  Permutation d1 d2 -> wf_dict d1 -> dumps (JObj d1) = dumps (JObj d2).
Proof.
  intros Hp Hwf. cbn [dumps].
  match goal with
  | |- context [sort_items (map ?f d1)] =>
      rewrite (sort_items_perm (map f d1) (map f d2)); [reflexivity| |]
  end.
  - now apply Permutation_map.
  - rewrite map_map. unfold wf_dict, dict_keys in Hwf.
    erewrite map_ext; [exact Hwf|]. now intros [k x].
Qed.

(** Within one interpreter process, that is for one [hash], the key is a
    function of the fields of the event: two events with the same fields,
    inserted in whatever order, get the same key, on every branch; on the
    fallback branch this rests on [sort_keys=True], which makes the text
    that is hashed the same for both. *)
Theorem dedup_key_deterministic (e1 e2 : dict) :
  wf_dict e1 ->
  Permutation e1 e2 ->
  _dedup_key_for_event e1 = _dedup_key_for_event e2 /\
  dumps (JObj e1) = dumps (JObj e2) /\
  (py_str (get "channel" (JStr "") e1) <> "executionEvents" ->
   py_str (get "channel" (JStr "") e1) <> "orderEvents" ->
   _dedup_key_for_event e2
   = ("gmocoin:" ++ py_str (get "channel" (JStr "") e1) ++ ":"
        ++ str_int (hash (dumps (JObj e1))))%string).
Proof.
  intros Hwf Hp.
  assert (Hd : dumps (JObj e1) = dumps (JObj e2)) by now apply dumps_perm.
  assert (Hg : forall key default, get key default e1 = get key default e2).
  { intros. now apply get_perm. }
  assert (Hk : _dedup_key_for_event e1 = _dedup_key_for_event e2).
  { unfold _dedup_key_for_event. now rewrite !Hg, Hd. }
  repeat split; auto.
  intros H1 H2. rewrite <- Hk. unfold _dedup_key_for_event.
  destruct (String.eqb_spec (py_str (get "channel" (JStr "") e1)) "executionEvents");
    [contradiction|].
  destruct (String.eqb_spec (py_str (get "channel" (JStr "") e1)) "orderEvents");
    [contradiction|].
  reflexivity.
Qed.

End KeyFacts.

Lemma dedup_key_deterministic_witness :
  @Keys._dedup_key_for_event Samples.runtime Samples.position_event
  = @Keys._dedup_key_for_event Samples.runtime (rev Samples.position_event).
Proof.
  refine (proj1 (@dedup_key_deterministic Samples.runtime
                   Samples.position_event (rev Samples.position_event) _ _)).
  - unfold Json.wf_dict. cbn. repeat constructor; cbn; intuition discriminate.
  - apply Permutation_rev.
Defined.

(** C8 fails on the code on the fallback branch.  The key of an event of
    another channel ends in [hash(...)] of a [str], and CPython salts that
    hash anew in every interpreter process: the same position event, with
    the same serialisation, gets one key in one process and another key in
    the next.  The branches of the execution and order channels use no
    hash, and their keys are the same in both. *)
Lemma fallback_key_follows_the_hash_seed :
  @Keys._dedup_key_for_event Samples.runtime Samples.position_event
  = "gmocoin:positionEvents:43" /\
  @Keys._dedup_key_for_event Cases.runtime_reseeded Samples.position_event
  = "gmocoin:positionEvents:-44" /\
  @Json.dumps Samples.runtime (Json.JObj Samples.position_event)
  = @Json.dumps Cases.runtime_reseeded (Json.JObj Samples.position_event) /\
  @Keys._dedup_key_for_event Samples.runtime Samples.execution_event
  = @Keys._dedup_key_for_event Cases.runtime_reseeded Samples.execution_event.
Proof. repeat split; vm_compute; reflexivity. Qed.

(** * Facts about the receive loop *)

Section RecvFacts.
Import Json Keys Recv.
Context {rt : Runtime}.

Lemma trigger_keys_app a b : trigger_keys (a ++ b) = trigger_keys a ++ trigger_keys b.
Proof. apply flat_map_app. Qed.

Lemma trigger_keys_posts l : trigger_keys (map Post l) = [].
Proof. induction l as [|r l IH]; cbn; auto. Qed.

Lemma posts_app a b : posts (a ++ b) = posts a ++ posts b.
Proof. apply flat_map_app. Qed.

(** What a frame that passes does to the cache: the call that
    [dedup_call] names, or nothing. *)
Lemma recv_step_passes pd channels dedup f :
  passes channels f = true ->
  exists acts,
    recv_step pd channels dedup f
    = Continue
        (match dedup_call channels f with
         | Some (key, now) => snd (Dedup.seen_recently dedup key now)
         | None => dedup
         end) acts /\
    trigger_keys acts =
    match dedup_call channels f with
    | Some (key, now) =>
        if fst (Dedup.seen_recently dedup key now) then [] else [key]
    | None => []
    end.
Proof.
  unfold passes, recv_step, dedup_call. intros H. apply andb_prop in H as [Hs Hc].
  destruct (stop_is_set f); [discriminate|].
  destruct (json_loads (raw f)) as [[| | | | | |event]|]; try (eexists; split; reflexivity).
  destruct (in_channels _ channels) as [e|[|]]; [discriminate| |eexists; split; reflexivity].
  destruct (Dedup.seen_recently dedup _ (clock f)) as [[|] d1]; cbn [fst snd].
  - eexists; split; reflexivity.
  - destruct (PagerDuty.trigger _ _ _ _ _ _ _ _) as [reqs r].
    eexists; split; [reflexivity|].
    cbn. rewrite trigger_keys_app, trigger_keys_posts. now destruct r.
Qed.

Lemma recv_loop_cons_passes pd channels dedup f rest closing :
  passes channels f = true ->
  exists acts dedup1,
    recv_step pd channels dedup f = Continue dedup1 acts /\
    _recv_loop pd channels dedup (f :: rest) closing
    = (fst (fst (_recv_loop pd channels dedup1 rest closing)),
       snd (fst (_recv_loop pd channels dedup1 rest closing)),
       acts :: snd (_recv_loop pd channels dedup1 rest closing)).
Proof.
  intros Hp. destruct (recv_step_passes pd channels dedup f Hp) as (acts & Hstep & _).
  eexists _, _. split; [exact Hstep|]. cbn [_recv_loop]. rewrite Hstep.
  now destruct (_recv_loop pd channels _ rest closing) as [[e d] l].
Qed.

(** While every frame passes, the cache goes through exactly the calls of
    [dedup_calls], and the loop lists one batch of actions per frame. *)
Lemma recv_loop_passes pd channels dedup frames closing :
  forallb (passes channels) frames = true ->
  snd (fst (_recv_loop pd channels dedup frames closing))
  = snd (Dedup.run dedup (dedup_calls channels frames)) /\
  length (snd (_recv_loop pd channels dedup frames closing)) = length frames /\
  fst (fst (_recv_loop pd channels dedup frames closing))
  = match closing with None => EndOfStream | Some e => Raised e end.
Proof.
  revert dedup. induction frames as [|f frames IH]; intros dedup; cbn [forallb].
  - intros _. cbn. auto.
  - intros H. apply andb_prop in H as [Hf Hrest].
    destruct (recv_step_passes pd channels dedup f Hf) as (acts & Hstep & _).
    cbn [_recv_loop]. rewrite Hstep.
    specialize (IH (match dedup_call channels f with
                    | Some (key, now) => snd (Dedup.seen_recently dedup key now)
                    | None => dedup
                    end) Hrest).
    destruct (_recv_loop pd channels _ frames closing) as [[e d] l].
    cbn [fst snd length] in *. destruct IH as (IH1 & IH2 & IH3).
    split; [|split; [now rewrite IH2 | exact IH3]].
    rewrite IH1. cbn [dedup_calls flat_map].
    destruct (dedup_call channels f) as [[key now]|]; cbn [app Dedup.run]; [|reflexivity].
    destruct (Dedup.seen_recently dedup key now) as [b d1]. cbn [snd].
    now destruct (Dedup.run d1 _).
Qed.



Lemma recv_loop_app_passes pd channels dedup a b closing :
  forallb (passes channels) a = true ->
  exists la,
    length la = length a /\
    _recv_loop pd channels dedup (a ++ b) closing
    = (fst (fst (_recv_loop pd channels
                   (snd (Dedup.run dedup (dedup_calls channels a))) b closing)),
       snd (fst (_recv_loop pd channels
                   (snd (Dedup.run dedup (dedup_calls channels a))) b closing)),
       la ++ snd (_recv_loop pd channels
                    (snd (Dedup.run dedup (dedup_calls channels a))) b closing)).
Proof.
  revert dedup. induction a as [|f a IH]; intros dedup; cbn [forallb].
  - intros _. exists []. split; [reflexivity|]. cbn.
    now destruct (_recv_loop pd channels dedup b closing) as [[e d] l].
  - intros H. apply andb_prop in H as [Hf Ha].
    destruct (recv_step_passes pd channels dedup f Hf) as (acts & Hstep & _).
    cbn [app _recv_loop]. rewrite Hstep.
    destruct (IH (match dedup_call channels f with
                  | Some (key, now) => snd (Dedup.seen_recently dedup key now)
                  | None => dedup
                  end) Ha) as (la & Hlen & ->).
    exists (acts :: la). split; [cbn; now rewrite Hlen|].
    cbn [dedup_calls flat_map].
    destruct (dedup_call channels f) as [[key now]|]; cbn [app Dedup.run]; [|reflexivity].
    destruct (Dedup.seen_recently dedup key now) as [hit d1]. cbn [snd].
    now destruct (Dedup.run d1 _).
Qed.

(** The first of two frames with one key inserts the key and calls
    [trigger]; the second finds it, in its window, and does not. *)
Lemma first_of_two_triggers pd channels dedup f1 mid f2 closing k :
  0 < Dedup.max_keys dedup ->
  forallb (passes channels) (f1 :: mid ++ [f2]) = true ->
  dedup_call channels f1 = Some (k, clock f1) ->
  dedup_call channels f2 = Some (k, clock f2) ->
  Dedup.od_get k (Dedup.seen (Dedup._prune dedup (clock f1))) = None ->
  Forall (fun f => (clock f < clock f1 + inject_Z (Dedup.ttl_sec dedup))%Q)
    (mid ++ [f2]) ->
  ~ In k (Dedup.evictions (snd (Dedup.seen_recently dedup k (clock f1)))
            (dedup_calls channels mid)) ->
  exists l1 lmid l2,
    snd (_recv_loop pd channels dedup (f1 :: mid ++ [f2]) closing) = l1 :: lmid ++ [l2] /\
    length lmid = length mid /\
    trigger_keys l1 = [k] /\
    trigger_keys l2 = [].
Proof.
  intros Hmax Hpass Hc1 Hc2 Hmiss Hclk Hev.
  cbn [forallb] in Hpass. apply andb_prop in Hpass as [Hp1 Hpass].
  rewrite forallb_app in Hpass. apply andb_prop in Hpass as [Hpm Hp2].
  cbn [forallb] in Hp2. apply andb_prop in Hp2 as [Hp2 _].
  apply Forall_app in Hclk as [Hclkm Hclk2]. inversion Hclk2 as [|? ? Hnow2 _]; subst.
  destruct (recv_step_passes pd channels dedup f1 Hp1) as (l1 & Hstep1 & Hk1).
  rewrite Hc1 in Hstep1, Hk1.
  pose proof (seen_recently_miss dedup k (clock f1) Hmax Hmiss) as Hx. cbv zeta in Hx.
  destruct Hx as (Hsr & Hres).
  set (d1 := snd (Dedup.seen_recently dedup k (clock f1))) in *.
  assert (Hd1 : Dedup.od_get k (Dedup.seen d1) = Some (clock f1)).
  { subst d1. rewrite Hsr. exact Hres. }
  pose proof (seen_recently_params dedup k (clock f1)) as [Ht1 Hm1]. fold d1 in Ht1, Hm1.
  destruct (recv_loop_app_passes pd channels d1 mid [f2] closing Hpm) as (lmid & Hlen & Hloop).
  set (d2 := snd (Dedup.run d1 (dedup_calls channels mid))) in *.
  pose proof (run_params d1 (dedup_calls channels mid)) as [Ht2 Hm2]. fold d2 in Ht2, Hm2.
  assert (Hd2 : Dedup.od_get k (Dedup.seen d2) = Some (clock f1)).
  { subst d2. apply run_keeps; auto; [lia|]. rewrite Ht1.
    clear - Hclkm. induction mid as [|f mid IH]; cbn; [constructor|].
    inversion Hclkm; subst.
    destruct (dedup_call channels f) as [[key now]|] eqn:E; cbn; [|now apply IH].
    constructor; [|now apply IH]. cbn.
    unfold dedup_call in E. destruct (json_loads (raw f)) as [[| | | | | |ev]|]; try discriminate.
    destruct (in_channels _ _) as [|[|]]; try discriminate. now injection E as _ <-. }
  destruct (recv_step_passes pd channels d2 f2 Hp2) as (l2 & Hstep2 & Hk2).
  rewrite Hc2 in Hstep2, Hk2.
  rewrite (seen_recently_fresh_hit d2 k (clock f1)) in Hk2
    by (auto; rewrite Ht2, Ht1; exact Hnow2).
  exists l1, lmid, l2.
  cbn [_recv_loop]. rewrite Hstep1. fold d1. rewrite Hloop.
  cbn [_recv_loop]. rewrite Hstep2. cbn [fst snd].
  repeat split; auto.
  rewrite Hk1. subst d1. now rewrite Hsr.
Qed.

(** What the loop does guarantee.  Of two frames of the stream that the
    loop handles and that derive the same key [k], where the first does not
    find [k] in the cache, the frames between them and the second are handled
    less than [ttl_sec] after the first, and the capacity bound does not
    evict [k] in between, exactly one results in a [trigger] call: the
    first.  In particular the execution event of the scenario, delivered
    twice within one second to a fresh cache with [ttl_sec = 300], results
    in exactly one [trigger] call, with the key
    [gmocoin:executionEvents:O1:E1]. *)
Theorem one_alert_per_event_in_window :
  (forall pd channels dedup f1 mid f2 closing k,
      0 < Dedup.max_keys dedup ->
      forallb (passes channels) (f1 :: mid ++ [f2]) = true ->
      dedup_call channels f1 = Some (k, clock f1) ->
      dedup_call channels f2 = Some (k, clock f2) ->
      Dedup.od_get k (Dedup.seen (Dedup._prune dedup (clock f1))) = None ->
      Forall (fun f => (clock f < clock f1 + inject_Z (Dedup.ttl_sec dedup))%Q)
        (mid ++ [f2]) ->
      ~ In k (Dedup.evictions (snd (Dedup.seen_recently dedup k (clock f1)))
                (dedup_calls channels mid)) ->
      exists l1 lmid l2,
        snd (_recv_loop pd channels dedup (f1 :: mid ++ [f2]) closing)
        = l1 :: lmid ++ [l2] /\
        length lmid = length mid /\
        trigger_keys l1 = [k] /\
        trigger_keys l2 = []) /\
  (forall pd channels max dedup g1 g2 closing,
      Dedup.new 300 max = inr dedup ->
      In "executionEvents" channels ->
      stop_is_set g1 = false ->
      stop_is_set g2 = false ->
      json_loads (raw g1) = Some (JObj Samples.execution_event) ->
      json_loads (raw g2) = Some (JObj Samples.execution_event) ->
      (clock g2 <= clock g1 + 1)%Q ->
      map trigger_keys (snd (_recv_loop pd channels dedup [g1; g2] closing))
      = [["gmocoin:executionEvents:O1:E1"]; []]).
Proof.
  split; [exact first_of_two_triggers|].
  intros pd channels max dedup g1 g2 closing Hnew Hin Hs1 Hs2 Hj1 Hj2 Hclk.
  apply new_inr in Hnew as (_ & Hmax & ->).
  assert (Hch : existsb (String.eqb "executionEvents") channels = true).
  { apply existsb_exists. exists "executionEvents". split; [assumption|].
    apply String.eqb_refl. }
  assert (Hp : forall g, stop_is_set g = false ->
                         json_loads (raw g) = Some (JObj Samples.execution_event) ->
                         passes channels g = true /\
                         dedup_call channels g
                         = Some ("gmocoin:executionEvents:O1:E1", clock g)).
  { intros g Hs Hj. unfold passes, dedup_call. rewrite Hs, Hj.
    change (get "channel" JNull Samples.execution_event) with (JStr "executionEvents").
    cbn [in_channels]. rewrite Hch. split; reflexivity. }
  destruct (Hp g1 Hs1 Hj1) as [Hp1 Hc1]. destruct (Hp g2 Hs2 Hj2) as [Hp2 Hc2].
  destruct (first_of_two_triggers pd channels (Dedup.mkCache 300 max []) g1 [] g2 closing
              "gmocoin:executionEvents:O1:E1")
    as (l1 & lmid & l2 & Hloop & Hlen & Hk1 & Hk2); auto.
  - cbn. now rewrite Hp1, Hp2.
  - repeat constructor. cbn [Dedup.ttl_sec]. unfold inject_Z. lra.
  - destruct lmid; [|discriminate]. cbn [app] in Hloop. rewrite Hloop. cbn.
    now rewrite Hk1, Hk2.
Qed.

End RecvFacts.


Lemma one_alert_per_event_in_window_witness :
  exists l1 lmid l2,
    snd (@Recv._recv_loop Samples.runtime Samples.pd_live ["executionEvents"]
           (Dedup.mkCache 300 5000 [])
           (Samples.frame1 0 :: [Samples.frame2 (1 # 2)] ++ [Samples.frame1 1]) None)
    = l1 :: lmid ++ [l2] /\
    length lmid = 1%nat /\
    Recv.trigger_keys l1 = ["gmocoin:executionEvents:O1:E1"] /\
    Recv.trigger_keys l2 = [].
Proof.
  refine (proj1 (@one_alert_per_event_in_window Samples.runtime)
            Samples.pd_live ["executionEvents"] (Dedup.mkCache 300 5000 [])
            (Samples.frame1 0) [Samples.frame2 (1 # 2)] (Samples.frame1 1) None
            "gmocoin:executionEvents:O1:E1" eq_refl eq_refl eq_refl eq_refl eq_refl _ _).
  - repeat constructor.
  - vm_compute. tauto.
Defined.

(** The limits of that guarantee that are by design.  With [max_keys = 1] the key of
    the first execution is evicted by the second execution, and the first
    execution, delivered again one second after its first delivery, results
    in a second [trigger] call.  And of three deliveries of one event the
    last two, one second apart, result in no [trigger] call at all. *)
Lemma one_alert_per_event_counterexample :
  map Recv.trigger_keys
    (snd (@Recv._recv_loop Samples.runtime Samples.pd_live ["executionEvents"]
            (Dedup.mkCache 300 1 [])
            [Samples.frame1 0; Samples.frame2 (1 # 2); Samples.frame1 1] None))
  = [ ["gmocoin:executionEvents:O1:E1"]; ["gmocoin:executionEvents:O2:E2"];
      ["gmocoin:executionEvents:O1:E1"] ] /\
  map Recv.trigger_keys
    (snd (@Recv._recv_loop Samples.runtime Samples.pd_live ["executionEvents"]
            (Dedup.mkCache 300 5000 [])
            [Samples.frame1 0; Samples.frame1 1; Samples.frame1 2] None))
  = [ ["gmocoin:executionEvents:O1:E1"]; []; [] ].
Proof. split; vm_compute; reflexivity. Qed.

(** C1 fails on the code.  A key that was hit stays behind younger entries,
    where the pruning does not reach it; once its own window has elapsed a
    hit answers [False] and leaves the stamp as it is ([move_to_end] only),
    so until the entries in front of it expire every delivery of its event
    calls [trigger] again: here the deliveries at 12 and at 12.5, half a
    second apart, with [ttl_sec = 10] and no eviction.  The cache answers
    the same in binary64.  Where no younger entry is in front, the pruning
    removes the key, the delivery at 12 inserts it again with the stamp 12,
    and the delivery at 12.5 is suppressed. *)
Lemma stale_entry_triggers_again :
  map Recv.trigger_keys
    (snd (@Recv._recv_loop Samples.runtime Samples.pd_live ["executionEvents"]
            (Dedup.mkCache 10 5000 [])
            [ Samples.frame1 0; Samples.frame2 7; Samples.frame1 8;
              Samples.frame1 12; Samples.frame1 (25 # 2) ] None))
  = [ ["gmocoin:executionEvents:O1:E1"]; ["gmocoin:executionEvents:O2:E2"]; [];
      ["gmocoin:executionEvents:O1:E1"]; ["gmocoin:executionEvents:O1:E1"] ] /\
  fst (@DedupFloat.run Float.binary64 (Dedup.mkCache 10 5000 [])
         [ ("gmocoin:executionEvents:O1:E1", 0%Q);
           ("gmocoin:executionEvents:O2:E2", 7%Q);
           ("gmocoin:executionEvents:O1:E1", 8%Q);
           ("gmocoin:executionEvents:O1:E1", 12%Q);
           ("gmocoin:executionEvents:O1:E1", (25 # 2)%Q) ])
  = [inr false; inr false; inr true; inr false; inr false] /\
  map Recv.trigger_keys
    (snd (@Recv._recv_loop Samples.runtime Samples.pd_live ["executionEvents"]
            (Dedup.mkCache 10 5000 [])
            [ Samples.frame1 0; Samples.frame1 8;
              Samples.frame1 12; Samples.frame1 (25 # 2) ] None))
  = [ ["gmocoin:executionEvents:O1:E1"]; [];
      ["gmocoin:executionEvents:O1:E1"]; [] ].
Proof. repeat split; vm_compute; reflexivity. Qed.

(** * Evaluations on the samples *)

(** One cycle whose stream opens and then drops: the calls in order, and
    the exception of the receive task as the outcome. *)
Example run_once_stream_dropped :
  Supervisor._run_once Samples.cfg Samples.world_closed
  = ([ Supervisor.CreateWsToken;
       Supervisor.WsConnect "wss://api.coin.z.com/ws/private/v1/tok";
       Supervisor.WsSend
         [("command", Json.JStr "subscribe"); ("channel", Json.JStr "executionEvents")];
       Supervisor.RunTasks; Supervisor.WsClose; Supervisor.DeleteWsToken "tok";
       Supervisor.PdAclose; Supervisor.GmoAclose ],
     inl (TransportError "connection closed")).
Proof. reflexivity. Qed.

(** A refused connection: the token was created, so it is revoked. *)
Example run_once_connection_refused :
  Supervisor._run_once Samples.cfg Samples.world_refused
  = ([ Supervisor.CreateWsToken;
       Supervisor.WsConnect "wss://api.coin.z.com/ws/private/v1/tok";
       Supervisor.DeleteWsToken "tok"; Supervisor.PdAclose; Supervisor.GmoAclose ],
     inl (TransportError "connection refused")).
Proof. reflexivity. Qed.

(** A cycle that returns normally between failures puts the timeout back
    to the base. *)
Example runner_reset_after_success :
  fst (Supervisor._runner Samples.cfg
         [ Supervisor.mkCycle false Samples.world_refused;
           Supervisor.mkCycle false Samples.world_refused;
           Supervisor.mkCycle false Samples.world_quiet;
           Supervisor.mkCycle false Samples.world_refused;
           Supervisor.mkCycle true Samples.world_refused ])
  = [1; 2; 1].
Proof. reflexivity. Qed.

(** The constructor rejects a bound that is not positive. *)
Example new_rejects_zero_bound :
  Dedup.new 300 0 = inl (ValueError "max_keys must be > 0") /\
  Dedup.new 0 5 = inl (ValueError "ttl_sec must be > 0").
Proof. split; reflexivity. Qed.

(** At exactly [t + ttl] the answer depends on the position of the key: at
    the head it is pruned and inserted again, behind a younger entry it is
    a hit that still answers [true]. *)
Example boundary_of_the_window :
  fst (Dedup.run (Dedup.mkCache 10 5 []) [("a", 0%Q); ("a", 10%Q)]) = [false; false] /\
  fst (Dedup.run (Dedup.mkCache 10 5 []) [("a", 0%Q); ("b", 1%Q); ("a", 2%Q); ("a", 10%Q)])
  = [false; false; true; true].
Proof. split; vm_compute; reflexivity. Qed.

(** The text that is hashed on the fallback branch, members in the order
    of their keys. *)
Example dumps_sorts_members :
  @Json.dumps Samples.runtime
    (Json.JObj [("positionId", Json.JInt 7); ("channel", Json.JStr "positionEvents")])
  = @Json.dumps Samples.runtime (Json.JObj Samples.position_event).
Proof. vm_compute. reflexivity. Qed.

(** A well-formed object whose channel is a list makes the membership test
    raise, which ends the loop. *)
Example unhashable_channel :
  Recv.in_channels (Json.JArr []) ["executionEvents"] = inl (TypeError "unhashable type").
Proof. reflexivity. Qed.

(** * More facts about the cache *)

Section DedupMore.
Import Dedup.

Lemma run_entries_from_calls c calls e :
  In e (seen (snd (run c calls))) -> In e (seen c) \/ In e calls.
Proof.
  revert c. induction calls as [|[k now] calls IH]; intros c; cbn; [auto|].
  pose proof (seen_recently_entries c k now e) as H1.
  destruct (seen_recently c k now) as [b c1]. cbn in *.
  specialize (IH c1). destruct (run c1 calls) as [bs c2]. cbn in *.
  intros H. apply IH in H as [H|H]; [|auto].
  apply H1 in H as [H|H]; auto.
Qed.


(** The constructor accepts exactly the positive parameters; it checks
    [ttl_sec] first; what it builds is empty. *)
Lemma constructor_validates (ttl max : Z) :
  (is_ok (new ttl max) = true <-> 0 < ttl /\ 0 < max) /\
  (forall c, new ttl max = inr c -> c = mkCache ttl max []) /\
  (ttl <= 0 -> new ttl max = inl (ValueError "ttl_sec must be > 0")) /\
  (0 < ttl -> max <= 0 -> new ttl max = inl (ValueError "max_keys must be > 0")).
Proof.
  unfold new.
  destruct (Z.leb_spec ttl 0) as [Ht|Ht]; destruct (Z.leb_spec max 0) as [Hm|Hm]; cbn;
    repeat split; try discriminate; try lia; try reflexivity;
    try (intros c [= <-]; reflexivity); intros [? ?]; lia.
Qed.

(** X1.  Whatever calls were served since the constructor, the cache is a
    dictionary (no key twice), each resident entry is the key and the clock
    reading of one of those calls, and the two parameters are the ones of
    the constructor. *)
Theorem reachable_cache_records_calls (ttl max : Z) (c0 : DedupCache)
    (calls : list call) :
  new ttl max = inr c0 ->
  NoDup (keys (seen (snd (run c0 calls)))) /\
  (forall k ts, od_get k (seen (snd (run c0 calls))) = Some ts -> In (k, ts) calls) /\
  ttl_sec (snd (run c0 calls)) = ttl /\
  max_keys (snd (run c0 calls)) = max.
Proof.
  intros Hnew.
  destruct (run_from_new ttl max c0 calls Hnew) as (_ & _ & Ht & Hm & Hnd & _).
  repeat split; auto.
  intros k ts Hget. apply od_get_some_in in Hget.
  apply run_entries_from_calls in Hget as [H|H]; [|exact H].
  apply new_inr in Hnew as (_ & _ & ->). destruct H.
Qed.

Lemma reachable_cache_records_calls_witness :
  NoDup (keys (seen (snd (run (mkCache 300 2 [])
                            [("a", 0%Q); ("b", 1%Q); ("a", 2%Q); ("c", 3%Q)])))).
Proof.
  exact (proj1 (reachable_cache_records_calls 300 2 (mkCache 300 2 [])
                  [("a", 0%Q); ("b", 1%Q); ("a", 2%Q); ("c", 3%Q)] eq_refl)).
Defined.



End DedupMore.

(** * More facts about keys *)

Section KeysMore.
Import Json Keys.
Context {rt : Runtime}.

Lemma append_cancel_l (a x y : string) : (a ++ x = a ++ y)%string -> x = y.
Proof.
  induction a as [|ch a IH]; cbn; [auto|]. intros [= H]. now apply IH.
Qed.

(** A text without a colon, a colon, and a rest: the text and the rest
    can be read back. *)
Lemma split_at_colon (s1 s2 t1 t2 : string) :
  Text.has_char Text.colon s1 = false ->
  Text.has_char Text.colon s2 = false ->
  (s1 ++ ":" ++ t1 = s2 ++ ":" ++ t2)%string ->
  s1 = s2 /\ t1 = t2.
Proof.
  revert s2. induction s1 as [|a s1 IH]; intros [|b s2]; cbn [Text.has_char append].
  - intros _ _ [= H]. auto.
  - intros _ Hb [= <- _]. cbn in Hb. discriminate.
  - intros Ha _ [= -> _]. cbn in Ha. discriminate.
  - intros Ha Hb [= <- H].
    apply orb_false_elim in Ha as [_ Ha]. apply orb_false_elim in Hb as [_ Hb].
    destruct (IH s2 Ha Hb H) as [-> ->]. auto.
Qed.

(** X4.  Equal keys mean equal identifiers, as far as [str] tells them
    apart.  Two execution events whose keys are equal and whose order ids
    print without a colon have order ids and execution ids that print the
    same, and that are the same where both are JSON strings, which is how
    the exchange sends them; likewise two order events, for the order id,
    the status, the message type and the order timestamp.  Identifiers that
    print the same collide whatever their JSON type: see
    [keys_collide_across_types]. *)
Theorem keys_separate_events (e1 e2 : dict) :
  _dedup_key_for_event e1 = _dedup_key_for_event e2 ->
  (py_str (get "channel" (JStr "") e1) = "executionEvents" ->
   py_str (get "channel" (JStr "") e2) = "executionEvents" ->
   Text.has_char Text.colon (py_str (get "orderId" JNull e1)) = false ->
   Text.has_char Text.colon (py_str (get "orderId" JNull e2)) = false ->
   (py_str (get "orderId" JNull e1) = py_str (get "orderId" JNull e2) /\
    py_str (get "executionId" JNull e1) = py_str (get "executionId" JNull e2)) /\
   (forall f s1 s2,
       In f ["orderId"; "executionId"] ->
       get f JNull e1 = JStr s1 -> get f JNull e2 = JStr s2 ->
       get f JNull e1 = get f JNull e2)) /\
  (py_str (get "channel" (JStr "") e1) = "orderEvents" ->
   py_str (get "channel" (JStr "") e2) = "orderEvents" ->
   (forall f, In f ["orderId"; "orderStatus"; "msgType"] ->
              Text.has_char Text.colon (py_str (get f JNull e1)) = false /\
              Text.has_char Text.colon (py_str (get f JNull e2)) = false) ->
   (forall f, In f ["orderId"; "orderStatus"; "msgType"; "orderTimestamp"] ->
              py_str (get f JNull e1) = py_str (get f JNull e2)) /\
   (forall f s1 s2,
       In f ["orderId"; "orderStatus"; "msgType"; "orderTimestamp"] ->
       get f JNull e1 = JStr s1 -> get f JNull e2 = JStr s2 ->
       get f JNull e1 = get f JNull e2)).
Proof.
  intros Hkey. unfold _dedup_key_for_event in Hkey.
  assert (Hstr : forall f s1 s2,
             py_str (get f JNull e1) = py_str (get f JNull e2) ->
             get f JNull e1 = JStr s1 -> get f JNull e2 = JStr s2 ->
             get f JNull e1 = get f JNull e2).
  { intros f s1 s2 Hp H1 H2. rewrite H1, H2 in Hp |- *. cbn in Hp. now subst. }
  split.
  - intros H1 H2 Hc1 Hc2. rewrite H1, H2 in Hkey. cbn [String.eqb Ascii.eqb Bool.eqb] in Hkey.
    change ("gmocoin:" ++ "executionEvents" ++ ":" ++ ?x)%string
      with ("gmocoin:executionEvents:" ++ x)%string in Hkey.
    apply append_cancel_l in Hkey. apply split_at_colon in Hkey as [E1 E2]; auto.
    split; [auto|]. intros f s1 s2 Hf. apply Hstr.
    cbn in Hf. destruct Hf as [<-|[<-|[]]]; assumption.
  - intros H1 H2 Hc. rewrite H1, H2 in Hkey.
    cbn [String.eqb Ascii.eqb Bool.eqb] in Hkey.
    change ("gmocoin:" ++ "orderEvents" ++ ":" ++ ?x)%string
      with ("gmocoin:orderEvents:" ++ x)%string in Hkey.
    apply append_cancel_l in Hkey.
    destruct (Hc "orderId") as [A1 A2]; [cbn; auto|].
    destruct (Hc "orderStatus") as [B1 B2]; [cbn; auto|].
    destruct (Hc "msgType") as [C1 C2]; [cbn; auto|].
    apply split_at_colon in Hkey as [E1 Hkey]; auto.
    apply split_at_colon in Hkey as [E2 Hkey]; auto.
    apply split_at_colon in Hkey as [E3 E4]; auto.
    assert (Hall : forall f, In f ["orderId"; "orderStatus"; "msgType"; "orderTimestamp"] ->
                             py_str (get f JNull e1) = py_str (get f JNull e2)).
    { intros f Hf. cbn in Hf. destruct Hf as [<-|[<-|[<-|[<-|[]]]]]; assumption. }
    split; [exact Hall|]. intros f s1 s2 Hf. apply Hstr. now apply Hall.
Qed.

(** What [str] does not tell apart collides: the order ids [1] and ["1"],
    and a missing order id and the string ["None"]. *)
Lemma keys_collide_across_types :
  _dedup_key_for_event
    [("channel", JStr "executionEvents"); ("orderId", JInt 1); ("executionId", JStr "E1")]
  = _dedup_key_for_event
      [("channel", JStr "executionEvents"); ("orderId", JStr "1"); ("executionId", JStr "E1")] /\
  _dedup_key_for_event
    [("channel", JStr "executionEvents"); ("executionId", JStr "E1")]
  = _dedup_key_for_event
      [("channel", JStr "executionEvents"); ("orderId", JStr "None"); ("executionId", JStr "E1")].
Proof. split; reflexivity. Qed.

End KeysMore.

Lemma keys_separate_events_witness :
  Json.get "orderId" Json.JNull Samples.execution_event
  = Json.get "orderId" Json.JNull (("note", Json.JStr "x") :: Samples.execution_event) /\
  Json.get "executionId" Json.JNull Samples.execution_event
  = Json.get "executionId" Json.JNull (("note", Json.JStr "x") :: Samples.execution_event).
Proof.
  pose proof (proj2 (proj1 (@keys_separate_events Samples.runtime Samples.execution_event
                              (("note", Json.JStr "x") :: Samples.execution_event) eq_refl)
                       eq_refl eq_refl eq_refl eq_refl)) as H.
  split.
  - exact (H "orderId" "O1" "O1" (or_introl eq_refl) eq_refl eq_refl).
  - exact (H "executionId" "E1" "E1" (or_intror (or_introl eq_refl)) eq_refl eq_refl).
Defined.

(** * More facts about the receive loop *)

Section RecvMore.
Import Json Keys Recv.
Context {rt : Runtime}.



(** A frame that parses to an object whose channel is not subscribed. *)
Lemma recv_step_filtered pd channels dedup f event :
  stop_is_set f = false ->
  json_loads (raw f) = Some (JObj event) ->
  in_channels (get "channel" JNull event) channels = inr false ->
  recv_step pd channels dedup f = Continue dedup [].
Proof.
  intros Hs Hj Hc. unfold recv_step. now rewrite Hs, Hj, Hc.
Qed.

(** X6.  An event of a channel that is not subscribed (or without a channel,
    or whose channel is a number, a boolean or null) leaves no trace: with
    or without its frame the loop ends the same way, leaves the same cache
    and performs the same actions, log lines included, in the same order. *)
Theorem unsubscribed_event_leaves_no_trace (channels : list string) (f : frame)
    (event : dict) :
  stop_is_set f = false ->
  json_loads (raw f) = Some (JObj event) ->
  match get "channel" JNull event with
  | JStr s => ~ In s channels
  | JArr _ | JObj _ => False
  | _ => True
  end ->
  forall pd dedup pre post closing,
    fst (_recv_loop pd channels dedup (pre ++ f :: post) closing)
    = fst (_recv_loop pd channels dedup (pre ++ post) closing) /\
    concat (snd (_recv_loop pd channels dedup (pre ++ f :: post) closing))
    = concat (snd (_recv_loop pd channels dedup (pre ++ post) closing)).
Proof.
  intros Hs Hj Hch.
  assert (Hc : in_channels (get "channel" JNull event) channels = inr false).
  { destruct (get "channel" JNull event) as [| | | |s| |]; cbn; try reflexivity;
      try contradiction.
    destruct (existsb (String.eqb s) channels) eqn:E; [|reflexivity].
    apply existsb_exists in E as (x & Hin & Heq).
    apply String.eqb_eq in Heq. subst x. contradiction. }
  intros pd dedup pre. revert dedup.
  induction pre as [|g pre IH]; intros dedup post closing; cbn [app _recv_loop].
  - rewrite (recv_step_filtered pd channels dedup f event Hs Hj Hc).
    destruct (_recv_loop pd channels dedup post closing) as [[e d] l]. auto.
  - destruct (recv_step pd channels dedup g) as [|d1 acts|e]; auto.
    specialize (IH d1 post closing).
    destruct (_recv_loop pd channels d1 (pre ++ f :: post) closing) as [[e1 c1] l1].
    destruct (_recv_loop pd channels d1 (pre ++ post) closing) as [[e2 c2] l2].
    cbn [fst snd concat] in *. destruct IH as [IH1 IH2].
    injection IH1 as -> ->. now rewrite IH2.
Qed.

(** What one frame can do: at most one [trigger] call, and a request to
    the backend only with such a call and outside dry-run mode. *)
Lemma recv_step_bounds pd channels dedup f d1 acts :
  recv_step pd channels dedup f = Continue d1 acts ->
  (length (posts acts) <= length (trigger_keys acts) <= 1)%nat /\
  (PagerDuty.dry_run pd = true -> posts acts = []).
Proof.
  unfold recv_step. destruct (stop_is_set f); [discriminate|].
  destruct (json_loads (raw f)) as [[| | | | | |event]|];
    try (intros [= <- <-]; cbn; split; [lia | reflexivity]).
  destruct (in_channels _ channels) as [e|[|]]; [discriminate| |].
  2: { intros [= <- <-]; cbn; split; [lia | reflexivity]. }
  destruct (Dedup.seen_recently dedup _ (clock f)) as [[|] d2].
  { intros [= <- <-]; cbn; split; [lia | reflexivity]. }
  unfold PagerDuty.trigger. destruct (PagerDuty.dry_run pd).
  - intros [= <- <-]. cbn. split; [lia | reflexivity].
  - destruct (pd_backend f _) as [status text|e].
    + destruct (negb (status =? 202)); intros [= <- <-]; cbn;
        (split; [lia | discriminate]).
    + intros [= <- <-]. cbn. split; [lia | discriminate].
Qed.

(** X7.  Whatever the stream holds, the loop makes at most one [trigger]
    call per frame it takes and never a request to the backend without
    such a call; it lists at most one batch of actions per frame; and in
    dry-run mode it makes no request at all. *)
Theorem loop_calls_are_bounded (pd : PagerDuty.PagerDutyClient)
    (channels : list string) (dedup : Dedup.DedupCache) (frames : list frame)
    (closing : option exn) :
  Forall (fun acts => (length (posts acts) <= length (trigger_keys acts) <= 1)%nat)
    (snd (_recv_loop pd channels dedup frames closing)) /\
  (length (snd (_recv_loop pd channels dedup frames closing)) <= length frames)%nat /\
  (PagerDuty.dry_run pd = true ->
   flat_map posts (snd (_recv_loop pd channels dedup frames closing)) = []).
Proof.
  revert dedup. induction frames as [|f frames IH]; intros dedup; cbn [_recv_loop].
  - cbn. repeat split; auto.
  - destruct (recv_step pd channels dedup f) as [|d1 acts|e] eqn:Hstep.
    + cbn. repeat split; auto; try lia; repeat constructor; cbn; lia.
    + destruct (recv_step_bounds pd channels dedup f d1 acts Hstep) as [Hb Hd].
      specialize (IH d1).
      destruct (_recv_loop pd channels d1 frames closing) as [[e c] l].
      cbn [fst snd length flat_map] in *. destruct IH as (IH1 & IH2 & IH3).
      repeat split; [constructor; auto | lia |].
      intros Hdry. now rewrite (Hd Hdry), (IH3 Hdry).
    + cbn. repeat split; auto; try lia; repeat constructor; cbn; lia.
Qed.



End RecvMore.



Lemma unsubscribed_event_leaves_no_trace_witness :
  fst (@Recv._recv_loop Samples.runtime Samples.pd_live ["orderEvents"]
         (Dedup.mkCache 300 5000 [])
         ([Recv.mkFrame false "not json" 0%Q Samples.backend_ok]
            ++ Samples.frame1 1 :: [Samples.frame2 2]) None)
  = fst (@Recv._recv_loop Samples.runtime Samples.pd_live ["orderEvents"]
           (Dedup.mkCache 300 5000 [])
           ([Recv.mkFrame false "not json" 0%Q Samples.backend_ok]
              ++ [Samples.frame2 2]) None) /\
  concat (snd (@Recv._recv_loop Samples.runtime Samples.pd_live ["orderEvents"]
                 (Dedup.mkCache 300 5000 [])
                 ([Recv.mkFrame false "not json" 0%Q Samples.backend_ok]
                    ++ Samples.frame1 1 :: [Samples.frame2 2]) None))
  = concat (snd (@Recv._recv_loop Samples.runtime Samples.pd_live ["orderEvents"]
                   (Dedup.mkCache 300 5000 [])
                   ([Recv.mkFrame false "not json" 0%Q Samples.backend_ok]
                      ++ [Samples.frame2 2]) None)).
Proof.
  refine (@unsubscribed_event_leaves_no_trace Samples.runtime ["orderEvents"]
            (Samples.frame1 1) Samples.execution_event eq_refl eq_refl _
            Samples.pd_live (Dedup.mkCache 300 5000 [])
            [Recv.mkFrame false "not json" 0%Q Samples.backend_ok]
            [Samples.frame2 2] None).
  cbn. intros [H|[]]. discriminate H.
Defined.


(** * More facts about the paging client *)

Section PagerDutyMore.
Import Json PagerDuty.

(** X9.  Outside dry-run mode [trigger] and [resolve] with one key address
    one incident: each posts one request to the configured URL, with the
    configured routing key and that key; the [trigger] carries the summary,
    the source, the severity and the details as given, and of [component],
    [group] and [class] exactly those that were given and are not empty;
    the [resolve] carries no payload. *)
Theorem trigger_and_resolve_address_one_incident (self : PagerDutyClient)
    (be : backend) (key summary : string) (details : dict)
    (component group class_ : option string) :
  dry_run self = false ->
  exists rt rr payload,
    fst (trigger self be key summary details component group class_) = [rt] /\
    fst (resolve self be key) = [rr] /\
    req_url rt = events_api_url self /\ req_url rr = events_api_url self /\
    map (fun f => lookup f (req_body rt)) ["routing_key"; "event_action"; "dedup_key"; "payload"]
    = [Some (JStr (routing_key self)); Some (JStr "trigger"); Some (JStr key);
       Some (JObj payload)] /\
    map (fun f => lookup f (req_body rr)) ["routing_key"; "event_action"; "dedup_key"; "payload"]
    = [Some (JStr (routing_key self)); Some (JStr "resolve"); Some (JStr key); None] /\
    map (fun f => lookup f payload) ["summary"; "source"; "severity"; "custom_details"]
    = [Some (JStr summary); Some (JStr (source self)); Some (JStr (severity self));
       Some (JObj details)] /\
    map (fun f => lookup f payload) ["component"; "group"; "class"]
    = map (fun v : option string =>
             match v with
             | Some s => if String.eqb s "" then None else Some (JStr s)
             | None => None
             end) [component; group; class_] /\
    wf_dict payload /\ wf_dict (req_body rt) /\ wf_dict (req_body rr).
Proof.
  intros Hdry. unfold trigger, resolve. rewrite Hdry.
  set (payload := add_if_truthy "class" class_ _).
  exists (mkRequest (events_api_url self)
            [ ("routing_key", JStr (routing_key self)); ("event_action", JStr "trigger");
              ("dedup_key", JStr key); ("payload", JObj payload) ]),
    (mkRequest (events_api_url self)
       [ ("routing_key", JStr (routing_key self)); ("event_action", JStr "resolve");
         ("dedup_key", JStr key) ]),
    payload.
  split; [now destruct (be _) as [st tx|e]; [destruct (negb (st =? 202))|]|].
  split; [now destruct (be _) as [st tx|e]; [destruct (negb (st =? 202))|]|].
  subst payload. unfold add_if_truthy, wf_dict, dict_keys.
  destruct component as [c|]; [destruct (String.eqb c "") eqn:Ec|];
    (destruct group as [g|]; [destruct (String.eqb g "") eqn:Eg|]);
    (destruct class_ as [k|]; [destruct (String.eqb k "") eqn:Ek|]);
    cbn; rewrite ?Ec, ?Eg, ?Ek; repeat split;
    repeat (apply NoDup_cons; [cbn; intuition discriminate|]); apply NoDup_nil.
Qed.

Lemma trigger_and_resolve_address_one_incident_witness :
  exists rt rr payload,
    fst (trigger Samples.pd_live Samples.backend_ok "k" "s" [("a", JInt 1)]
           (Some "web") (Some "") None) = [rt] /\
    fst (resolve Samples.pd_live Samples.backend_ok "k") = [rr] /\
    req_url rt = events_api_url Samples.pd_live /\
    req_url rr = events_api_url Samples.pd_live /\
    map (fun f => lookup f (req_body rt)) ["routing_key"; "event_action"; "dedup_key"; "payload"]
    = [Some (JStr (routing_key Samples.pd_live)); Some (JStr "trigger"); Some (JStr "k");
       Some (JObj payload)] /\
    map (fun f => lookup f (req_body rr)) ["routing_key"; "event_action"; "dedup_key"; "payload"]
    = [Some (JStr (routing_key Samples.pd_live)); Some (JStr "resolve"); Some (JStr "k"); None] /\
    map (fun f => lookup f payload) ["summary"; "source"; "severity"; "custom_details"]
    = [Some (JStr "s"); Some (JStr (source Samples.pd_live));
       Some (JStr (severity Samples.pd_live)); Some (JObj [("a", JInt 1)])] /\
    map (fun f => lookup f payload) ["component"; "group"; "class"]
    = map (fun v : option string =>
             match v with
             | Some s => if String.eqb s "" then None else Some (JStr s)
             | None => None
             end) [Some "web"; Some ""; None] /\
    wf_dict payload /\ wf_dict (req_body rt) /\ wf_dict (req_body rr).
Proof.
  exact (trigger_and_resolve_address_one_incident Samples.pd_live Samples.backend_ok
           "k" "s" [("a", JInt 1)] (Some "web") (Some "") None eq_refl).
Defined.

End PagerDutyMore.

(** * Facts about the signed requests *)

Section GmoHttpFacts.
Import Json GmoHttp.
Context {rt : Runtime} {sg : Signer}.

Lemma hundreds_digit_is_two (status : Z) :
  (status / 100 =? 2) = true <-> 200 <= status < 300.
Proof.
  rewrite Z.eqb_eq.
  pose proof (Z.div_mod status 100 ltac:(lia)) as Hdm.
  pose proof (Z.mod_pos_bound status 100 ltac:(lia)) as Hb.
  lia.
Qed.

Lemma read_response_ok method path r v :
  read_response method path r = inr v <->
  exists resp,
    r = inr resp /\
    200 <= status_code resp < 300 /\
    ((content resp = "" /\ v = JNull) \/
     (content resp <> "" /\
      json_loads (content resp) = Some v /\
      forall d, v = JObj d -> is_none_or_zero (get "status" JNull d) = true)).
Proof.
  unfold read_response. destruct r as [e|resp].
  { split; [discriminate | intros (resp & [=] & _)]. }
  destruct (status_code resp / 100 =? 2) eqn:Hst; cbn [negb].
  2: { split; [discriminate|].
       intros (resp' & Hr & Hrange & _). injection Hr as <-.
       apply hundreds_digit_is_two in Hrange. congruence. }
  apply hundreds_digit_is_two in Hst.
  destruct (String.eqb_spec (content resp) "") as [Hc|Hc].
  { split.
    - intros [= <-]. exists resp. auto.
    - intros (resp' & Hr & _ & [[_ ->]|[Hne _]]); injection Hr as <-;
        [reflexivity | contradiction]. }
  destruct (json_loads (content resp)) as [data|] eqn:Hj.
  2: { split; [discriminate|].
       intros (resp' & Hr & _ & [[He _]|(_ & Hv & _)]); injection Hr as <-;
         [contradiction | congruence]. }
  assert (Hback : forall x : json,
             (exists resp',
                 inr resp = (inr resp' : result response) /\
                 200 <= status_code resp' < 300 /\
                 ((content resp' = "" /\ x = JNull) \/
                  (content resp' <> "" /\
                   json_loads (content resp') = Some x /\
                   forall d, x = JObj d ->
                             is_none_or_zero (get "status" JNull d) = true))) ->
             x = data /\
             forall d, x = JObj d -> is_none_or_zero (get "status" JNull d) = true).
  { intros x (resp' & Hr & _ & [[He _]|(_ & Hv & Hd)]); injection Hr as <-;
      [contradiction|]. split; [congruence | exact Hd]. }
  assert (Hforth : (forall d, data = JObj d ->
                              is_none_or_zero (get "status" JNull d) = true) ->
                   exists resp',
                     inr resp = (inr resp' : result response) /\
                     200 <= status_code resp' < 300 /\
                     ((content resp' = "" /\ data = JNull) \/
                      (content resp' <> "" /\
                       json_loads (content resp') = Some data /\
                       forall d, data = JObj d ->
                                 is_none_or_zero (get "status" JNull d) = true))).
  { intros Hd. exists resp. repeat split; try lia. right. auto. }
  destruct data as [| |n|bits|s|xs|d];
    try (split; [intros [= <-]; apply Hforth; intros d' Hd'; discriminate Hd'
                | intros H; apply Hback in H as [-> _]; reflexivity]).
  destruct (is_none_or_zero (get "status" JNull d)) eqn:Hz; cbn [negb].
  - split; [intros [= <-]; apply Hforth; now intros d' [= <-]
           | intros H; apply Hback in H as [-> _]; reflexivity].
  - split; [discriminate|]. intros H. apply Hback in H as [-> Hd].
    specialize (Hd d eq_refl). congruence.
Qed.

Lemma request_signed_ok_parts (self : GmoCoinPrivateClient) (tr : transport)
    (now : Q) (method path : string) (body : option dict) (include : bool) (v : json) :
  _request_signed self tr now method path body include = inr v <->
  exists resp,
    tr (signed_request self now method path body include) = inr resp /\
    200 <= status_code resp < 300 /\
    ((content resp = "" /\ v = JNull) \/
     (content resp <> "" /\
      json_loads (content resp) = Some v /\
      forall d, v = JObj d -> is_none_or_zero (get "status" JNull d) = true)).
Proof. unfold _request_signed. apply read_response_ok. Qed.

(** X10.  [_request_signed] returns a value exactly when the transport
    answers with a status from 200 to 299 and either an empty body, for
    which it returns [None], or a body that parses as JSON and, when it is
    an object, has no [status] member or one that is null or equal to 0.
    A transport exception, any other status, a body that is not JSON and
    an object with another [status] all make it raise. *)
Theorem request_signed_accepts (self : GmoCoinPrivateClient) (tr : transport)
    (now : Q) (method path : string) (body : option dict) (include : bool) (v : json) :
  _request_signed self tr now method path body include = inr v <->
  exists resp,
    tr (signed_request self now method path body include) = inr resp /\
    200 <= status_code resp < 300 /\
    ((content resp = "" /\ v = JNull) \/
     (content resp <> "" /\
      json_loads (content resp) = Some v /\
      forall d, v = JObj d -> is_none_or_zero (get "status" JNull d) = true)).
Proof. unfold _request_signed. apply read_response_ok. Qed.

(** X11.  The token operations over HTTP.  [create_ws_token] returns a token
    exactly when the answer to its [POST] is accepted and is an object
    whose [data] is a string that is not empty, and the token is that
    string; on an accepted answer with an empty body it raises
    [AttributeError] (the [None] has no [get]).  [extend_ws_token] and
    [delete_ws_token] return normally on every accepted answer, an empty
    body included.  The signature of the [PUT] and of the [DELETE] does not
    cover the body, so the headers, the signature among them, are the same
    for every token. *)
Theorem token_operations_over_http (self : GmoCoinPrivateClient) (tr : transport)
    (now : Q) :
  (forall token,
      Gmo.create_ws_token (exchange_of self tr now) = inr token <->
      exists resp d,
        tr (signed_request self now "POST" "/v1/ws-auth" (Some []) true) = inr resp /\
        200 <= status_code resp < 300 /\
        content resp <> "" /\
        json_loads (content resp) = Some (JObj d) /\
        is_none_or_zero (get "status" JNull d) = true /\
        get "data" JNull d = JStr token /\
        token <> "") /\
  (forall resp,
      tr (signed_request self now "POST" "/v1/ws-auth" (Some []) true) = inr resp ->
      200 <= status_code resp < 300 ->
      content resp = "" ->
      Gmo.create_ws_token (exchange_of self tr now)
      = inl (AttributeError "object has no attribute 'get'")) /\
  (forall token,
      (Gmo.extend_ws_token (exchange_of self tr now) token = inr tt <->
       exists v, _request_signed self tr now "PUT" "/v1/ws-auth"
                   (Some [("token", JStr token)]) false = inr v) /\
      (Gmo.delete_ws_token (exchange_of self tr now) token = inr tt <->
       exists v, _request_signed self tr now "DELETE" "/v1/ws-auth"
                   (Some [("token", JStr token)]) false = inr v)) /\
  (forall method path token token',
      req_headers (signed_request self now method path
                     (Some [("token", JStr token)]) false)
      = req_headers (signed_request self now method path
                       (Some [("token", JStr token')]) false)).
Proof.
  repeat split.
  - unfold Gmo.create_ws_token, exchange_of. cbv beta. simpl (String.eqb _ "POST").
    intros H.
    match type of H with
    | context [_request_signed ?a ?b ?c ?d ?e ?f ?g] =>
        destruct (_request_signed a b c d e f g) as [e0|v] eqn:Hrs; [discriminate H|]
    end.
    apply request_signed_ok_parts in Hrs.
    destruct v as [| | | | | |d]; try discriminate H.
    destruct Hrs as (resp & Htr & Hst & [[_ [=]]|(Hc & Hj & Hz)]).
    destruct (get "data" JNull d) as [| | | |data| |] eqn:Hd; try discriminate H.
    destruct (String.eqb_spec data "") as [|Hne]; [discriminate H|].
    injection H as <-. exists resp, d. repeat split; auto; lia.
  - intros (resp & d & Htr & Hst & Hc & Hj & Hz & Hd & Hne).
    unfold Gmo.create_ws_token, exchange_of. cbv beta. simpl (String.eqb _ "POST").
    match goal with
    | |- context [_request_signed ?a ?b ?c ?d0 ?e ?f ?g] =>
        assert (Hrs : _request_signed a b c d0 e f g = inr (JObj d))
    end.
    { apply request_signed_ok_parts. exists resp. repeat split; auto; try lia.
      right. repeat split; auto. now intros d' [= <-]. }
    rewrite Hrs, Hd. destruct (String.eqb_spec token ""); [contradiction | reflexivity].
  - intros resp Htr Hst Hc.
    unfold Gmo.create_ws_token, exchange_of. cbv beta. simpl (String.eqb _ "POST").
    match goal with
    | |- context [_request_signed ?a ?b ?c ?d0 ?e ?f ?g] =>
        assert (Hrs : _request_signed a b c d0 e f g = inr JNull)
    end.
    { apply request_signed_ok_parts. exists resp. repeat split; auto; lia. }
    now rewrite Hrs.
  - unfold Gmo.extend_ws_token, exchange_of. cbv beta. simpl (String.eqb _ "POST").
    destruct (_request_signed _ _ _ _ _ _ _); [discriminate | eauto].
  - unfold Gmo.extend_ws_token, exchange_of. cbv beta. simpl (String.eqb _ "POST").
    destruct (_request_signed _ _ _ _ _ _ _); [intros [v [=]] | reflexivity].
  - unfold Gmo.delete_ws_token, exchange_of. cbv beta. simpl (String.eqb _ "POST").
    destruct (_request_signed _ _ _ _ _ _ _); [discriminate | eauto].
  - unfold Gmo.delete_ws_token, exchange_of. cbv beta. simpl (String.eqb _ "POST").
    destruct (_request_signed _ _ _ _ _ _ _); [intros [v [=]] | reflexivity].
Qed.

End GmoHttpFacts.

(** * More facts about the supervisor *)

Section SupervisorMore.
Import Json Supervisor.

Lemma runner_loop_closed_form cfg b cycles i d :
  0 <= reconnect_backoff_max_sec cfg ->
  b <= reconnect_backoff_max_sec cfg ->
  forallb (fails cfg) cycles = true ->
  nth_error (fst (runner_loop cfg b cycles)) i = Some d ->
  d = Z.min (b * 2 ^ Z.of_nat i) (reconnect_backoff_max_sec cfg).
Proof.
  intros Hmax. revert b i. induction cycles as [|c cycles IH]; intros b i Hb; cbn [forallb].
  - cbn. destruct i; discriminate.
  - intros H. apply andb_prop in H as [Hc Hrest].
    rewrite runner_loop_fail by assumption. cbn [fst].
    destruct i as [|i]; cbn [nth_error].
    + intros [= <-]. cbn. lia.
    + intros Hn. apply IH in Hn; [|lia|assumption].
      rewrite Hn. rewrite Nat2Z.inj_succ, Z.pow_succ_r by lia.
      set (p := 2 ^ Z.of_nat i) in *.
      assert (Hp : 0 < p) by (subst p; apply Z.pow_pos_nonneg; lia).
      nia.
Qed.

Lemma runner_loop_length cfg b cycles :
  forallb (fails cfg) cycles = true ->
  length (fst (runner_loop cfg b cycles)) = length cycles.
Proof.
  revert b. induction cycles as [|c cycles IH]; intros b; cbn [forallb]; [reflexivity|].
  intros H. apply andb_prop in H as [Hc Hrest].
  rewrite runner_loop_fail by assumption. cbn. now rewrite IH.
Qed.

(** X12.  For any base and cap with [base <= max] and [0 <= max]: after [i]
    consecutive failures the loop sleeps with the timeout
    [min(base * 2^i, max)], one sleep per failed cycle; in particular with
    [base = 0] every timeout is 0: the loop never backs off. *)
Theorem backoff_closed_form (cfg : Config) (cycles : list cycle) :
  0 <= reconnect_backoff_max_sec cfg ->
  reconnect_backoff_base_sec cfg <= reconnect_backoff_max_sec cfg ->
  forallb (fails cfg) cycles = true ->
  length (fst (_runner cfg cycles)) = length cycles /\
  (forall i d,
      nth_error (fst (_runner cfg cycles)) i = Some d ->
      d = Z.min (reconnect_backoff_base_sec cfg * 2 ^ Z.of_nat i)
            (reconnect_backoff_max_sec cfg)) /\
  (reconnect_backoff_base_sec cfg = 0 ->
   fst (_runner cfg cycles) = repeat 0 (length cycles)).
Proof.
  intros Hmax Hbase Hall. unfold _runner.
  split; [now apply runner_loop_length|]. split.
  - intros i d. now apply runner_loop_closed_form.
  - intros H0. apply nth_error_ext. intros i.
    destruct (nth_error (fst (runner_loop cfg (reconnect_backoff_base_sec cfg) cycles)) i)
      as [d|] eqn:E.
    + pose proof (runner_loop_closed_form cfg _ cycles i d Hmax Hbase Hall E) as Hd.
      rewrite H0 in Hd. replace d with 0 by lia.
      symmetry. apply nth_error_repeat.
      assert (Hlt : nth_error (fst (runner_loop cfg (reconnect_backoff_base_sec cfg) cycles)) i
                    <> None) by congruence.
      apply nth_error_Some in Hlt. now rewrite runner_loop_length in Hlt.
    + symmetry. apply nth_error_None. rewrite repeat_length.
      apply nth_error_None in E. now rewrite runner_loop_length in E.
Qed.

Lemma subscribe_reading w channels :
  subscribe w channels
  = (map (fun ch => WsSend (Anatomy.subscribe_msg ch))
       (firstn (Anatomy.sends_performed w channels) channels),
     match Anatomy.first_send_error w channels with
     | Some e => inl e
     | None => inr tt
     end).
Proof.
  induction channels as [|ch channels IH]; [reflexivity|].
  cbn [subscribe Anatomy.sends_performed Anatomy.first_send_error].
  fold (Anatomy.subscribe_msg ch).
  destruct (send_r w (Anatomy.subscribe_msg ch)) as [e|[]]; [reflexivity|].
  unfold bind, perform. rewrite IH. reflexivity.
Qed.

Lemma preflight_reading cfg :
  Anatomy.preflight_error cfg = None <->
  0 < dedup_ttl_sec cfg /\ 0 < dedup_max_keys cfg /\ process_monitor_enabled cfg = false.
Proof.
  unfold Anatomy.preflight_error, Dedup.new.
  destruct (Z.leb_spec (dedup_ttl_sec cfg) 0); [split; [discriminate | lia]|].
  destruct (Z.leb_spec (dedup_max_keys cfg) 0); [split; [discriminate | lia]|].
  destruct (process_monitor_enabled cfg); split; try discriminate; auto.
  intros (_ & _ & [=]).
Qed.

(** One cycle read off as a list of calls and an outcome. *)
Lemma run_once_reading cfg w :
  Anatomy.preflight_error cfg = None ->
  _run_once cfg w
  = (match Gmo.create_ws_token (request_signed w) with
     | inl _ => CreateWsToken :: Anatomy.closes w
     | inr token =>
         CreateWsToken :: WsConnect (gmocoin_private_ws_base cfg ++ token)%string
           :: match connect_r w with
              | inl _ => []
              | inr _ =>
                  map (fun ch => WsSend (Anatomy.subscribe_msg ch))
                    (firstn (Anatomy.sends_performed w (alert_channels cfg))
                       (alert_channels cfg))
                  ++ match Anatomy.first_send_error w (alert_channels cfg) with
                     | Some _ => []
                     | None => [RunTasks]
                     end
                  ++ [WsClose]
              end
           ++ DeleteWsToken token :: Anatomy.closes w
     end,
     Anatomy.after_closes w (Anatomy.body_outcome cfg w)).
Proof.
  unfold Anatomy.preflight_error, _run_once.
  destruct (Dedup.new _ _); [discriminate|].
  destruct (process_monitor_enabled cfg); [discriminate|]. intros _.
  unfold run_body, Anatomy.body_outcome, Anatomy.after_closes, Anatomy.closes.
  destruct (Gmo.create_ws_token (request_signed w)) as [e|token] eqn:Hc.
  - unfold run_finally. cbn.
    destruct (pd_aclose_r w) as [e1|[]]; cbn; [reflexivity|].
    destruct (gmo_aclose_r w) as [e2|[]]; reflexivity.
  - unfold run_finally. rewrite (create_ws_token_nonempty _ _ Hc).
    unfold with_connection. destruct (connect_r w) as [e|[]].
    + cbn. destruct (pd_aclose_r w) as [e1|[]]; cbn; [reflexivity|].
      destruct (gmo_aclose_r w) as [e2|[]]; reflexivity.
    + rewrite subscribe_reading.
      destruct (Anatomy.first_send_error w (alert_channels cfg)) as [e|]; cbn;
        rewrite ?app_nil_r, <- ?app_assoc; cbn;
        destruct (pd_aclose_r w) as [e1|[]]; cbn;
        try destruct (gmo_aclose_r w) as [e2|[]]; cbn;
        try destruct (tasks_r w) as [e3|[]]; cbn;
        rewrite <- ?app_assoc; reflexivity.
Qed.

(** X13.  A configuration with a time-to-live or a capacity that is not
    positive, or with the process monitor enabled, makes every cycle raise
    before its first call to the outside: the constructor of the cache
    raises [ValueError], and the construction of the monitor reads a field
    that [Config] does not have.  The loop of [_runner] then only sleeps:
    once per turn, as long as the stop flag is clear. *)
Theorem cycle_fails_before_any_call (cfg : Config) :
  dedup_ttl_sec cfg <= 0 \/ dedup_max_keys cfg <= 0 \/ process_monitor_enabled cfg = true ->
  exists e,
    (forall w, _run_once cfg w = ([], inl e)) /\
    (forall cycles,
        forallb (fun c => negb (stop_at_head c)) cycles = true ->
        length (fst (_runner cfg cycles)) = length cycles).
Proof.
  intros Hbad.
  assert (He : exists e, forall w, _run_once cfg w = ([], inl e)).
  { unfold _run_once, Dedup.new.
    destruct (Z.leb_spec (dedup_ttl_sec cfg) 0); [eauto|].
    destruct (Z.leb_spec (dedup_max_keys cfg) 0); [eauto|].
    destruct (process_monitor_enabled cfg) eqn:E; [eauto|].
    exfalso. destruct Hbad as [H1|[H1|H1]]; [lia | lia | discriminate H1]. }
  destruct He as [e He]. exists e. split; [exact He|].
  intros cycles Hrun. unfold _runner. apply runner_loop_length.
  apply forallb_forall. intros c Hc.
  rewrite forallb_forall in Hrun. specialize (Hrun c Hc).
  unfold fails. rewrite Hrun, He. reflexivity.
Qed.

(** X14.  The calls of one cycle, in order.  The token is requested first.
    Without a token nothing else happens before the two [aclose].  With a
    token the connection to the stream base followed by the token is
    attempted; when it opens, the channels are subscribed in the order of
    the configuration up to the first [send] that raises, the tasks run
    only when every [send] returned, and the stream is closed; then,
    connected or not, the token is revoked, and the two [aclose] follow,
    the second only when the first returned. *)
Theorem cycle_calls_in_order (cfg : Config) (w : world) :
  Anatomy.preflight_error cfg = None ->
  (forall e,
      Gmo.create_ws_token (request_signed w) = inl e ->
      fst (_run_once cfg w) = CreateWsToken :: Anatomy.closes w) /\
  (forall token e,
      Gmo.create_ws_token (request_signed w) = inr token ->
      connect_r w = inl e ->
      fst (_run_once cfg w)
      = [CreateWsToken; WsConnect (gmocoin_private_ws_base cfg ++ token)%string;
         DeleteWsToken token] ++ Anatomy.closes w) /\
  (forall token,
      Gmo.create_ws_token (request_signed w) = inr token ->
      connect_r w = inr tt ->
      fst (_run_once cfg w)
      = [CreateWsToken; WsConnect (gmocoin_private_ws_base cfg ++ token)%string]
        ++ map (fun ch => WsSend (Anatomy.subscribe_msg ch))
             (firstn (Anatomy.sends_performed w (alert_channels cfg)) (alert_channels cfg))
        ++ match Anatomy.first_send_error w (alert_channels cfg) with
           | Some _ => []
           | None => [RunTasks]
           end
        ++ [WsClose; DeleteWsToken token] ++ Anatomy.closes w).
Proof.
  intros Hpre. rewrite (run_once_reading cfg w Hpre). cbn [fst].
  repeat split.
  - intros e ->. reflexivity.
  - intros token e -> ->. reflexivity.
  - intros token -> ->. cbn [app]. do 2 f_equal.
    destruct (Anatomy.first_send_error w (alert_channels cfg));
      rewrite <- !app_assoc; reflexivity.
Qed.

(** X15.  How one cycle ends.  The outcome is the first exception among token
    creation, connect, the sends and the completed task, unless an [aclose]
    raises: the exception of [pd.aclose], or else of [gmo.aclose], takes its
    place, and after an exception of [pd.aclose] the client of the exchange
    is not closed.  So the cycle returns normally exactly when every one of
    these steps does. *)
Theorem cycle_outcome (cfg : Config) (w : world) :
  Anatomy.preflight_error cfg = None ->
  snd (_run_once cfg w) = Anatomy.after_closes w (Anatomy.body_outcome cfg w) /\
  (is_ok (snd (_run_once cfg w)) = true <->
   is_ok (Gmo.create_ws_token (request_signed w)) = true /\
   is_ok (connect_r w) = true /\
   forallb (fun ch => is_ok (send_r w (Anatomy.subscribe_msg ch))) (alert_channels cfg) = true /\
   is_ok (tasks_r w) = true /\
   is_ok (pd_aclose_r w) = true /\
   is_ok (gmo_aclose_r w) = true) /\
  (forall e,
      pd_aclose_r w = inl e ->
      snd (_run_once cfg w) = inl e /\ ~ In GmoAclose (fst (_run_once cfg w))).
Proof.
  intros Hpre. rewrite (run_once_reading cfg w Hpre). cbn [fst snd].
  assert (Hsend : forall chs,
             Anatomy.first_send_error w chs = None <->
             forallb (fun ch => is_ok (send_r w (Anatomy.subscribe_msg ch))) chs = true).
  { induction chs as [|ch chs IH]; cbn; [tauto|].
    destruct (send_r w (Anatomy.subscribe_msg ch)); cbn; [split; discriminate | exact IH]. }
  split; [reflexivity|]. split.
  - unfold Anatomy.after_closes, Anatomy.body_outcome. rewrite <- Hsend.
    destruct (pd_aclose_r w), (gmo_aclose_r w),
      (Gmo.create_ws_token (request_signed w)), (connect_r w),
      (Anatomy.first_send_error w (alert_channels cfg)), (tasks_r w); cbn;
      intuition discriminate.
  - intros e He. unfold Anatomy.after_closes, Anatomy.closes. rewrite He. cbn [is_ok].
    split; [reflexivity|].
    destruct (Gmo.create_ws_token (request_signed w)) as [e1|token].
    + cbn. intuition discriminate.
    + intros [H|[H|H]]; try discriminate.
      apply in_app_or in H as [H|H].
      * destruct (connect_r w); [destruct H|].
        apply in_app_or in H as [H|H].
        -- apply in_map_iff in H as (ch & Hch & _). discriminate.
        -- apply in_app_or in H as [H|H].
           ++ destruct (Anatomy.first_send_error w (alert_channels cfg));
                cbn in H; intuition discriminate.
           ++ cbn in H. intuition discriminate.
      * cbn in H. intuition discriminate.
Qed.

Lemma runner_loop_sleeps cfg b cycles :
  forallb (fun c => negb (stop_at_head c)) cycles = true ->
  length (fst (runner_loop cfg b cycles)) = length (filter (fails cfg) cycles).
Proof.
  revert b. induction cycles as [|c cycles IH]; intros b; cbn [forallb]; [reflexivity|].
  intros H. apply andb_prop in H as [Hc Hrest].
  cbn [filter]. destruct (fails cfg c) eqn:Hf.
  - rewrite runner_loop_fail by assumption. cbn. now rewrite IH.
  - assert (Hs : succeeds cfg c = true).
    { unfold fails, succeeds in *. rewrite Hc in *. cbn in *.
      now destruct (is_ok _). }
    rewrite runner_loop_success by assumption. unfold _runner. now apply IH.
Qed.

(** X16.  The loop sleeps once for each cycle that raised and never after a
    cycle that returned: a stream that keeps ending without an exception is
    reconnected with no delay at all.  And the loop ends at the first turn
    that finds the stop flag set, whatever turns would follow. *)
Theorem runner_sleeps_only_after_failures (cfg : Config) :
  (forall cycles,
      forallb (fun c => negb (stop_at_head c)) cycles = true ->
      length (fst (_runner cfg cycles)) = length (filter (fails cfg) cycles)) /\
  (forall cycles,
      forallb (succeeds cfg) cycles = true ->
      _runner cfg cycles = ([], reconnect_backoff_base_sec cfg)) /\
  (forall pre c post,
      stop_at_head c = true ->
      _runner cfg (pre ++ c :: post) = _runner cfg pre).
Proof.
  repeat split.
  - intros cycles H. now apply runner_loop_sleeps.
  - unfold _runner. induction cycles as [|c cycles IH]; cbn [forallb]; [reflexivity|].
    intros H. apply andb_prop in H as [Hc Hrest].
    rewrite runner_loop_success by assumption. now apply IH.
  - intros pre c post Hstop. unfold _runner.
    generalize (reconnect_backoff_base_sec cfg).
    induction pre as [|p pre IH]; intros b; cbn [app runner_loop].
    + now rewrite Hstop.
    + destruct (stop_at_head p); [reflexivity|].
      destruct (snd (_run_once cfg (outside p))); now rewrite IH.
Qed.

End SupervisorMore.

(** * Facts about the token renewal loop *)

Section RenewalFacts.
Import Renewal.

(** X17.  The renewal loop ends only by the stop flag.  It calls
    [extend_ws_token] once in each turn before the first turn that finds the
    flag set, always with the token it was started with, whether the
    earlier calls raised or not; a call that raises leaves one exception
    in the log and nothing else. *)
Theorem renewal_survives_failures (token : string) (every_sec : Z)
    (ticks : list tick) :
  extend_calls (fst (_extend_token_loop token every_sec ticks))
  = repeat token (length (turns_before_stop ticks)) /\
  (snd (_extend_token_loop token every_sec ticks) = Returned <->
   existsb (fun t => stop_at_head t || stop_during_wait t) ticks = true) /\
  length (filter (fun a => match a with Exception _ => true | _ => false end)
            (fst (_extend_token_loop token every_sec ticks)))
  = length (filter (fun t => negb (is_ok (Gmo.extend_ws_token (exchange_now t) token)))
              (turns_before_stop ticks)).
Proof.
  induction ticks as [|t ticks (IH1 & IH2 & IH3)]; cbn [_extend_token_loop turns_before_stop existsb].
  - cbn. repeat split; discriminate.
  - destruct (stop_at_head t); cbn [orb]; [cbn; tauto|].
    destruct (stop_during_wait t); cbn [orb]; [cbn; tauto|].
    destruct (_extend_token_loop token every_sec ticks) as [acts e].
    cbn [fst snd] in *. cbn [extend_calls flat_map app length repeat filter].
    fold (extend_calls acts).
    destruct (Gmo.extend_ws_token (exchange_now t) token) as [x|[]];
      cbn [extend_calls flat_map app is_ok negb length filter];
      fold (extend_calls acts); rewrite IH1, IH3; repeat split; tauto.
Qed.

End RenewalFacts.

(** * Facts about the process monitor *)

Section MonitorFacts.
Import Json Monitor.
Context {rt : Runtime}.

Lemma pd_calls_app a b : pd_calls (a ++ b) = pd_calls a ++ pd_calls b.
Proof. apply flat_map_app. Qed.

Lemma pd_keys_app a b : pd_keys (a ++ b) = pd_keys a ++ pd_keys b.
Proof. apply flat_map_app. Qed.

Lemma pd_calls_posts l : pd_calls (map Post l) = [] /\ pd_keys (map Post l) = [].
Proof. induction l as [|r l [IH1 IH2]]; cbn; auto. Qed.

Lemma send_completion_calls self pd t :
  pd_calls (fst (_send_completion_notification self pd t)) = [true] /\
  pd_keys (fst (_send_completion_notification self pd t)) = [_dedup_key].
Proof.
  unfold _send_completion_notification.
  destruct (PagerDuty.trigger _ _ _ _ _ _ _ _) as [posts r]. cbn [fst].
  cbn [pd_calls pd_keys flat_map app].
  fold (pd_calls (map Post posts ++ [match r with
       | inr _ => Info ("PagerDuty notification sent: " ++ completion_summary self)%string
       | inl e => Exception ("Failed to send PagerDuty notification: " ++ exn_msg e)%string
       end])).
  fold (pd_keys (map Post posts ++ [match r with
       | inr _ => Info ("PagerDuty notification sent: " ++ completion_summary self)%string
       | inl e => Exception ("Failed to send PagerDuty notification: " ++ exn_msg e)%string
       end])).
  rewrite pd_calls_app, pd_keys_app.
  destruct (pd_calls_posts posts) as [-> ->]. now destruct r.
Qed.

Lemma resolve_incident_calls pd t :
  pd_calls (_resolve_incident pd t) = [false] /\
  pd_keys (_resolve_incident pd t) = [_dedup_key].
Proof.
  unfold _resolve_incident.
  destruct (PagerDuty.resolve _ _ _) as [posts r].
  cbn [pd_calls pd_keys flat_map app].
  fold (pd_calls (map Post posts ++ [match r with
       | inr _ => Info "PagerDuty incident resolved: ML job processes have restarted"
       | inl e => Exception ("Failed to resolve PagerDuty incident: " ++ exn_msg e)%string
       end])).
  fold (pd_keys (map Post posts ++ [match r with
       | inr _ => Info "PagerDuty incident resolved: ML job processes have restarted"
       | inl e => Exception ("Failed to resolve PagerDuty incident: " ++ exn_msg e)%string
       end])).
  rewrite pd_calls_app, pd_keys_app.
  destruct (pd_calls_posts posts) as [-> ->]. now destruct r.
Qed.

(** One turn makes no call to the paging client and keeps the flag, or it
    makes the one call that the flag allows and, unless that call was a
    [trigger] that raised, flips the flag. *)
Lemma monitor_step_calls self pd st t :
  let '(st1, acts, r) := monitor_step self pd st t in
  Forall (eq _dedup_key) (pd_keys acts) /\
  ((pd_calls acts = [] /\ has_notified st1 = has_notified st /\ r = inr tt) \/
   (pd_calls acts = [negb (has_notified st)] /\
    (is_ok r = true -> has_notified st1 = negb (has_notified st)))).
Proof.
  unfold monitor_step. destruct (processes t) as [|p ps].
  - destruct (last_seen_time st) as [seen|]; [|cbn; auto].
    destruct (Qle_bool _ _ && negb (has_notified st)) eqn:E; [|cbn; auto].
    apply andb_prop in E as [_ E]. destruct (has_notified st); [discriminate|].
    pose proof (send_completion_calls self pd t) as [H1 H2].
    destruct (_send_completion_notification self pd t) as [acts r]. cbn [fst] in *.
    destruct r as [e|[]]; rewrite H2; split; auto; right; split; auto;
      cbn; discriminate.
  - destruct (last_seen_time st) as [seen|].
    + cbn. auto.
    + destruct (has_notified st) eqn:E.
      * pose proof (resolve_incident_calls pd t) as [H1 H2].
        rewrite pd_keys_app, pd_calls_app. cbn [pd_keys pd_calls flat_map app].
        fold (pd_keys (_resolve_incident pd t)). fold (pd_calls (_resolve_incident pd t)).
        rewrite H1, H2. cbn. split; auto.
      * cbn. rewrite E. auto.
Qed.

Lemma monitor_turns_calls self pd st ticks :
  let '(st1, acts, e) := monitor_turns self pd st ticks in
  Forall (eq _dedup_key) (pd_keys acts) /\
  pd_calls acts = alternating (negb (has_notified st)) (length (pd_calls acts)).
Proof.
  revert st. induction ticks as [|t ticks IH]; intros st; cbn [monitor_turns].
  - cbn. auto.
  - destruct (stop_at_head t); [cbn; auto|].
    destruct (stop_during_wait t); [cbn; auto|].
    pose proof (monitor_step_calls self pd st t) as Hstep.
    destruct (monitor_step self pd st t) as [[st1 acts] r].
    destruct Hstep as [Hkeys Hcalls].
    destruct r as [e|[]].
    + split; [exact Hkeys|].
      destruct Hcalls as [(_ & _ & [=])|[-> _]]. reflexivity.
    + specialize (IH st1).
      destruct (monitor_turns self pd st1 ticks) as [[st2 acts2] e].
      destruct IH as [IHk IHc].
      rewrite pd_keys_app, pd_calls_app. split; [now apply Forall_app|].
      destruct Hcalls as [(-> & Hn & _)|[-> Hn]].
      * cbn [app]. now rewrite <- Hn.
      * cbn [app length alternating]. f_equal.
        rewrite <- (Hn eq_refl). exact IHc.
Qed.

(** X18.  The monitor opens and resolves one incident in turn: in every
    run of [monitor_loop] the calls to the paging client are a [trigger],
    then a [resolve], then a [trigger], and so on, all with the key
    [ml-job-monitoring]. *)
Theorem monitor_calls_alternate (self : ProcessMonitor)
    (pd : PagerDuty.PagerDutyClient) (ticks : list tick) :
  pd_calls (snd (fst (monitor_loop self pd ticks)))
  = alternating true (length (pd_calls (snd (fst (monitor_loop self pd ticks))))) /\
  Forall (eq "ml-job-monitoring") (pd_keys (snd (fst (monitor_loop self pd ticks)))).
Proof.
  unfold monitor_loop.
  pose proof (monitor_turns_calls self pd initial ticks) as H.
  destruct (monitor_turns self pd initial ticks) as [[st acts] e].
  cbn [fst snd pd_calls pd_keys flat_map app].
  fold (pd_calls acts). fold (pd_keys acts). destruct H as [Hk Hc]. split; assumption.
Qed.

(** The clock reading in [_last_seen_time] is the one of a turn that found
    processes. *)
Lemma last_seen_origin self pd st pre st1 acts s :
  monitor_turns self pd st pre = (st1, acts, Running) ->
  last_seen_time st1 = Some s ->
  last_seen_time st = Some s \/
  exists t0, In t0 pre /\ processes t0 <> [] /\ now t0 = s.
Proof.
  revert st acts. induction pre as [|t pre IH]; intros st acts; cbn [monitor_turns].
  - intros [= <- _]. auto.
  - destruct (stop_at_head t); [discriminate|].
    destruct (stop_during_wait t); [discriminate|].
    destruct (monitor_step self pd st t) as [[st2 acts2] r] eqn:Hstep.
    destruct r as [e|[]]; [discriminate|].
    destruct (monitor_turns self pd st2 pre) as [[st3 acts3] e3] eqn:Hrest.
    intros [= <- _ ->] Hs.
    destruct (IH st2 acts3 Hrest Hs) as [H|(t0 & Hin & Hp & Hn)].
    + unfold monitor_step in Hstep. destruct (processes t) as [|p ps] eqn:Hps.
      * destruct (last_seen_time st) as [seen|] eqn:Hl.
        -- destruct (Qle_bool _ _ && negb (has_notified st)).
           ++ destruct (_send_completion_notification self pd t) as [a [e|[]]];
                injection Hstep as <- _; [|discriminate H].
              left. congruence.
           ++ injection Hstep as <- _. left. congruence.
        -- injection Hstep as <- _. left. congruence.
      * right. exists t. split; [now left|]. split; [rewrite Hps; discriminate|].
        destruct (last_seen_time st); [|destruct (has_notified st)];
          injection Hstep as <- _; cbn in H; congruence.
    + right. exists t0. split; [now right | auto].
Qed.

(** X19.  The completion notice needs a sighting and a silence: in a run of
    [monitor_loop], a turn calls [trigger] only when it finds no process,
    at least [idle_threshold_sec] after the clock reading of an earlier turn
    that found some, and no notice is pending; a run whose turns all find
    processes, or all find none, makes no call to the paging client. *)
Theorem notice_needs_sighting_and_silence (self : ProcessMonitor)
    (pd : PagerDuty.PagerDutyClient) :
  (forall pre t st acts,
      monitor_turns self pd initial pre = (st, acts, Running) ->
      In true (pd_calls (snd (fst (monitor_step self pd st t)))) ->
      processes t = [] /\
      has_notified st = false /\
      exists t0,
        In t0 pre /\ processes t0 <> [] /\
        (inject_Z (idle_threshold_sec self) <= now t - now t0)%Q) /\
  (forall ticks,
      (Forall (fun t => processes t = []) ticks \/
       Forall (fun t => processes t <> []) ticks) ->
      pd_calls (snd (fst (monitor_loop self pd ticks))) = []).
Proof.
  split.
  - intros pre t st acts Hrun Hin.
    unfold monitor_step in Hin. destruct (processes t) as [|p ps] eqn:Hps.
    + destruct (last_seen_time st) as [seen|] eqn:Hl; [|destruct Hin].
      destruct (Qle_bool _ _ && negb (has_notified st)) eqn:E; [|destruct Hin].
      apply andb_prop in E as [E1 E2]. apply Qle_bool_iff in E1.
      split; [reflexivity|]. split; [now destruct (has_notified st)|].
      destruct (last_seen_origin self pd initial pre st acts seen Hrun Hl)
        as [H|(t0 & Hin0 & Hp & Hn)]; [discriminate H|].
      exists t0. subst seen. auto.
    + exfalso.
      destruct (last_seen_time st); [destruct Hin|].
      destruct (has_notified st).
      * cbn [fst snd] in Hin. rewrite pd_calls_app in Hin.
        cbn [pd_calls flat_map app] in Hin. fold (pd_calls (_resolve_incident pd t)) in Hin.
        destruct (resolve_incident_calls pd t) as [Hr _]. rewrite Hr in Hin.
        cbn in Hin. intuition discriminate.
      * destruct Hin.
  - intros ticks Hall. unfold monitor_loop.
    assert (H : forall st,
               (Forall (fun t => processes t = []) ticks /\ last_seen_time st = None) \/
               (Forall (fun t => processes t <> []) ticks /\ has_notified st = false) ->
               pd_calls (snd (fst (monitor_turns self pd st ticks))) = []).
    { clear Hall. induction ticks as [|t ticks IH]; intros st Hst; [reflexivity|].
      cbn [monitor_turns].
      destruct (stop_at_head t); [reflexivity|].
      destruct (stop_during_wait t); [reflexivity|].
      unfold monitor_step.
      destruct Hst as [[Hall Hl]|[Hall Hn]]; inversion Hall as [|? ? Ht Hrest]; subst.
      - rewrite Ht, Hl. specialize (IH st (or_introl (conj Hrest Hl))).
        destruct (monitor_turns self pd st ticks) as [[st2 a2] e2]. exact IH.
      - destruct (processes t) as [|p ps]; [contradiction|]. rewrite Hn.
        destruct (last_seen_time st) as [seen|].
        + specialize (IH (mkState (Some (now t)) (has_notified st))
                        (or_intror (conj Hrest Hn))).
          destruct (monitor_turns self pd _ ticks) as [[st2 a2] e2]. exact IH.
        + specialize (IH (mkState (Some (now t)) (has_notified st))
                        (or_intror (conj Hrest Hn))).
          destruct (monitor_turns self pd _ ticks) as [[st2 a2] e2]. exact IH. }
    specialize (H initial).
    destruct (monitor_turns self pd initial ticks) as [[st acts] e].
    cbn [fst snd pd_calls flat_map app] in *. fold (pd_calls acts). apply H.
    destruct Hall; auto.
Qed.

(** X20.  The two notifications fail differently.  A [trigger] that raises
    ends [monitor_loop] with that exception and leaves the state as it was.
    A [resolve] that raises is logged only: after a turn that finds
    processes the loop goes on, the processes count as seen at that turn,
    and, when none had been seen, no notice counts as pending any more,
    whatever the backend answered. *)
Theorem monitor_failures (self : ProcessMonitor) (pd : PagerDuty.PagerDutyClient)
    (st : state) (t : tick) (rest : list tick) :
  stop_at_head t = false ->
  stop_during_wait t = false ->
  (forall e,
      snd (monitor_step self pd st t) = inl e ->
      monitor_turns self pd st (t :: rest)
      = (st, snd (fst (monitor_step self pd st t)), Raised e) /\
      snd (PagerDuty.trigger pd (pd_backend t) _dedup_key (completion_summary self)
             [ ("event_type", JStr "ml_job_completion");
               ("pattern", JStr (pattern self));
               ("idle_threshold_sec", JInt (idle_threshold_sec self));
               ("completion_time", JStr (completion_time t)) ] None None None)
      = inl e) /\
  (processes t <> [] ->
   snd (monitor_step self pd st t) = inr tt /\
   last_seen_time (fst (fst (monitor_step self pd st t))) = Some (now t) /\
   (last_seen_time st = None ->
    has_notified (fst (fst (monitor_step self pd st t))) = false)).
Proof.
  intros Hs1 Hs2. split.
  - intros e He. cbn [monitor_turns]. rewrite Hs1, Hs2.
    unfold monitor_step in *. destruct (processes t) as [|p ps].
    + destruct (last_seen_time st) as [seen|]; [|discriminate He].
      destruct (Qle_bool _ _ && negb (has_notified st)); [|discriminate He].
      unfold _send_completion_notification in *.
      destruct (PagerDuty.trigger _ _ _ _ _ _ _ _) as [posts [x|[]]];
        cbn [fst snd] in *; [|discriminate He].
      injection He as <-. auto.
    + destruct (last_seen_time st); [|destruct (has_notified st)]; discriminate He.
  - intros Hp. unfold monitor_step. destruct (processes t) as [|p ps]; [contradiction|].
    destruct (last_seen_time st); [|destruct (has_notified st) eqn:Hn]; cbn;
      repeat split; auto; intros H; try discriminate H; exact Hn.
Qed.

End MonitorFacts.

(** * Facts about the loader of the configuration *)

Section SettingsFacts.
Import Json Settings.
Context {rt : Runtime} {so : StrOps}.

Lemma rstrip_char_spec c s :
  exists tail,
    s = (Text.rstrip_char c s ++ tail)%string /\
    Forall (eq c) (list_ascii_of_string tail) /\
    Text.last_char (Text.rstrip_char c s) <> Some c.
Proof.
  induction s as [|a s (tail & Hs & Hall & Hlast)].
  - exists EmptyString. cbn. repeat split; [constructor | discriminate].
  - cbn [Text.rstrip_char]. destruct (Text.rstrip_char c s) as [|b r] eqn:E.
    + cbn in Hs. subst s. destruct (Ascii.eqb_spec a c) as [->|Hne].
      * exists (String c tail). cbn. repeat split; [now constructor | discriminate].
      * exists tail. cbn. repeat split; [assumption | congruence].
    + exists tail. cbn [append]. rewrite Hs at 1. repeat split; assumption.
Qed.

Lemma parse_channels_spec raw :
  Forall (fun c => c <> "" /\
                   exists x, In x (Text.split_char Text.comma raw) /\ c = str_strip x)
    (parse_channels raw).
Proof.
  unfold parse_channels. apply Forall_forall. intros c Hc.
  apply in_map_iff in Hc as (x & <- & Hx). apply filter_In in Hx as [Hx Hne].
  split; [|eauto]. intros E. rewrite E in Hne. discriminate Hne.
Qed.

Lemma getenv_required_spec env name v :
  _getenv_required env name = inr v -> env name = Some v /\ str_strip v <> "".
Proof.
  unfold _getenv_required. destruct (env name) as [val|]; [|discriminate].
  destruct (String.eqb_spec (str_strip val) ""); [discriminate|].
  intros [= <-]. auto.
Qed.

Lemma load_config_fields env cfg :
  load_config env = inr cfg ->
  parse_channels (getenv env "ALERT_CHANNELS" "executionEvents") = alert_channels cfg /\
  alert_channels cfg <> [] /\
  _getenv_required env "GMOCOIN_API_KEY" = inr (gmocoin_api_key cfg) /\
  _getenv_required env "GMOCOIN_API_SECRET" = inr (gmocoin_api_secret cfg) /\
  _getenv_required env "PAGERDUTY_ROUTING_KEY" = inr (pagerduty_routing_key cfg) /\
  gmocoin_private_api_base cfg
  = Text.rstrip_char Text.slash
      (getenv env "GMOCOIN_PRIVATE_API_BASE" "https://api.coin.z.com/private") /\
  gmocoin_private_ws_base cfg
  = (Text.rstrip_char Text.slash
       (getenv env "GMOCOIN_PRIVATE_WS_BASE" "wss://api.coin.z.com/ws/private/v1/")
     ++ "/")%string /\
  pagerduty_events_api_url cfg
  = Text.rstrip_char Text.slash
      (getenv env "PAGERDUTY_EVENTS_API_URL" "https://events.pagerduty.com/v2/enqueue").
Proof.
  unfold load_config.
  destruct (parse_channels (getenv env "ALERT_CHANNELS" "executionEvents")) as [|ch chs];
    [discriminate|].
  unfold bindr. intros H.
  repeat match type of H with
         | match ?r with inl _ => _ | inr _ => _ end = _ =>
             destruct r eqn:?; [discriminate H|]
         end.
  injection H as <-. cbn. repeat split; auto. discriminate.
Qed.

(** X21.  What a configuration that [load_config] returns is known to
    satisfy: there is at least one channel, each the stripped, non-empty
    form of a comma-separated piece of [ALERT_CHANNELS]; the three required
    variables are set, non-blank, and returned as they are (not stripped);
    the base of the API and the URL of the events end in no slash; and the
    base of the stream ends in exactly one. *)
Theorem loaded_config_is_normalised (env : environ) (cfg : Config) :
  load_config env = inr cfg ->
  (alert_channels cfg <> [] /\
   Forall (fun c => c <> "" /\
                    exists x,
                      In x (Text.split_char Text.comma
                              (getenv env "ALERT_CHANNELS" "executionEvents")) /\
                      c = str_strip x)
     (alert_channels cfg)) /\
  (forall name v,
      In (name, v) [ ("GMOCOIN_API_KEY", gmocoin_api_key cfg);
                     ("GMOCOIN_API_SECRET", gmocoin_api_secret cfg);
                     ("PAGERDUTY_ROUTING_KEY", pagerduty_routing_key cfg) ] ->
      env name = Some v /\ str_strip v <> "") /\
  Text.last_char (gmocoin_private_api_base cfg) <> Some Text.slash /\
  Text.last_char (pagerduty_events_api_url cfg) <> Some Text.slash /\
  (exists b,
      gmocoin_private_ws_base cfg = (b ++ "/")%string /\
      Text.last_char b <> Some Text.slash).
Proof.
  intros H. apply load_config_fields in H
    as (Hch & Hne & Hk & Hs & Hr & Hapi & Hws & Hev).
  split; [split; [exact Hne | rewrite <- Hch; apply parse_channels_spec]|].
  split.
  - intros name v [[= <- <-]|[[= <- <-]|[[= <- <-]|[]]]];
      now apply getenv_required_spec.
  - assert (Hlast : forall s,
               Text.last_char (Text.rstrip_char Text.slash s) <> Some Text.slash).
    { intros s. destruct (rstrip_char_spec Text.slash s) as (tail & _ & _ & Hl).
      exact Hl. }
    rewrite Hapi, Hev, Hws. split; [apply Hlast|]. split; [apply Hlast|].
    eexists. split; [reflexivity | apply Hlast].
Qed.

Lemma getenv_setenv_other env k v name d :
  String.eqb name k = false -> getenv (setenv env k v) name d = getenv env name d.
Proof. intros H. unfold getenv, setenv. now rewrite H. Qed.

Lemma required_setenv_other env k v name :
  String.eqb name k = false ->
  _getenv_required (setenv env k v) name = _getenv_required env name.
Proof. intros H. unfold _getenv_required, setenv. now rewrite H. Qed.

Lemma int_setenv_other env k v name d :
  String.eqb name k = false ->
  _getenv_int (setenv env k v) name d = _getenv_int env name d.
Proof. intros H. unfold _getenv_int. now rewrite getenv_setenv_other. Qed.

Lemma bool_setenv_other env k v name d :
  String.eqb name k = false ->
  _getenv_bool (setenv env k v) name d = _getenv_bool env name d.
Proof. intros H. unfold _getenv_bool. now rewrite getenv_setenv_other. Qed.

Lemma int_setenv_same env k v d n :
  py_int (str_strip v) = Some n -> _getenv_int (setenv env k v) k d = inr n.
Proof.
  intros H. unfold _getenv_int, getenv, setenv. rewrite String.eqb_refl.
  now rewrite H.
Qed.

(** X22.  The loader checks no range.  Where an environment loads, it still
    loads after [DEDUP_TTL_SEC] is set to any text that [int] accepts, and
    the configuration carries that integer; when it is not positive, every
    connection cycle run from this configuration raises the [ValueError] of
    the cache constructor before any call to the outside. *)
Theorem loader_checks_no_range (env : environ) (v : string) (n : Z) :
  is_ok (load_config env) = true ->
  py_int (str_strip v) = Some n ->
  exists cfg,
    load_config (setenv env "DEDUP_TTL_SEC" v) = inr cfg /\
    dedup_ttl_sec cfg = n /\
    (n <= 0 ->
     forall w,
       Supervisor._run_once (for_supervisor cfg) w
       = ([], inl (ValueError "ttl_sec must be > 0"))).
Proof.
  intros Hok Hint. unfold load_config in *.
  rewrite !getenv_setenv_other by reflexivity.
  rewrite !required_setenv_other by reflexivity.
  rewrite !bool_setenv_other by reflexivity.
  rewrite (int_setenv_other env _ v "HTTP_TIMEOUT_SEC") by reflexivity.
  rewrite (int_setenv_other env _ v "WS_AUTH_EXTEND_INTERVAL_SEC") by reflexivity.
  rewrite (int_setenv_other env _ v "RECONNECT_BACKOFF_BASE_SEC") by reflexivity.
  rewrite (int_setenv_other env _ v "RECONNECT_BACKOFF_MAX_SEC") by reflexivity.
  rewrite (int_setenv_other env _ v "DEDUP_MAX_KEYS") by reflexivity.
  rewrite (int_setenv_other env _ v "PROCESS_MONITOR_CHECK_INTERVAL_SEC") by reflexivity.
  rewrite (int_setenv_other env _ v "PROCESS_MONITOR_IDLE_THRESHOLD_SEC") by reflexivity.
  rewrite (int_setenv_same env _ v 300 n Hint).
  destruct (parse_channels (getenv env "ALERT_CHANNELS" "executionEvents")) as [|ch chs];
    [discriminate Hok|].
  unfold bindr in *.
  repeat match type of Hok with
         | is_ok (match ?r with inl _ => _ | inr _ => _ end) = _ =>
             destruct r; [discriminate Hok|]
         end.
  eexists. split; [reflexivity|]. cbn [dedup_ttl_sec]. split; [reflexivity|].
  intros Hn w. unfold Supervisor._run_once, Dedup.new, for_supervisor.
  cbn [Supervisor.dedup_ttl_sec dedup_ttl_sec].
  destruct (Z.leb_spec n 0); [reflexivity | lia].
Qed.

End SettingsFacts.

(** * The added facts on the sample runs *)

Lemma backoff_closed_form_witness :
  fst (Supervisor._runner Cases.cfg_base0
         (repeat (Supervisor.mkCycle false Samples.world_refused) 4))
  = [0; 0; 0; 0].
Proof.
  refine (proj2 (proj2 (backoff_closed_form Cases.cfg_base0
                          (repeat (Supervisor.mkCycle false Samples.world_refused) 4)
                          _ _ eq_refl)) eq_refl); cbn; lia.
Defined.

Lemma cycle_fails_before_any_call_witness :
  exists e,
    (forall w, Supervisor._run_once Cases.cfg_monitor w = ([], inl e)) /\
    (forall cycles,
        forallb (fun c => negb (Supervisor.stop_at_head c)) cycles = true ->
        length (fst (Supervisor._runner Cases.cfg_monitor cycles)) = length cycles).
Proof.
  exact (cycle_fails_before_any_call Cases.cfg_monitor (or_intror (or_intror eq_refl))).
Defined.

Lemma cycle_calls_in_order_witness :
  fst (Supervisor._run_once Samples.cfg Samples.world_closed)
  = [ Supervisor.CreateWsToken;
      Supervisor.WsConnect "wss://api.coin.z.com/ws/private/v1/tok";
      Supervisor.WsSend
        [("command", Json.JStr "subscribe"); ("channel", Json.JStr "executionEvents")];
      Supervisor.RunTasks; Supervisor.WsClose; Supervisor.DeleteWsToken "tok";
      Supervisor.PdAclose; Supervisor.GmoAclose ].
Proof.
  exact (proj2 (proj2 (cycle_calls_in_order Samples.cfg Samples.world_closed eq_refl))
           "tok" eq_refl eq_refl).
Defined.

Lemma cycle_outcome_witness :
  snd (Supervisor._run_once Samples.cfg Samples.world_closed)
  = inl (TransportError "connection closed").
Proof.
  exact (proj1 (cycle_outcome Samples.cfg Samples.world_closed eq_refl)).
Defined.

Lemma monitor_failures_witness :
  snd (@Monitor.monitor_step Cases.runtime Cases.monitor Samples.pd_live
         Monitor.initial (Cases.turn [Cases.job] 0)) = inr tt /\
  Monitor.last_seen_time
    (fst (fst (@Monitor.monitor_step Cases.runtime Cases.monitor Samples.pd_live
                 Monitor.initial (Cases.turn [Cases.job] 0)))) = Some 0%Q /\
  (Monitor.last_seen_time Monitor.initial = None ->
   Monitor.has_notified
     (fst (fst (@Monitor.monitor_step Cases.runtime Cases.monitor Samples.pd_live
                  Monitor.initial (Cases.turn [Cases.job] 0)))) = false).
Proof.
  refine (proj2 (@monitor_failures Cases.runtime Cases.monitor Samples.pd_live
                   Monitor.initial (Cases.turn [Cases.job] 0) [] eq_refl eq_refl) _).
  discriminate.
Defined.

Lemma loaded_config_is_normalised_witness :
  exists cfg,
    @Settings.load_config Cases.runtime Cases.str_ops Cases.env = inr cfg /\
    Settings.alert_channels cfg = ["executionEvents"; "orderEvents"] /\
    Settings.gmocoin_private_ws_base cfg = "wss://example.test/ws/" /\
    exists b,
      Settings.gmocoin_private_ws_base cfg = (b ++ "/")%string /\
      Text.last_char b <> Some Text.slash.
Proof.
  eexists. split; [vm_compute; reflexivity|].
  split; [reflexivity|]. split; [reflexivity|].
  refine (proj2 (proj2 (proj2 (proj2
            (@loaded_config_is_normalised Cases.runtime Cases.str_ops Cases.env _ _))))).
  vm_compute. reflexivity.
Defined.

Lemma loader_checks_no_range_witness :
  exists cfg,
    @Settings.load_config Cases.runtime Cases.str_ops
      (Settings.setenv Cases.env "DEDUP_TTL_SEC" "0") = inr cfg /\
    Settings.dedup_ttl_sec cfg = 0 /\
    (0 <= 0 ->
     forall w,
       Supervisor._run_once (Settings.for_supervisor cfg) w
       = ([], inl (ValueError "ttl_sec must be > 0"))).
Proof.
  apply (@loader_checks_no_range Cases.runtime Cases.str_ops Cases.env "0" 0);
    vm_compute; reflexivity.
Defined.

(** * Facts about the cache with the arithmetic of float *)

Section FloatDedupFacts.
Import Dedup Float.
Context {fa : Arith}.

(** A call whose conversion of [self._ttl_sec] succeeds, read off with the
    cutoff it computes. *)
Lemma float_reading c key now f :
  float_of_int (ttl_sec c) = Some f ->
  DedupFloat.seen_recently c key now =
  match od_get key (prune_list (fsub now f) (seen c)) with
  | None =>
      (inr false,
       mkCache (ttl_sec c) (max_keys c)
         (enforce_max_list (max_keys c)
            (od_set key now (prune_list (fsub now f) (seen c)))))
  | Some ts =>
      (inr (Qle_bool (fsub now ts) (inject_Z (ttl_sec c))),
       mkCache (ttl_sec c) (max_keys c)
         (od_move_to_end key (prune_list (fsub now f) (seen c))))
  end.
Proof.
  intros H.
  unfold DedupFloat.seen_recently, DedupFloat._prune, DedupFloat.cutoff_of.
  rewrite H. cbn [seen ttl_sec max_keys].
  destruct (od_get key (prune_list (fsub now f) (seen c))); reflexivity.
Qed.

Lemma float_prune_reading c now f :
  float_of_int (ttl_sec c) = Some f ->
  DedupFloat._prune c now
  = (inr tt, mkCache (ttl_sec c) (max_keys c) (prune_list (fsub now f) (seen c))).
Proof.
  intros H. unfold DedupFloat._prune, DedupFloat.cutoff_of. now rewrite H.
Qed.

(** A time-to-live beyond the range of [float] makes every call raise,
    before it touches the dictionary. *)
Lemma float_overflow c key now :
  float_of_int (ttl_sec c) = None ->
  DedupFloat.seen_recently c key now
  = (inl (OverflowError "int too large to convert to float"), c).
Proof.
  intros H.
  unfold DedupFloat.seen_recently, DedupFloat._prune, DedupFloat.cutoff_of.
  now rewrite H.
Qed.

Lemma float_params c key now :
  ttl_sec (snd (DedupFloat.seen_recently c key now)) = ttl_sec c /\
  max_keys (snd (DedupFloat.seen_recently c key now)) = max_keys c.
Proof.
  destruct (float_of_int (ttl_sec c)) as [f|] eqn:E.
  - rewrite (float_reading c key now f E).
    destruct (od_get key (prune_list (fsub now f) (seen c))); cbn; auto.
  - rewrite (float_overflow c key now E). auto.
Qed.

Lemma float_nodup c key now :
  NoDup (keys (seen c)) ->
  NoDup (keys (seen (snd (DedupFloat.seen_recently c key now)))).
Proof.
  intros Hnd. destruct (float_of_int (ttl_sec c)) as [f|] eqn:E;
    [|now rewrite (float_overflow c key now E)].
  rewrite (float_reading c key now f E).
  set (cutoff := fsub now f).
  destruct (prune_list_split cutoff (seen c)) as (pre & Hd & _).
  assert (Hp : NoDup (keys (prune_list cutoff (seen c)))).
  { rewrite Hd in Hnd. now apply suffix_nodup in Hnd. }
  destruct (od_get key (prune_list cutoff (seen c))) as [ts|] eqn:Hget; cbn [snd seen].
  - unfold od_move_to_end. rewrite Hget.
    destruct (od_remove_keys key (prune_list cutoff (seen c))) as (H1 & _ & H3).
    unfold keys in *. rewrite map_app. cbn.
    apply Permutation_NoDup
      with (l := key :: map fst (od_remove key (prune_list cutoff (seen c)))).
    + apply Permutation_cons_append.
    + constructor; auto.
  - rewrite od_set_fresh by assumption.
    assert (Hall : NoDup (keys (prune_list cutoff (seen c) ++ [(key, now)]))).
    { unfold keys in *. rewrite map_app. cbn.
      apply Permutation_NoDup with (l := key :: map fst (prune_list cutoff (seen c))).
      - apply Permutation_cons_append.
      - constructor; [now apply od_get_none_notin | assumption]. }
    destruct (Z_le_gt_dec 0 (max_keys c)) as [Hmax|Hmax].
    + rewrite enforce_max_list_skipn by assumption.
      eapply suffix_nodup with (pre := firstn _ _).
      rewrite firstn_skipn. exact Hall.
    + clear - Hall Hmax.
      induction (prune_list cutoff (seen c) ++ [(key, now)]) as [|e l IH];
        [constructor|].
      cbn [enforce_max_list].
      destruct (Z.gtb_spec (Z.of_nat (length (e :: l))) (max_keys c)); [|lia].
      apply IH. unfold keys in *. cbn in Hall. now inversion Hall.
Qed.

Lemma float_run_params c calls :
  ttl_sec (snd (DedupFloat.run c calls)) = ttl_sec c /\
  max_keys (snd (DedupFloat.run c calls)) = max_keys c.
Proof.
  revert c. induction calls as [|[k t] calls IH]; intros c; cbn; [auto|].
  pose proof (float_params c k t) as [H1 H2].
  destruct (DedupFloat.seen_recently c k t) as [b c1]. cbn in *.
  specialize (IH c1). destruct (DedupFloat.run c1 calls). cbn in *.
  split; intuition congruence.
Qed.

Lemma float_run_nodup c calls :
  NoDup (keys (seen c)) -> NoDup (keys (seen (snd (DedupFloat.run c calls)))).
Proof.
  revert c. induction calls as [|[k t] calls IH]; intros c Hnd; cbn; [auto|].
  pose proof (float_nodup c k t Hnd) as H.
  destruct (DedupFloat.seen_recently c k t) as [b c1]. cbn in *.
  specialize (IH c1 H). now destruct (DedupFloat.run c1 calls).
Qed.

(** A miss puts the key last with the clock reading of the call, pops from
    the front down to the bound, keeps the new key and answers [False]. *)
Lemma float_miss c key now f :
  float_of_int (ttl_sec c) = Some f ->
  0 < max_keys c ->
  od_get key (prune_list (fsub now f) (seen c)) = None ->
  let d := prune_list (fsub now f) (seen c) ++ [(key, now)] in
  let n := (length d - Z.to_nat (max_keys c))%nat in
  DedupFloat.seen_recently c key now
  = (inr false, mkCache (ttl_sec c) (max_keys c) (skipn n d)) /\
  od_get key (skipn n d) = Some now.
Proof.
  intros Hf Hmax Hmiss d n.
  assert (Hn : (n <= length (prune_list (fsub now f) (seen c)))%nat).
  { subst n d. rewrite length_app. cbn. lia. }
  split.
  - rewrite (float_reading c key now f Hf), Hmiss.
    rewrite od_set_fresh by assumption.
    rewrite enforce_max_list_skipn by lia. reflexivity.
  - subst d. rewrite skipn_app.
    replace (n - length (prune_list (fsub now f) (seen c)))%nat with 0%nat by lia.
    cbn [skipn]. apply od_get_app_fresh. now apply od_get_skipn_none.
Qed.

Lemma float_entries c key now e :
  In e (seen (snd (DedupFloat.seen_recently c key now))) ->
  In e (seen c) \/ e = (key, now).
Proof.
  destruct (float_of_int (ttl_sec c)) as [f|] eqn:E;
    [|rewrite (float_overflow c key now E); auto].
  rewrite (float_reading c key now f E).
  destruct (od_get key (prune_list (fsub now f) (seen c))) as [ts|] eqn:Hget;
    cbn [snd seen].
  - unfold od_move_to_end. rewrite Hget. intros H.
    apply in_app_or in H as [H|[<-|[]]]; left.
    + eapply prune_list_incl, od_remove_incl, H.
    + eapply prune_list_incl, od_get_some_in, Hget.
  - rewrite od_set_fresh by assumption. intros H.
    apply enforce_max_list_incl in H. apply in_app_or in H as [H|[<-|[]]].
    + left. eapply prune_list_incl, H.
    + now right.
Qed.

Lemma float_run_stamps_le c calls t :
  Forall (fun e => (snd e <= t)%Q) (seen c) ->
  Forall (fun cl : call => (snd cl <= t)%Q) calls ->
  Forall (fun e => (snd e <= t)%Q) (seen (snd (DedupFloat.run c calls))).
Proof.
  revert c. induction calls as [|[k now] calls IH]; intros c Hc Hcalls; cbn; [auto|].
  inversion Hcalls as [|? ? Hnow Hrest]; subst. cbn in Hnow.
  assert (H1 : Forall (fun e => (snd e <= t)%Q)
                 (seen (snd (DedupFloat.seen_recently c k now)))).
  { apply Forall_forall. intros e He.
    apply float_entries in He as [He| ->]; [|exact Hnow].
    rewrite Forall_forall in Hc. now apply Hc. }
  destruct (DedupFloat.seen_recently c k now) as [b c1]. cbn in *.
  specialize (IH c1 H1 Hrest). now destruct (DedupFloat.run c1 calls).
Qed.

(** A resident key stays resident, with its stamp, through a call whose
    cutoff is below the stamp and whose insertion does not evict it. *)
Lemma float_keeps c key now k t f :
  float_of_int (ttl_sec c) = Some f ->
  0 <= max_keys c ->
  od_get k (seen c) = Some t ->
  (fsub now f < t)%Q ->
  ~ In k (DedupFloat.evicted_by_max c key now) ->
  od_get k (seen (snd (DedupFloat.seen_recently c key now))) = Some t.
Proof.
  intros Hf Hmax Hk Hnow Hev.
  assert (Hpd : od_get k (prune_list (fsub now f) (seen c)) = Some t).
  { now apply prune_keeps. }
  unfold DedupFloat.evicted_by_max in Hev.
  rewrite (float_prune_reading c now f Hf) in Hev. cbn [fst snd seen max_keys] in Hev.
  rewrite (float_reading c key now f Hf).
  destruct (od_get key (prune_list (fsub now f) (seen c))) as [ts|] eqn:Hget;
    cbn [snd seen].
  - unfold od_move_to_end. rewrite Hget.
    destruct (String.eqb_spec key k) as [->|Hne].
    + rewrite Hpd in Hget. injection Hget as ->.
      apply od_get_app_fresh, od_get_remove_same.
    + rewrite od_get_app, od_get_remove_other, Hpd by assumption. reflexivity.
  - rewrite od_set_fresh in * by assumption.
    set (d := prune_list (fsub now f) (seen c) ++ [(key, now)]) in *.
    rewrite enforce_max_list_skipn in * by assumption.
    rewrite length_skipn in Hev.
    set (n := (length d - Z.to_nat (max_keys c))%nat) in *.
    replace (length d - (length d - n))%nat with n in Hev by (subst n; lia).
    assert (Hd : od_get k d = Some t).
    { subst d. rewrite od_get_app, Hpd. reflexivity. }
    rewrite <- (firstn_skipn n d), od_get_app in Hd.
    apply od_get_none_notin in Hev. now rewrite Hev in Hd.
Qed.

Lemma float_run_keeps c mid k t f :
  float_of_int (ttl_sec c) = Some f ->
  0 <= max_keys c ->
  od_get k (seen c) = Some t ->
  Forall (fun cl : call => (fsub (snd cl) f < t)%Q) mid ->
  ~ In k (DedupFloat.evictions c mid) ->
  od_get k (seen (snd (DedupFloat.run c mid))) = Some t.
Proof.
  revert c. induction mid as [|[key now] mid IH]; intros c Hf Hmax Hk Hmid Hev;
    cbn; [auto|].
  inversion Hmid as [|? ? Hnow Hrest]; subst. cbn in Hnow, Hev.
  assert (H1 : od_get k (seen (snd (DedupFloat.seen_recently c key now))) = Some t).
  { apply (float_keeps c key now k t f); auto.
    intros H. apply Hev, in_or_app. now left. }
  assert (H2 : ~ In k (DedupFloat.evictions
                         (snd (DedupFloat.seen_recently c key now)) mid)).
  { intros H. apply Hev, in_or_app. now right. }
  pose proof (float_params c key now) as [Ht Hm].
  destruct (DedupFloat.seen_recently c key now) as [b c1]. cbn in *.
  specialize (IH c1). rewrite Ht, Hm in IH. specialize (IH Hf Hmax H1 Hrest H2).
  now destruct (DedupFloat.run c1 mid).
Qed.

Lemma float_behind c key now k t :
  0 <= max_keys c -> key <> k ->
  behind_stamp k t (seen c) ->
  behind_stamp k t (seen (snd (DedupFloat.seen_recently c key now))).
Proof.
  intros Hmax Hne Hb.
  destruct (float_of_int (ttl_sec c)) as [f|] eqn:E;
    [|now rewrite (float_overflow c key now E)].
  rewrite (float_reading c key now f E).
  destruct (prune_list_skipn (fsub now f) (seen c)) as [m Hm].
  assert (Hp : behind_stamp k t (prune_list (fsub now f) (seen c))).
  { rewrite Hm. now apply behind_skipn. }
  destruct (od_get key (prune_list (fsub now f) (seen c))) as [ts|] eqn:Hget;
    cbn [snd seen].
  - unfold od_move_to_end. rewrite Hget.
    apply behind_append; [assumption|]. now apply behind_remove.
  - rewrite od_set_fresh by assumption.
    rewrite enforce_max_list_skipn by assumption.
    apply behind_skipn. now apply behind_append.
Qed.

Lemma float_run_behind c mid k t :
  0 <= max_keys c ->
  Forall (fun cl : call => fst cl <> k) mid ->
  behind_stamp k t (seen c) ->
  behind_stamp k t (seen (snd (DedupFloat.run c mid))).
Proof.
  revert c. induction mid as [|[key now] mid IH]; intros c Hmax Hmid Hb; cbn; [auto|].
  inversion Hmid as [|? ? Hne Hrest]; subst. cbn in Hne.
  pose proof (float_behind c key now k t Hmax Hne Hb) as H1.
  pose proof (float_params c key now) as [_ Hm].
  destruct (DedupFloat.seen_recently c key now) as [b c1]. cbn in *.
  specialize (IH c1). rewrite Hm in IH. specialize (IH Hmax Hrest H1).
  now destruct (DedupFloat.run c1 mid).
Qed.

(** A call on a resident key: a miss when the pruning removed the key, and
    otherwise the test of the difference to the stamp it was inserted
    with. *)
Lemma float_hit_answer c k t now f :
  float_of_int (ttl_sec c) = Some f ->
  NoDup (keys (seen c)) ->
  od_get k (seen c) = Some t ->
  fst (DedupFloat.seen_recently c k now) =
  match od_get k (prune_list (fsub now f) (seen c)) with
  | Some _ => inr (Qle_bool (fsub now t) (inject_Z (ttl_sec c)))
  | None => inr false
  end.
Proof.
  intros Hf Hnd Hk. rewrite (float_reading c k now f Hf).
  destruct (od_get k (prune_list (fsub now f) (seen c))) as [ts|] eqn:Hget;
    cbn [fst]; [|reflexivity].
  replace ts with t; [reflexivity|].
  apply (nodup_keys_functional (seen c) k); auto using od_get_some_in.
  eapply prune_list_incl, od_get_some_in, Hget.
Qed.

Lemma float_run_from_new ttl max c0 calls :
  new ttl max = inr c0 ->
  0 < ttl /\ 0 < max /\
  ttl_sec (snd (DedupFloat.run c0 calls)) = ttl /\
  max_keys (snd (DedupFloat.run c0 calls)) = max /\
  NoDup (keys (seen (snd (DedupFloat.run c0 calls)))) /\
  (forall t, Forall (fun cl : call => (snd cl <= t)%Q) calls ->
             Forall (fun e => (snd e <= t)%Q) (seen (snd (DedupFloat.run c0 calls)))).
Proof.
  intros Hnew. apply new_inr in Hnew as (Httl & Hmax & ->).
  pose proof (float_run_params (mkCache ttl max []) calls) as [H1 H2].
  repeat split; auto.
  - apply float_run_nodup. constructor.
  - intros t Hc. apply float_run_stamps_le; [constructor | assumption].
Qed.

(** Pruning stops at the latest at an entry stamped after the cutoff. *)
Lemma prune_list_stops cutoff (front : odict) k0 s0 (back : odict) :
  (cutoff < s0)%Q ->
  exists front',
    prune_list cutoff (front ++ (k0, s0) :: back) = front' ++ (k0, s0) :: back /\
    (forall x, In x (keys front') -> In x (keys front)).
Proof.
  intros Hlt. induction front as [|[k' t'] front (front' & IH1 & IH2)];
    cbn [app prune_list].
  - exists []. split; [|auto].
    destruct (Qle_bool s0 cutoff) eqn:E; [|reflexivity].
    apply Qle_bool_iff in E. lra.
  - destruct (Qle_bool t' cutoff).
    + exists front'. split; [exact IH1|]. intros x Hx. right. now apply IH2.
    + exists ((k', t') :: front). split; [reflexivity | auto].
Qed.

(** X3.  A hit does not refresh the stamp, and pruning stops at the first
    entry stamped after the cutoff.  So a key that is resident behind such
    an entry, and whose own test [(now - ts) <= ttl_sec] fails, answers
    [False] to every call made while that entry stays after the cutoff,
    however many calls there are, and keeps its stamp. *)
Theorem stale_key_answers_false_repeatedly (c : DedupCache) (f : Q)
    (front back : odict) (k0 k : string) (s0 ts : Q) (times : list Q) :
  float_of_int (ttl_sec c) = Some f ->
  seen c = front ++ (k0, s0) :: back ->
  ~ In k (keys front) ->
  k0 <> k ->
  od_get k back = Some ts ->
  Forall (fun now => (fsub now f < s0)%Q /\
                     Qle_bool (fsub now ts) (inject_Z (ttl_sec c)) = false) times ->
  fst (DedupFloat.run c (map (fun now => (k, now)) times))
  = repeat (inr false) (length times) /\
  od_get k (seen (snd (DedupFloat.run c (map (fun now => (k, now)) times)))) = Some ts.
Proof.
  revert c front back.
  induction times as [|now times IH]; intros c front back Hf Hs Hfront Hne Hget Hall.
  - cbn. split; [reflexivity|]. rewrite Hs, od_get_app.
    apply od_get_none_notin in Hfront. rewrite Hfront. cbn.
    destruct (String.eqb_spec k0 k); [contradiction | exact Hget].
  - inversion Hall as [|? ? [H1 H2] Hrest]; subst.
    cbn [map DedupFloat.run length repeat].
    destruct (prune_list_stops (fsub now f) front k0 s0 back H1)
      as (front' & Hp & Hsub).
    assert (Hfront' : ~ In k (keys front')) by (intros H; now apply Hfront, Hsub).
    assert (Hfound : od_get k (front' ++ (k0, s0) :: back) = Some ts).
    { rewrite od_get_app. apply od_get_none_notin in Hfront'. rewrite Hfront'. cbn.
      destruct (String.eqb_spec k0 k); [contradiction | exact Hget]. }
    rewrite (float_reading c k now f Hf), Hs, Hp, Hfound, H2.
    unfold od_move_to_end. rewrite Hfound, od_remove_app. cbn [od_remove].
    destruct (String.eqb_spec k0 k) as [|_]; [contradiction|].
    specialize (IH (mkCache (ttl_sec c) (max_keys c)
                      ((od_remove k front' ++ (k0, s0) :: od_remove k back)
                       ++ [(k, ts)]))
                  (od_remove k front') (od_remove k back ++ [(k, ts)])).
    cbn [ttl_sec seen] in IH.
    destruct IH as [IH1 IH2]; auto.
    { now rewrite <- app_assoc. }
    { apply od_remove_keys. }
    { apply od_get_app_fresh, od_get_remove_same. }
    destruct (DedupFloat.run _ _) as [bs c2]. cbn in *. now rewrite IH1.
Qed.

(** Without rounding, and with a conversion that never raises, the cache
    is the one of [Dedup]. *)
Lemma exact_arithmetic_is_dedup (c : DedupCache) (key : string) (now : Q) :
  @DedupFloat.seen_recently exact c key now
  = (inr (fst (Dedup.seen_recently c key now)), snd (Dedup.seen_recently c key now)).
Proof.
  unfold DedupFloat.seen_recently, DedupFloat._prune, DedupFloat.cutoff_of,
    Dedup.seen_recently, Dedup._prune, Dedup.cutoff_of.
  cbn [float_of_int fsub exact seen ttl_sec max_keys].
  destruct (od_get key (prune_list (now - inject_Z (ttl_sec c)) (seen c)));
    reflexivity.
Qed.

End FloatDedupFacts.

(** The same calls in the two arithmetics: they differ at the last one. *)
Example window_at_the_rounding_boundary :
  fst (@DedupFloat.run Float.binary64 (Dedup.mkCache 1 5 [])
         [ ("a", Float.lit 1 10); ("b", Float.lit 1 2); ("a", Float.lit 6 10);
           ("a", Float.lit 11 10) ])
  = [inr false; inr false; inr true; inr true] /\
  fst (Dedup.run (Dedup.mkCache 1 5 [])
         [ ("a", Float.lit 1 10); ("b", Float.lit 1 2); ("a", Float.lit 6 10);
           ("a", Float.lit 11 10) ])
  = [false; false; true; false] /\
  (Float.lit 1 10 + 1 < Float.lit 11 10)%Q /\
  @Float.fsub Float.binary64 (Float.lit 11 10) (Float.lit 1 10) = 1%Q.
Proof. repeat split; vm_compute; reflexivity. Qed.

(** The doubles of some literals, as CPython prints them in hexadecimal:
    [0.1] is [0x1.999999999999ap-4] and [1.1] is [0x1.199999999999ap+0];
    an integer below [2^53] converts to itself, [2^53 + 1] to [2^53], and
    the conversion raises from [2^1024 - 2^970] on. *)
Example binary64_literals :
  (Float.lit 1 10 == inject_Z 7205759403792794 / inject_Z (2 ^ 56))%Q /\
  (Float.lit 11 10 == inject_Z 4953959590107546 / inject_Z (2 ^ 52))%Q /\
  @Float.float_of_int Float.binary64 300 = Some 300%Q /\
  @Float.float_of_int Float.binary64 (2 ^ 53 + 1) = Some (inject_Z (2 ^ 53)) /\
  @Float.float_of_int Float.binary64 (2 ^ 1024 - 2 ^ 970) = None /\
  is_ok (fst (@DedupFloat.seen_recently Float.binary64
                (Dedup.mkCache (2 ^ 1024) 5 []) "a" 0%Q)) = false.
Proof. repeat split; vm_compute; reflexivity. Qed.

Lemma stale_key_answers_false_repeatedly_witness :
  fst (@DedupFloat.run Float.binary64
         (Dedup.mkCache 300 5000 [("c", 100%Q); ("b", 200%Q); ("a", 0%Q)])
         (map (fun now => ("a", now)) [400%Q; 401%Q]))
  = [inr false; inr false].
Proof.
  refine (proj1 (@stale_key_answers_false_repeatedly Float.binary64
                   (Dedup.mkCache 300 5000 [("c", 100%Q); ("b", 200%Q); ("a", 0%Q)])
                   300%Q [("c", 100%Q)] [("a", 0%Q)] "b" "a" 200%Q 0%Q
                   [400%Q; 401%Q] _ eq_refl _ _ eq_refl _)).
  - vm_compute. reflexivity.
  - cbn. intros [H|[]]. discriminate H.
  - discriminate.
  - repeat (constructor; [split; vm_compute; reflexivity|]). constructor.
Defined.

(** * Facts about binary64 *)

Section Binary64Facts.
Import Float.

Lemma rne_le (y : Q) (N : Z) : (y <= inject_Z N)%Q -> rne y <= N.
Proof.
  intros Hy. unfold rne.
  pose proof (Qfloor_resp_le y (inject_Z N) Hy) as Hf. rewrite Qfloor_Z in Hf.
  pose proof (Qfloor_le y) as Hfl.
  destruct (Qcompare_spec (y - inject_Z (Qfloor y)) (1 # 2)) as [E|E|E]; [| exact Hf |].
  - destruct (Z.even (Qfloor y)); [exact Hf|].
    destruct (Z.eq_dec (Qfloor y) N) as [EN|]; [|lia].
    rewrite EN in E. exfalso. lra.
  - destruct (Z.eq_dec (Qfloor y) N) as [EN|]; [|lia].
    rewrite EN in E. exfalso. lra.
Qed.

Lemma rne_int (y : Q) (N : Z) : (y == inject_Z N)%Q -> rne y = N.
Proof.
  intros Hy. unfold rne.
  assert (Hf : Qfloor y = N) by (rewrite Hy; apply Qfloor_Z).
  rewrite Hf.
  destruct (Qcompare_spec (y - inject_Z N) (1 # 2)) as [E|E|E]; [| reflexivity |];
    exfalso; rewrite Hy in E; lra.
Qed.

Lemma two_pow_Z (z : Z) : 0 <= z -> (2 ^ z == inject_Z (2 ^ z))%Q.
Proof. intros H. now rewrite (Zpower_Qpower 2 z H). Qed.

Lemma two_pow_pos (z : Z) : (0 < 2 ^ z)%Q.
Proof. apply Qpower_0_lt. reflexivity. Qed.

(** [ilog2] does not overshoot. *)
Lemma ilog2_le (x : Q) : (0 < x)%Q -> (2 ^ ilog2 x <= x)%Q.
Proof.
  intros Hx. unfold ilog2.
  set (k0 := Z.log2 (Qnum x) - Z.log2 (Z.pos (Qden x))).
  destruct (Qle_bool (2 ^ k0) x) eqn:E; [now apply Qle_bool_iff|].
  destruct x as [n d]. cbn [Qnum Qden] in *.
  assert (Hn : 0 < n) by (unfold Qlt in Hx; cbn in Hx; lia).
  pose proof (Z.log2_spec n Hn) as [Ha _].
  pose proof (Z.log2_spec (Z.pos d) (Pos2Z.is_pos d)) as [_ Hb].
  pose proof (Z.log2_nonneg n) as Hna.
  pose proof (Z.log2_nonneg (Z.pos d)) as Hnb.
  set (a := Z.log2 n) in *. set (b := Z.succ (Z.log2 (Z.pos d))) in *.
  assert (Hk : k0 - 1 = a - b) by (subst k0 a b; lia).
  rewrite Hk.
  rewrite Qpower_minus by (intros H; discriminate H).
  rewrite (two_pow_Z a), (two_pow_Z b) by (subst b; lia).
  assert (HB : 0 < 2 ^ b) by (apply Z.pow_pos_nonneg; subst b; lia).
  apply Qle_shift_div_r; [unfold Qlt; cbn; lia|].
  unfold Qle, Qmult. cbn. nia.
Qed.


Lemma two_ne_0 : ~ (2 == 0)%Q.
Proof. intros H. discriminate H. Qed.

(** The unit in the last place that [round] picks is fine enough for a
    value on a grid of step [2^-j] below [2^(53-j)]. *)
Lemma ulp_below_grid (x : Q) (m j : Z) :
  0 <= j <= 1074 ->
  Z.abs m < 2 ^ 53 ->
  (x == inject_Z m * 2 ^ (- j))%Q ->
  ~ (x == 0)%Q ->
  Z.max (ilog2 (Qabs x) - 52) (-1074) <= - j.
Proof.
  intros Hj Hm Hx Hx0.
  assert (Hpos : (0 < Qabs x)%Q).
  { destruct (Q_dec x 0) as [[H|H]|H]; [| |contradiction].
    - rewrite (Qabs_neg x) by lra. lra.
    - rewrite (Qabs_pos x) by lra. lra. }
  pose proof (ilog2_le (Qabs x) Hpos) as Hlo.
  assert (Hup : (Qabs x < 2 ^ (53 - j))%Q).
  { apply Qabs_Qlt_condition. rewrite Hx.
    replace (53 - j) with (53 + - j) by lia.
    rewrite (Qpower_plus 2 53 (- j) two_ne_0).
    pose proof (two_pow_pos (- j)) as Hp.
    rewrite (two_pow_Z 53) by lia.
    assert (H1 : (inject_Z m < inject_Z (2 ^ 53))%Q) by (rewrite <- Zlt_Qlt; lia).
    assert (H2 : (- inject_Z (2 ^ 53) < inject_Z m)%Q).
    { rewrite <- inject_Z_opp, <- Zlt_Qlt. lia. }
    split.
    - setoid_replace (- (inject_Z (2 ^ 53) * 2 ^ (- j)))%Q
        with ((- inject_Z (2 ^ 53)) * 2 ^ (- j))%Q by ring.
      now apply Qmult_lt_r.
    - now apply Qmult_lt_r. }
  assert (Hlt : (2 ^ ilog2 (Qabs x) < 2 ^ (53 - j))%Q) by (eapply Qle_lt_trans; eauto).
  apply Qpower_lt_compat_l_inv in Hlt; [|reflexivity]. lia.
Qed.

(** A value on such a grid is a binary64 number: rounding leaves it. *)
Lemma round_exact (x : Q) (m j : Z) :
  0 <= j <= 1074 ->
  Z.abs m < 2 ^ 53 ->
  (x == inject_Z m * 2 ^ (- j))%Q ->
  (round x == x)%Q.
Proof.
  intros Hj Hm Hx. unfold round.
  destruct (Qeq_bool x 0) eqn:E.
  - apply Qeq_bool_iff in E. now rewrite E.
  - assert (Hx0 : ~ (x == 0)%Q).
    { intros H. apply Qeq_bool_iff in H. congruence. }
    pose proof (ulp_below_grid x m j Hj Hm Hx Hx0) as He.
    set (e := Z.max (ilog2 (Qabs x) - 52) (-1074)) in *.
    rewrite Qred_correct.
    assert (Hy : (x * 2 ^ (- e) == inject_Z (m * 2 ^ (- j - e)))%Q).
    { rewrite Hx, inject_Z_mult, <- (two_pow_Z (- j - e)) by lia.
      replace (- j - e) with (- j + - e) by lia.
      rewrite (Qpower_plus 2 (- j) (- e) two_ne_0). ring. }
    rewrite (rne_int _ _ Hy), <- Hy.
    rewrite <- Qmult_assoc, <- (Qpower_plus 2 (- e) e two_ne_0).
    replace (- e + e) with 0 by lia. cbn. ring.
Qed.

(** Rounding does not carry a difference across a whole number of
    seconds below [2^53]. *)
Lemma round_le_int (x : Q) (n : Z) :
  0 <= n < 2 ^ 53 ->
  (x <= inject_Z n)%Q ->
  (round x <= inject_Z n)%Q.
Proof.
  intros Hn Hx. unfold round.
  assert (H0n : (0 <= inject_Z n)%Q) by (unfold Qle; cbn; lia).
  destruct (Qeq_bool x 0) eqn:E; [exact H0n|].
  assert (Hx0 : ~ (x == 0)%Q).
  { intros H. apply Qeq_bool_iff in H. congruence. }
  set (e := Z.max (ilog2 (Qabs x) - 52) (-1074)).
  rewrite Qred_correct.
  pose proof (two_pow_pos e) as Hpe. pose proof (two_pow_pos (- e)) as Hpne.
  destruct (Qlt_le_dec x 0) as [Hneg|Hnonneg].
  - assert (Hm : rne (x * 2 ^ (- e)) <= 0).
    { apply rne_le. change (inject_Z 0) with 0%Q.
      setoid_replace 0%Q with (0 * 2 ^ (- e))%Q by ring.
      apply Qmult_le_r; [exact Hpne | lra]. }
    apply Qle_trans with (y := 0%Q); [|exact H0n].
    setoid_replace 0%Q with (0 * 2 ^ e)%Q by ring.
    apply Qmult_le_r; [exact Hpe|]. unfold Qle; cbn; lia.
  - assert (Habs : (Qabs x == x)%Q) by now apply Qabs_pos.
    assert (He : e <= 0).
    { assert (Hpos : (0 < Qabs x)%Q) by (rewrite Habs; lra).
      pose proof (ilog2_le (Qabs x) Hpos) as Hlo.
      assert (Hlt : (2 ^ ilog2 (Qabs x) < 2 ^ 53)%Q).
      { eapply Qle_lt_trans; [exact Hlo|]. rewrite Habs.
        eapply Qle_lt_trans; [exact Hx|].
        rewrite (two_pow_Z 53) by lia. rewrite <- Zlt_Qlt. lia. }
      apply Qpower_lt_compat_l_inv in Hlt; [|reflexivity]. subst e. lia. }
    assert (HN : (inject_Z n * 2 ^ (- e) == inject_Z (n * 2 ^ (- e)))%Q).
    { rewrite inject_Z_mult, <- (two_pow_Z (- e)) by lia. reflexivity. }
    assert (Hm : rne (x * 2 ^ (- e)) <= n * 2 ^ (- e)).
    { apply rne_le. rewrite <- HN. now apply Qmult_le_r. }
    apply Qle_trans with (y := (inject_Z (n * 2 ^ (- e)) * 2 ^ e)%Q).
    + apply Qmult_le_r; [exact Hpe|]. now rewrite <- Zle_Qle.
    + rewrite <- HN, <- Qmult_assoc, <- (Qpower_plus 2 (- e) e two_ne_0).
      replace (- e + e) with 0 by lia. cbn. lra.
Qed.

Lemma grid_difference j a b :
  0 <= j <= 1074 -> on_grid j a -> on_grid j b ->
  (round (a - b) == a - b)%Q.
Proof.
  intros Hj (ma & Ha & Ea) (mb & Hb & Eb).
  apply (round_exact (a - b) (ma - mb) j Hj); [lia|].
  rewrite Ea, Eb. unfold Zminus. rewrite inject_Z_plus, inject_Z_opp. ring.
Qed.

Lemma grid_value j a :
  0 <= j <= 1074 -> on_grid j a -> (round a == a)%Q /\ (0 <= a)%Q /\ (a < 2 ^ 53)%Q.
Proof.
  intros Hj (m & Hm & E). split; [|split].
  - apply (round_exact a m j Hj); [lia | exact E].
  - rewrite E. apply Qmult_le_0_compat; [unfold Qle; cbn; lia|].
    apply Qlt_le_weak, two_pow_pos.
  - rewrite E. apply Qle_lt_trans with (y := inject_Z m).
    + setoid_replace (inject_Z m * 2 ^ (- j))%Q with (2 ^ (- j) * inject_Z m)%Q by ring.
      setoid_replace (inject_Z m) with (1 * inject_Z m)%Q at 2 by ring.
      apply Qmult_le_compat_r; [|unfold Qle; cbn; lia].
      change 1%Q with (2 ^ 0)%Q. apply Qpower_le_compat_l; [lia | discriminate].
    + rewrite (two_pow_Z 53) by lia. rewrite <- Zlt_Qlt. lia.
Qed.

Lemma prune_list_compat (c1 c2 : Q) (d : Dedup.odict) :
  (c1 == c2)%Q -> Dedup.prune_list c1 d = Dedup.prune_list c2 d.
Proof.
  intros H. induction d as [|[k ts] d IH]; cbn; [reflexivity|].
  rewrite H, IH. reflexivity.
Qed.

(** On the grid the int operand converts to itself. *)
Lemma grid_conversion j (ttl : Z) :
  0 <= j <= 1074 -> on_grid j (inject_Z ttl) ->
  exists f, @float_of_int binary64 ttl = Some f /\ (f == inject_Z ttl)%Q.
Proof.
  intros Hj Hg. destruct (grid_value j _ Hj Hg) as (Hr & H0 & Hlt).
  exists (round (inject_Z ttl)). split; [|exact Hr].
  cbn [float_of_int binary64].
  destruct (Qle_bool (2 ^ 1024) (Qabs (round (inject_Z ttl)))) eqn:E; [|reflexivity].
  exfalso. apply Qle_bool_iff in E. rewrite Hr, (Qabs_pos _ H0) in E.
  assert (Hp : (2 ^ 53 <= 2 ^ 1024)%Q).
  { apply Qpower_le_compat_l; [lia | discriminate]. }
  lra.
Qed.

(** One call on the grid: binary64 and the arithmetic without rounding
    answer the same and leave the same cache. *)
Lemma binary64_call_on_grid j (c : Dedup.DedupCache) (key : string) (now : Q) :
  0 <= j <= 1074 ->
  on_grid j (inject_Z (Dedup.ttl_sec c)) ->
  Forall (fun e => on_grid j (snd e)) (Dedup.seen c) ->
  on_grid j now ->
  @DedupFloat.seen_recently binary64 c key now
  = (inr (fst (Dedup.seen_recently c key now)), snd (Dedup.seen_recently c key now)).
Proof.
  intros Hj Httl Hseen Hnow.
  destruct (grid_conversion j _ Hj Httl) as (f & Hf & Ef).
  rewrite (@float_reading binary64 c key now f Hf).
  assert (Hcut : (@fsub binary64 now f == Dedup.cutoff_of c now)%Q).
  { cbn [fsub binary64]. unfold Dedup.cutoff_of.
    destruct Httl as (mt & Hmt & Et). destruct Hnow as (mn & Hmn & En).
    rewrite (round_exact (now - f) (mn - mt) j Hj); [now rewrite Ef | lia |].
    rewrite Ef, En, Et. unfold Zminus. rewrite inject_Z_plus, inject_Z_opp. ring. }
  rewrite (prune_list_compat _ _ (Dedup.seen c) Hcut).
  unfold Dedup.seen_recently, Dedup._prune. cbn [Dedup.seen Dedup.ttl_sec Dedup.max_keys].
  destruct (Dedup.od_get key (Dedup.prune_list (Dedup.cutoff_of c now) (Dedup.seen c)))
    as [ts|] eqn:Hget; [|reflexivity].
  cbn [fst snd]. f_equal. f_equal.
  assert (Hts : on_grid j ts).
  { rewrite Forall_forall in Hseen.
    apply (Hseen (key, ts)). eapply prune_list_incl, od_get_some_in, Hget. }
  cbn [fsub binary64]. now rewrite (grid_difference j now ts Hj Hnow Hts).
Qed.

(** A sequence of calls on the grid. *)
Lemma binary64_run_on_grid (j : Z) (c : Dedup.DedupCache) (calls : list Dedup.call) :
  0 <= j <= 1074 ->
  on_grid j (inject_Z (Dedup.ttl_sec c)) ->
  Forall (fun e => on_grid j (snd e)) (Dedup.seen c) ->
  Forall (fun cl => on_grid j (snd cl)) calls ->
  @DedupFloat.run binary64 c calls
  = (map inr (fst (Dedup.run c calls)), snd (Dedup.run c calls)).
Proof.
  intros Hj. revert c.
  induction calls as [|[key now] calls IH]; intros c Httl Hseen Hcalls; [reflexivity|].
  inversion Hcalls as [|? ? Hnow Hrest]; subst. cbn [snd] in Hnow.
  cbn [DedupFloat.run Dedup.run].
  rewrite (binary64_call_on_grid j c key now Hj Httl Hseen Hnow).
  pose proof (seen_recently_params c key now) as [Ht _].
  assert (Hseen1 : Forall (fun e => on_grid j (snd e))
                     (Dedup.seen (snd (Dedup.seen_recently c key now)))).
  { apply Forall_forall. intros e He.
    apply seen_recently_entries in He as [He| ->]; [|exact Hnow].
    rewrite Forall_forall in Hseen. now apply Hseen. }
  destruct (Dedup.seen_recently c key now) as [b c1]. cbn [fst snd] in *.
  rewrite (IH c1) by (auto; now rewrite Ht).
  destruct (Dedup.run c1 calls) as [bs c2]. reflexivity.
Qed.

(** In binary64 the test of a hit holds whenever the difference itself is
    at most [ttl_sec]: rounding can lengthen the window, as at 1.1 after
    0.1, and cannot shorten it. *)
Lemma binary64_difference_within_ttl (now ts : Q) (ttl : Z) :
  0 <= ttl < 2 ^ 53 ->
  (now - ts <= inject_Z ttl)%Q ->
  Qle_bool (@fsub binary64 now ts) (inject_Z ttl) = true.
Proof.
  intros Httl H. apply Qle_bool_iff. cbn [fsub binary64].
  now apply round_le_int.
Qed.

End Binary64Facts.

(** * The window of a key *)

Section WindowFacts.
Import Dedup Float.

Lemma binary64_prune_on_grid j (c : Dedup.DedupCache) (now : Q) :
  0 <= j <= 1074 ->
  on_grid j (inject_Z (Dedup.ttl_sec c)) ->
  on_grid j now ->
  @DedupFloat._prune binary64 c now = (inr tt, Dedup._prune c now).
Proof.
  intros Hj Httl Hnow.
  destruct (grid_conversion j _ Hj Httl) as (f & Hf & Ef).
  rewrite (@float_prune_reading binary64 c now f Hf).
  unfold Dedup._prune. do 2 f_equal. apply prune_list_compat.
  cbn [fsub binary64]. unfold Dedup.cutoff_of.
  destruct Httl as (mt & Hmt & Et). destruct Hnow as (mn & Hmn & En).
  rewrite (round_exact (now - f) (mn - mt) j Hj); [now rewrite Ef | lia |].
  rewrite Ef, En, Et. unfold Zminus. rewrite inject_Z_plus, inject_Z_opp. ring.
Qed.

Lemma binary64_evictions_on_grid j (c : Dedup.DedupCache) (calls : list Dedup.call) :
  0 <= j <= 1074 ->
  on_grid j (inject_Z (Dedup.ttl_sec c)) ->
  Forall (fun e => on_grid j (snd e)) (Dedup.seen c) ->
  Forall (fun cl => on_grid j (snd cl)) calls ->
  @DedupFloat.evictions binary64 c calls = Dedup.evictions c calls.
Proof.
  intros Hj. revert c.
  induction calls as [|[key now] calls IH]; intros c Httl Hseen Hcalls; [reflexivity|].
  inversion Hcalls as [|? ? Hnow Hrest]; subst. cbn [snd] in Hnow.
  cbn [DedupFloat.evictions Dedup.evictions].
  rewrite (binary64_call_on_grid j c key now Hj Httl Hseen Hnow). cbn [snd].
  pose proof (seen_recently_params c key now) as [Ht _].
  rewrite IH; auto.
  - f_equal. unfold DedupFloat.evicted_by_max, Dedup.evicted_by_max.
    rewrite (binary64_prune_on_grid j c now Hj Httl Hnow). reflexivity.
  - now rewrite Ht.
  - apply Forall_forall. intros e He.
    apply seen_recently_entries in He as [He| ->]; [|exact Hnow].
    rewrite Forall_forall in Hseen. now apply Hseen.
Qed.

Lemma run_on_grid j (c : Dedup.DedupCache) (calls : list Dedup.call) :
  Forall (fun e => on_grid j (snd e)) (Dedup.seen c) ->
  Forall (fun cl => on_grid j (snd cl)) calls ->
  Forall (fun e => on_grid j (snd e)) (Dedup.seen (snd (Dedup.run c calls))).
Proof.
  revert c. induction calls as [|[key now] calls IH]; intros c Hseen Hcalls; [exact Hseen|].
  inversion Hcalls as [|? ? Hnow Hrest]; subst. cbn [snd] in Hnow.
  cbn [Dedup.run].
  assert (H1 : Forall (fun e => on_grid j (snd e))
                 (Dedup.seen (snd (Dedup.seen_recently c key now)))).
  { apply Forall_forall. intros e He.
    apply seen_recently_entries in He as [He| ->]; [|exact Hnow].
    rewrite Forall_forall in Hseen. now apply Hseen. }
  destruct (Dedup.seen_recently c key now) as [b c1]. cbn [snd] in *.
  specialize (IH c1 H1 Hrest). now destruct (Dedup.run c1 calls).
Qed.

(** X23.  The arithmetic without rounding is the one of the interpreter on
    the grid.  A cache whose time-to-live and stamps are on the grid serves
    calls at clock readings on the grid as [Dedup] says: every call returns,
    with the same answer, the same evictions and the same cache, whose
    stamps are on the grid again. *)
Theorem binary64_agrees_on_grid (j : Z) (c : DedupCache) (calls : list call) :
  0 <= j <= 1074 ->
  on_grid j (inject_Z (ttl_sec c)) ->
  Forall (fun e => on_grid j (snd e)) (seen c) ->
  Forall (fun cl => on_grid j (snd cl)) calls ->
  @DedupFloat.run binary64 c calls
  = (map inr (fst (Dedup.run c calls)), snd (Dedup.run c calls)) /\
  @DedupFloat.evictions binary64 c calls = Dedup.evictions c calls /\
  Forall (fun e => on_grid j (snd e)) (seen (snd (@DedupFloat.run binary64 c calls))).
Proof.
  intros Hj Httl Hseen Hcalls.
  pose proof (binary64_run_on_grid j c calls Hj Httl Hseen Hcalls) as Hrun.
  split; [exact Hrun|]. split.
  - now apply (binary64_evictions_on_grid j).
  - rewrite Hrun. cbn [snd]. now apply run_on_grid.
Qed.

(** C2, as the code has it.  Let a cache built by the constructor serve the
    calls [pre], and let the next call, at clock reading [t], not find [k],
    so that [k] is inserted with the stamp [t].  Let calls [mid] follow, then
    a call on [k] at [t'].

    In the arithmetic of [float], whatever its rounding, with [f] the float
    of [ttl_sec]:
    - while the cutoff [now - ttl_sec] of each call of [mid] stays below [t]
      and the capacity bound does not evict [k], [k] stays resident with the
      stamp [t], whatever hits it gets; the call at [t'] then answers by
      the test [(t' - t) <= ttl_sec] of the code, against the stamp [t],
      whenever the pruning leaves [k], which it does while the cutoff of
      [t'] is below [t]; and it answers [True] only when that test holds;
    - when the clock did not run backwards up to [t] and [mid] holds no call
      on [k], the call at [t'] returns [False] once its cutoff has reached
      [t];
    - a hit moves the key to the last position and keeps its stamp.

    In binary64, for a time-to-live and clock readings on a grid, where no
    difference is rounded, these tests are the comparisons of the clock
    readings themselves: while the calls of [mid] come before [t + ttl] and
    the capacity bound does not evict [k], the call at [t' < t + ttl]
    returns [True] and the call at [t' > t + ttl] returns [False], whatever
    hits [k] got; and when the clock did not run backwards up to [t] and
    [mid] holds no call on [k], the call at [t' >= t + ttl] returns
    [False]. *)
Theorem ttl_window :
  (forall (fa : Arith) (ttl max : Z) (f : Q) (c0 : DedupCache)
          (pre mid : list call) (k : string) (t t' : Q),
      new ttl max = inr c0 ->
      float_of_int ttl = Some f ->
      let c := snd (DedupFloat.run c0 pre) in
      od_get k (seen (snd (DedupFloat._prune c t))) = None ->
      let c1 := snd (DedupFloat.seen_recently c k t) in
      let c2 := snd (DedupFloat.run c1 mid) in
      (fst (DedupFloat.seen_recently c k t) = inr false /\
       od_get k (seen c1) = Some t) /\
      (Forall (fun cl : call => (fsub (snd cl) f < t)%Q) mid ->
       ~ In k (DedupFloat.evictions c1 mid) ->
       od_get k (seen c2) = Some t /\
       ((fsub t' f < t)%Q ->
        fst (DedupFloat.seen_recently c2 k t')
        = inr (Qle_bool (fsub t' t) (inject_Z ttl))) /\
       (od_get k (seen (snd (DedupFloat._prune c2 t'))) <> None ->
        fst (DedupFloat.seen_recently c2 k t')
        = inr (Qle_bool (fsub t' t) (inject_Z ttl))) /\
       (fst (DedupFloat.seen_recently c2 k t') = inr true ->
        Qle_bool (fsub t' t) (inject_Z ttl) = true)) /\
      (Forall (fun cl : call => (snd cl <= t)%Q) pre ->
       Forall (fun cl : call => fst cl <> k) mid ->
       (t <= fsub t' f)%Q ->
       fst (DedupFloat.seen_recently c2 k t') = inr false) /\
      (forall c' ts now,
          float_of_int (ttl_sec c') <> None ->
          od_get k (seen (snd (DedupFloat._prune c' now))) = Some ts ->
          seen (snd (DedupFloat.seen_recently c' k now))
          = od_remove k (seen (snd (DedupFloat._prune c' now))) ++ [(k, ts)])) /\
  (forall (j ttl max : Z) (c0 : DedupCache) (pre mid : list call)
          (k : string) (t t' : Q),
      0 <= j <= 1074 ->
      new ttl max = inr c0 ->
      on_grid j (inject_Z ttl) ->
      Forall (fun cl : call => on_grid j (snd cl)) (pre ++ (k, t) :: mid ++ [(k, t')]) ->
      let c := snd (@DedupFloat.run binary64 c0 pre) in
      od_get k (seen (snd (@DedupFloat._prune binary64 c t))) = None ->
      let c1 := snd (@DedupFloat.seen_recently binary64 c k t) in
      let c2 := snd (@DedupFloat.run binary64 c1 mid) in
      (Forall (fun cl : call => (snd cl < t + inject_Z ttl)%Q) mid ->
       ~ In k (@DedupFloat.evictions binary64 c1 mid) ->
       od_get k (seen c2) = Some t /\
       ((t' < t + inject_Z ttl)%Q ->
        fst (@DedupFloat.seen_recently binary64 c2 k t') = inr true) /\
       ((t + inject_Z ttl < t')%Q ->
        fst (@DedupFloat.seen_recently binary64 c2 k t') = inr false)) /\
      (Forall (fun cl : call => (snd cl <= t)%Q) pre ->
       Forall (fun cl : call => fst cl <> k) mid ->
       (t + inject_Z ttl <= t')%Q ->
       fst (@DedupFloat.seen_recently binary64 c2 k t') = inr false)).
Proof.
  split.
  { intros fa ttl max f c0 pre mid k t t' Hnew Hf c Hmiss c1 c2.
    destruct (float_run_from_new ttl max c0 pre Hnew)
      as (Httl & Hmax & Ht & Hm & Hnd & Hst).
    fold c in Ht, Hm, Hnd, Hst.
    assert (Hfc : float_of_int (ttl_sec c) = Some f) by now rewrite Ht.
    assert (Hmaxc : 0 < max_keys c) by lia.
    rewrite (float_prune_reading c t f Hfc) in Hmiss. cbn [snd seen] in Hmiss.
    pose proof (float_miss c k t f Hfc Hmaxc Hmiss) as Hx. cbv zeta in Hx.
    destruct Hx as (Hsr & Hres).
    assert (Hc1 : od_get k (seen c1) = Some t).
    { subst c1. rewrite Hsr. exact Hres. }
    pose proof (float_params c k t) as [Ht1 Hm1]. fold c1 in Ht1, Hm1.
    pose proof (float_run_params c1 mid) as [Ht2 Hm2]. fold c2 in Ht2, Hm2.
    assert (Hfc2 : float_of_int (ttl_sec c2) = Some f) by now rewrite Ht2, Ht1.
    assert (Hnd2 : NoDup (keys (seen c2))).
    { subst c2 c1. now apply float_run_nodup, float_nodup. }
    split; [split; [now rewrite Hsr | exact Hc1]|]. split; [|split].
    - intros Hmid Hev.
      assert (Hc2 : od_get k (seen c2) = Some t).
      { subst c2. apply (float_run_keeps c1 mid k t f); auto; [congruence | lia]. }
      split; [exact Hc2|].
      rewrite (float_hit_answer c2 k t t' f Hfc2 Hnd2 Hc2).
      rewrite (float_prune_reading c2 t' f Hfc2). cbn [snd seen].
      rewrite Ht2, Ht1, Ht. split; [|split].
      + intros Hlt. now rewrite (prune_keeps k t (fsub t' f) (seen c2) Hc2 Hlt).
      + intros Hres'.
        destruct (od_get k (prune_list (fsub t' f) (seen c2))); [reflexivity|].
        now contradiction Hres'.
      + destruct (od_get k (prune_list (fsub t' f) (seen c2)));
          intros H; [injection H as H; exact H | discriminate H].
    - intros Hpre Hmid Hle.
      assert (Hb1 : behind_stamp k t (seen c1)).
      { exists (seen c1), []. split; [now rewrite app_nil_r|]. split; [|tauto].
        apply Forall_forall. intros e He. subst c1.
        apply float_entries in He as [He| ->]; [|cbn; lra].
        specialize (Hst t Hpre). rewrite Forall_forall in Hst. now apply Hst. }
      assert (Hb2 : behind_stamp k t (seen c2)).
      { subst c2. apply float_run_behind; auto. lia. }
      rewrite (float_reading c2 k t' f Hfc2).
      now rewrite (behind_pruned k t (fsub t' f) (seen c2) Hb2 Hle).
    - intros c' ts now Hconv Hget.
      destruct (float_of_int (ttl_sec c')) as [f'|] eqn:E; [|congruence].
      rewrite (float_prune_reading c' now f' E) in Hget |- *. cbn [snd seen] in *.
      rewrite (float_reading c' k now f' E), Hget. cbn [snd seen].
      unfold od_move_to_end. now rewrite Hget.
  }
  { intros j ttl max c0 pre mid k t t' Hj Hnew Httl Hall c Hmiss c1 c2.
    apply Forall_app in Hall as [Hpre Hall].
    inversion Hall as [|? ? Ht Hall']; subst. cbn [snd] in Ht.
    apply Forall_app in Hall' as [Hmid Hlast].
    inversion Hlast as [|? ? Ht' _]; subst. cbn [snd] in Ht'.
    pose proof (new_inr ttl max c0 Hnew) as (Htpos & Hmpos & Ec0).
    assert (Hg0 : on_grid j (inject_Z (Dedup.ttl_sec c0))) by (subst c0; exact Httl).
    assert (Hs0 : Forall (fun e => on_grid j (snd e)) (Dedup.seen c0))
      by (subst c0; constructor).
    (* the three caches are those of the arithmetic without rounding *)
    set (d := snd (Dedup.run c0 pre)).
    assert (Ec : c = d).
    { subst c d. now rewrite (binary64_run_on_grid j c0 pre Hj Hg0 Hs0 Hpre). }
    pose proof (run_params c0 pre) as [Htd _]. fold d in Htd.
    assert (Hgd : on_grid j (inject_Z (Dedup.ttl_sec d))) by now rewrite Htd.
    assert (Hsd : Forall (fun e => on_grid j (snd e)) (Dedup.seen d))
      by now apply run_on_grid.
    set (d1 := snd (Dedup.seen_recently d k t)).
    assert (Ec1 : c1 = d1).
    { subst c1 d1. rewrite Ec.
      now rewrite (binary64_call_on_grid j d k t Hj Hgd Hsd Ht). }
    pose proof (seen_recently_params d k t) as [Htd1 _]. fold d1 in Htd1.
    assert (Hgd1 : on_grid j (inject_Z (Dedup.ttl_sec d1))) by now rewrite Htd1, Htd.
    assert (Hsd1 : Forall (fun e => on_grid j (snd e)) (Dedup.seen d1)).
    { apply Forall_forall. intros e He. subst d1.
      apply seen_recently_entries in He as [He| ->]; [|exact Ht].
      rewrite Forall_forall in Hsd. now apply Hsd. }
    set (d2 := snd (Dedup.run d1 mid)).
    assert (Ec2 : c2 = d2).
    { subst c2 d2. rewrite Ec1.
      now rewrite (binary64_run_on_grid j d1 mid Hj Hgd1 Hsd1 Hmid). }
    pose proof (run_params d1 mid) as [Htd2 _]. fold d2 in Htd2.
    assert (Hgd2 : on_grid j (inject_Z (Dedup.ttl_sec d2))) by now rewrite Htd2.
    assert (Hsd2 : Forall (fun e => on_grid j (snd e)) (Dedup.seen d2))
      by now apply run_on_grid.
    rewrite Ec in Hmiss. rewrite (binary64_prune_on_grid j d t Hj Hgd Ht) in Hmiss.
    cbn [snd] in Hmiss.
    rewrite Ec2, Ec1.
    rewrite (binary64_evictions_on_grid j d1 mid Hj Hgd1 Hsd1 Hmid).
    rewrite (binary64_call_on_grid j d2 k t' Hj Hgd2 Hsd2 Ht'). cbn [fst].
    destruct (window_without_rounding ttl max c0 pre mid k t t' Hnew Hmiss)
      as (_ & Hwin & Hexp & _).
    fold d in Hwin, Hexp. fold d1 in Hwin, Hexp. fold d2 in Hwin, Hexp.
    split.
    - intros H1 H2. destruct (Hwin H1 H2) as (A & B & C).
      split; [exact A|]. split; intros H; f_equal; auto.
    - intros H1 H2 H3. f_equal. auto.
  }
Qed.

End WindowFacts.

(** The window of [a], inserted at 0.1 with [ttl_sec = 1], at the call at
    1.1, in binary64: the pruning stops at [b], stamped 0.5, the difference
    [1.1 - 0.1] rounds to 1, and the call returns [True], although 1.1 is
    more than one second after 0.1.  And the window of [a], inserted at
    1700000000 with [ttl_sec = 300], at the call at 1700000299.5, on the
    grid of step [2^-22]. *)
Lemma ttl_window_witness :
  fst (@DedupFloat.seen_recently Float.binary64
         (snd (@DedupFloat.run Float.binary64
                 (snd (@DedupFloat.seen_recently Float.binary64
                         (Dedup.mkCache 1 5 []) "a" (Float.lit 1 10)))
                 [("b", Float.lit 1 2); ("a", Float.lit 6 10)]))
         "a" (Float.lit 11 10))
  = inr true /\
  fst (@DedupFloat.seen_recently Float.binary64
         (snd (@DedupFloat.run Float.binary64
                 (snd (@DedupFloat.seen_recently Float.binary64
                         (Dedup.mkCache 300 5000 []) "a" (inject_Z 1700000000)))
                 [("b", (3400000001 # 2)%Q)]))
         "a" (3400000599 # 2)%Q)
  = inr true.
Proof.
  split.
  - refine (proj1 (proj2 (proj2 (proj1 (proj2
              (proj1 ttl_window Float.binary64 1 5 1%Q (Dedup.mkCache 1 5 []) []
                 [("b", Float.lit 1 2); ("a", Float.lit 6 10)] "a"
                 (Float.lit 1 10) (Float.lit 11 10) eq_refl _ _)) _ _))) _).
    + vm_compute. reflexivity.
    + vm_compute. reflexivity.
    + repeat (constructor; [vm_compute; reflexivity|]). constructor.
    + vm_compute. intros [].
    + vm_compute. discriminate.
  - refine (proj1 (proj2 (proj1
              (proj2 ttl_window 22 300 5000 (Dedup.mkCache 300 5000 []) []
                 [("b", (3400000001 # 2)%Q)] "a"
                 (inject_Z 1700000000) (3400000599 # 2)%Q _ eq_refl _ _ _) _ _)) _).
    + lia.
    + exists (300 * 2 ^ 22). split; [lia | vm_compute; reflexivity].
    + repeat constructor.
      * exists (1700000000 * 2 ^ 22). split; [lia | vm_compute; reflexivity].
      * exists (3400000001 * 2 ^ 21). split; [lia | vm_compute; reflexivity].
      * exists (3400000599 * 2 ^ 21). split; [lia | vm_compute; reflexivity].
    + vm_compute. reflexivity.
    + repeat (constructor; [vm_compute; reflexivity|]). constructor.
    + vm_compute. intros [].
    + vm_compute. reflexivity.
Defined.

Lemma binary64_agrees_on_grid_witness :
  @DedupFloat.run Float.binary64 (Dedup.mkCache 300 5000 [])
    [ ("a", inject_Z 1700000000); ("b", (3400000001 # 2)%Q);
      ("a", inject_Z 1700000300); ("a", (3400000601 # 2)%Q) ]
  = ([inr false; inr false; inr false; inr true],
     Dedup.mkCache 300 5000 [("a", inject_Z 1700000300)]).
Proof.
  refine (eq_trans
            (proj1 (binary64_agrees_on_grid 22 (Dedup.mkCache 300 5000 [])
                      [ ("a", inject_Z 1700000000); ("b", (3400000001 # 2)%Q);
                        ("a", inject_Z 1700000300); ("a", (3400000601 # 2)%Q) ]
                      _ _ _ _)) _).
  - lia.
  - exists (300 * 2 ^ 22). split; [lia | vm_compute; reflexivity].
  - constructor.
  - repeat constructor.
    + exists (1700000000 * 2 ^ 22). split; [lia | vm_compute; reflexivity].
    + exists (3400000001 * 2 ^ 21). split; [lia | vm_compute; reflexivity].
    + exists (1700000300 * 2 ^ 22). split; [lia | vm_compute; reflexivity].
    + exists (3400000601 * 2 ^ 21). split; [lia | vm_compute; reflexivity].
  - vm_compute. reflexivity.
Defined.

